(** * LayoutToNetlist: a shallow embedding of [src/db/db/dbLayoutToNetlist.cc]

    The development follows the source file top-down: the collaborators the
    file only uses (geometry kernel, deep shape store, connectivity, netlist,
    hierarchical clusters), the facade state and its mutators, shape
    delivery, hierarchy rebuild and net probing.  Theorems are collected at
    the end. *)

From Stdlib Require Import ZArith QArith List String Lia Bool.
From stdpp Require Import base option list gmap strings.

Set Warnings "-register-all".

(** ** Geometry kernel

    Transformations, boxes and the floating-point scalars are declared in
    headers that are not part of this file; they are taken as an interface.
    [ICplxTrans] is the integer-unit complex transformation, [DCplxTrans]
    the micron-unit one. *)

Class Kernel := {
  (** [double] *)
  dbl : Type;
  dbl_one : dbl;
  dbl_div : dbl -> dbl -> dbl;
  ICplxTrans : Type;
  DCplxTrans : Type;
  (** [db::ICplxTrans ()] *)
  itrans_unit : ICplxTrans;
  (** [a * b] *)
  itrans_mul : ICplxTrans -> ICplxTrans -> ICplxTrans;
  (** [t.inverted ()] *)
  itrans_inverted : ICplxTrans -> ICplxTrans;
  (** [db::ICplxTrans (mag)] *)
  itrans_of_mag : dbl -> ICplxTrans;
  (** [t.mag ()] *)
  itrans_mag : ICplxTrans -> dbl;
  (** [db::CplxTrans (dbu) * t * db::CplxTrans (dbu).inverted ()] *)
  dbu_to_micron : dbl -> ICplxTrans -> DCplxTrans;
  (** [db::CplxTrans (dbu).inverted () * t * db::CplxTrans (dbu)] *)
  micron_to_dbu : dbl -> DCplxTrans -> ICplxTrans;
  (** [a.equal (b)] *)
  dtrans_equal : DCplxTrans -> DCplxTrans -> bool;
  (** the placement transformation of [db::CellInstArray::transform_into] *)
  itrans_transform_into : ICplxTrans -> ICplxTrans -> ICplxTrans;
  Point : Type;
  DPoint : Type;
  (** [db::CplxTrans (dbu).inverted () * p] *)
  dpoint_to_point : dbl -> DPoint -> Point;
  Box : Type;
  (** [db::Box (p - db::Vector (1, 1), p + db::Vector (1, 1))] *)
  probe_box : Point -> Box;
  (** [t * b] *)
  box_transformed : ICplxTrans -> Box -> Box;
  (** the interned polygon a [db::PolygonRef] points to *)
  Polygon : Type;
}.

(** ** Exceptions and the state monad of the facade *)

Inductive exn : Type :=
| Exception (msg : string)      (* tl::Exception *)
| InternalException             (* a failed tl_assert *)
| NullPointer.                  (* dereference of a null pointer *)

Inductive outcome (S A : Type) : Type :=
| Done (a : A) (s : S)
| Raise (e : exn) (s : S)
| OutOfFuel.

Arguments Done {S A} a s.
Arguments Raise {S A} e s.
Arguments OutOfFuel {S A}.

Definition M (S A : Type) : Type := S -> outcome S A.

Definition ret {S A} (a : A) : M S A := fun s => Done a s.

Definition bind {S A B} (m : M S A) (k : A -> M S B) : M S B :=
  fun s => match m s with
           | Done a s' => k a s'
           | Raise e s' => Raise e s'
           | OutOfFuel => OutOfFuel
           end.

Definition throw {S A} (e : exn) : M S A := fun s => Raise e s.
Definition get {S} : M S S := fun s => Done s s.
Definition put {S} (s : S) : M S unit := fun _ => Done tt s.
Definition modify {S} (f : S -> S) : M S unit := fun s => Done tt (f s).
Definition out_of_fuel {S A} : M S A := fun _ => OutOfFuel.

Declare Scope l2n_scope.
Delimit Scope l2n_scope with l2n.
Notation "x <- m ;; k" := (bind m (fun x => k))
  (at level 100, m at next level, right associativity) : l2n_scope.
Notation "m ;;; k" := (bind m (fun _ => k))
  (at level 100, right associativity) : l2n_scope.
Local Open Scope l2n_scope.

(** [for (x : xs) body (x)] *)
Fixpoint for_each {S A} (xs : list A) (body : A -> M S unit) : M S unit :=
  match xs with
  | [] => ret tt
  | x :: xs' => body x ;;; for_each xs' body
  end.

(** The messages of the exceptions the file throws. *)
Definition msg_already_extracted : string := "The netlist has already been extracted".
Definition msg_not_extracted : string := "The netlist has not been extracted yet".
Definition msg_clipped : string := "The netlist extractor cannot work on clipped layouts".
Definition msg_name_used : string := "Layer name is already used: ".
Definition msg_not_deep_region : string := "Layer is not a deep region".
Definition msg_non_hier : string := "Non-hierarchical layers cannot be used in netlist extraction".
Definition msg_intra_non_hier : string :=
  "Non-hierarchical layers cannot be used in intra-layer connectivity for netlist extraction".
Definition msg_intra_unnamed : string :=
  "Only named layers can be used in intra-layer connectivity for netlist extraction".
Definition msg_inter_non_hier_1 : string :=
  "Non-hierarchical layers cannot be used in inter-layer connectivity (first layer) for netlist extraction".
Definition msg_inter_non_hier_2 : string :=
  "Non-hierarchical layers cannot be used in inter-layer connectivity (second layer) for netlist extraction".
Definition msg_inter_unnamed_1 : string :=
  "Only named layers can be used in inter-layer connectivity (first layer) for netlist extraction".
Definition msg_inter_unnamed_2 : string :=
  "Only named layers can be used in inter-layer connectivity (second layer) for netlist extraction".
Definition msg_global_non_hier : string :=
  "Non-hierarchical layers cannot be used in global connectivity for netlist extraction".
Definition msg_global_unnamed : string :=
  "Only named layers can be used in global connectivity for netlist extraction".

(** ** Regions and deep layers *)

Record DeepLayer : Type := mkDeepLayer {
  dl_layout : nat;   (* index of the layout inside the deep shape store *)
  dl_layer : nat     (* layer index inside that layout: [layer ()] *)
}.

Global Instance DeepLayer_eq_dec : EqDecision DeepLayer.
Proof. solve_decision. Defined.

Global Instance DeepLayer_countable : Countable DeepLayer.
Proof.
  apply (inj_countable' (fun d => (dl_layout d, dl_layer d))
                        (fun p => mkDeepLayer p.1 p.2)).
  by intros [].
Defined.

(** A region's delegate is either flat or a [db::DeepRegion]. *)
Inductive Region : Type :=
| FlatRegion
| DeepRegion (dl : DeepLayer).

(** [is_deep] *)
Definition is_deep (r : Region) : bool :=
  match r with
  | DeepRegion _ => true
  | FlatRegion => false
  end.

(** [db::cell_index_type] *)
Abbreviation cell_index_type := nat (only parsing).

Section WithKernel.
Context `{K : Kernel}.

(** ** Polygon references and delivery targets *)

Record PolygonRef : Type := mkPolygonRef {
  pr_obj : Polygon;
  pr_is_box : bool;          (* [obj ().is_box ()] *)
  pr_trans : ICplxTrans      (* [trans ()] *)
}.

(** What [deliver_shape] inserts: the object of the reference, transformed
    first by the reference's own transformation and then by [tr]. *)
Inductive Shape : Type :=
| ShBox (obj : Polygon) (ref_trans tr : ICplxTrans)
| ShPolygon (obj : Polygon) (ref_trans tr : ICplxTrans)
| ShPolygonRef (obj : Polygon) (ref_trans tr : ICplxTrans).

Inductive StopOnFirst : Type := StopOnFirst_v.

(** [db::Region] as a delivery target: the inserted shapes, most recent last. *)
Definition RegionTarget : Type := list Shape.

(** [db::Shapes]: the shapes and whether the container lives in a layout. *)
Record Shapes : Type := mkShapes {
  sh_in_layout : bool;
  sh_items : list Shape
}.

(** The three overloads of [deliver_shape]. *)
Class DeliverTo (To : Type) := deliver_shape : PolygonRef -> To -> ICplxTrans -> To * bool.

Global Instance deliver_stop_on_first : DeliverTo StopOnFirst :=
  fun _ to _ => (to, false).

Global Instance deliver_region : DeliverTo RegionTarget :=
  fun pr region tr =>
    if pr_is_box pr
    then (region ++ [ShBox (pr_obj pr) (pr_trans pr) tr], true)
    else (region ++ [ShPolygon (pr_obj pr) (pr_trans pr) tr], true).

Global Instance deliver_shapes : DeliverTo Shapes :=
  fun pr shapes tr =>
    if pr_is_box pr
    then (mkShapes (sh_in_layout shapes)
                   (sh_items shapes ++ [ShBox (pr_obj pr) (pr_trans pr) tr]), true)
    else if sh_in_layout shapes
    then (mkShapes (sh_in_layout shapes)
                   (sh_items shapes ++ [ShPolygonRef (pr_obj pr) (pr_trans pr) tr]), true)
    else (mkShapes (sh_in_layout shapes)
                   (sh_items shapes ++ [ShPolygon (pr_obj pr) (pr_trans pr) tr]), true).


(** ** Netlist objects

    The netlist classes are declared elsewhere; the records keep the members
    this file reads.  Pointers between netlist objects are kept as data: a
    net carries the cell index of its circuit, a subcircuit carries the pins
    and the pin-to-net table of the circuit it references. *)

Record Pin : Type := mkPin {
  pin_id : nat                              (* [id ()] *)
}.

Record Net : Type := mkNet {
  net_circuit : option cell_index_type;     (* [circuit ()->cell_index ()], [None] for a null [circuit ()] *)
  net_cluster_id : nat;                     (* [cluster_id ()] *)
  net_expanded_name : string;               (* [expanded_name ()] *)
  net_pins : list nat                       (* [pin_id ()] of [begin_pins () .. end_pins ()] *)
}.

(** [pin_count ()] *)
Definition pin_count (n : Net) : nat := length (net_pins n).

Record SubCircuit : Type := mkSubCircuit {
  sc_circuit : option nat;                  (* [circuit ()]: position of the owning circuit in the netlist *)
  sc_ref_pins : list Pin;                   (* [circuit_ref ()->begin_pins () ..] *)
  sc_ref_net_for_pin : nat -> option Net;   (* [circuit_ref ()->net_for_pin (id)] *)
  sc_trans : DCplxTrans;                    (* [trans ()] *)
  sc_expanded_name : string;                (* [expanded_name ()] *)
  sc_net_for_pin : nat -> option Net        (* [net_for_pin (id)] *)
}.

Record Circuit : Type := mkCircuit {
  c_cell_index : cell_index_type;           (* [cell_index ()] *)
  c_nets : list Net;                        (* [begin_nets () ..] *)
  c_pins : list Pin;
  c_subcircuits : list SubCircuit;          (* [begin_subcircuits () ..] *)
  c_refs : list SubCircuit;                 (* [begin_refs () ..] *)
  c_has_parents : bool                      (* [begin_parents () != end_parents ()] *)
}.

(** [net_by_cluster_id] *)
Definition net_by_cluster_id (c : Circuit) (cid : nat) : option Net :=
  List.find (fun n => Nat.eqb (net_cluster_id n) cid) (c_nets c).

(** [pin_by_id] *)
Definition pin_by_id (c : Circuit) (id : nat) : option Pin :=
  List.find (fun p => Nat.eqb (pin_id p) id) (c_pins c).

Record Netlist : Type := mkNetlist {
  nl_circuits : list Circuit;               (* [begin_circuits () ..] *)
  nl_device_abstracts : list cell_index_type (* [cell_index ()] of [begin_device_abstracts () ..] *)
}.

(** [circuit_by_cell_index] *)
Definition circuit_by_cell_index (nl : Netlist) (ci : cell_index_type) : option Circuit :=
  List.find (fun c => Nat.eqb (c_cell_index c) ci) (nl_circuits nl).

(** [device_abstract_by_cell_index], as the null test the callers make *)
Definition device_abstract_by_cell_index (nl : Netlist) (ci : cell_index_type) : bool :=
  existsb (Nat.eqb ci) (nl_device_abstracts nl).

(** A heap-allocated netlist: its address and its contents.  [mp_netlist]
    owns at most one. *)
Record NetlistObj : Type := mkNetlistObj {
  obj_addr : nat;
  obj_data : Netlist
}.

(** ** Connectivity *)

(** Modelled from the spec: [db::Connectivity] is declared elsewhere.  The
    layer pairs declared connected (a layer with itself for intra-layer
    connectivity), the layers tied to global nets, and the global net names,
    whose position is the dense global net id. *)
Record Connectivity : Type := mkConnectivity {
  conn_edges : gset (nat * nat);
  conn_global : gset (nat * nat);
  conn_global_names : list string
}.

Definition conn_empty : Connectivity := mkConnectivity ∅ ∅ [].

Definition conn_connect (c : Connectivity) (l : nat) : Connectivity :=
  mkConnectivity ({[ (l, l) ]} ∪ conn_edges c) (conn_global c) (conn_global_names c).

Definition conn_connect2 (c : Connectivity) (a b : nat) : Connectivity :=
  mkConnectivity ({[ (a, b); (b, a) ]} ∪ conn_edges c) (conn_global c) (conn_global_names c).

Fixpoint index_of (n : string) (names : list string) : option nat :=
  match names with
  | [] => None
  | x :: names' => if String.eqb x n then Some 0 else S <$> index_of n names'
  end.

(** [global_net_id (name)]: allocates a new id for a new name *)
Definition conn_global_net_id (c : Connectivity) (gn : string) : Connectivity * nat :=
  match index_of gn (conn_global_names c) with
  | Some id => (c, id)
  | None => (mkConnectivity (conn_edges c) (conn_global c) (conn_global_names c ++ [gn]),
             length (conn_global_names c))
  end.

Definition conn_connect_global (c : Connectivity) (l : nat) (gn : string) : Connectivity * nat :=
  let '(c', id) := conn_global_net_id c gn in
  (mkConnectivity (conn_edges c') ({[ (l, id) ]} ∪ conn_global c') (conn_global_names c'), id).

(** [global_net_name (id)] *)
Definition conn_global_net_name (c : Connectivity) (id : nat) : string :=
  default EmptyString (conn_global_names c !! id).

(** ** Hierarchical clusters *)

(** [db::ClusterInstance] *)
Record ClusterInstance : Type := mkClusterInstance {
  inst_cell_index : cell_index_type;
  cl_id : nat;                               (* [id ()] *)
  inst_trans : ICplxTrans
}.

(** The probe's test cluster: one box on one layer. *)
Record TestCluster : Type := mkTestCluster {
  tc_box : Box;
  tc_layer : nat
}.

(** [db::local_cluster<db::PolygonRef>] as the probe sees it *)
Record local_cluster : Type := mkLocalCluster {
  lc_id : nat;
  lc_interacts : TestCluster -> ICplxTrans -> Connectivity -> bool
}.

(** [db::hier_clusters<db::PolygonRef>] through the queries this file makes *)
Record hier_clusters : Type := mkHierClusters {
  (** [clusters_per_cell (ci).connections_for_cluster (cid)] *)
  connections_for_cluster : cell_index_type -> nat -> list ClusterInstance;
  (** [clusters_per_cell (ci).cluster_by_id (cid).begin (layer)] *)
  cluster_shapes : cell_index_type -> nat -> nat -> list PolygonRef;
  (** [clusters_per_cell (ci).begin_touching (box)] *)
  clusters_touching : cell_index_type -> Box -> list local_cluster
}.

Definition hier_clusters_empty : hier_clusters :=
  mkHierClusters (fun _ _ => []) (fun _ _ _ => []) (fun _ _ => []).

(** ** The internal layout and the deep shape store *)

(** [db::InstElement]: one member of an instance array *)
Record InstElement : Type := mkInstElement {
  ie_cell_index : cell_index_type;           (* [inst_ptr.cell_index ()] *)
  ie_complex_trans : ICplxTrans              (* [complex_trans ()] *)
}.

(** An instance array of a cell: the child cell and, for a box, the
    members touching it ([begin_touching (box, layout)]). *)
Record Instance : Type := mkInstance {
  ia_cell_index : cell_index_type;
  ia_touching : Box -> list ICplxTrans
}.

Record InternalLayout : Type := mkInternalLayout {
  il_dbu : dbl;                                          (* [dbu ()] *)
  il_cell_name : cell_index_type -> string;              (* [cell_name (ci)] *)
  il_top_cell : cell_index_type;                         (* the initial cell *)
  il_touching : cell_index_type -> Box -> list Instance  (* [cell (ci).begin_touching (box)] *)
}.

Inductive ShapeFlags : Type := SfNothing | SfAll | SfTexts | SfPolygons.

Record RecursiveShapeIterator : Type := mkRecursiveShapeIterator {
  si_has_complex_region : bool;
  si_region_is_world : bool;
  si_layer : option nat;
  si_shape_flags : ShapeFlags
}.

Definition si_default : RecursiveShapeIterator :=
  mkRecursiveShapeIterator false true None SfAll.

Record DeepShapeStore : Type := mkDeepShapeStore {
  dss_threads : Z;
  dss_max_area_ratio : option dbl;
  dss_max_vertex_count : nat;
  dss_text_enlargement : Z;
  dss_text_property_name : option string;
  dss_layouts : nat;                          (* [layouts ()] *)
  dss_next_layer : nat;
  dss_layout : InternalLayout                 (* [layout ()] *)
}.

(** Modelled from the spec: [create_polygon_layer (source_iter)] of the deep
    layer store returns a handle on a new layer of the shared internal
    layout. *)
Definition dss_create_polygon_layer (dss : DeepShapeStore) (si : RecursiveShapeIterator)
  : DeepShapeStore * DeepLayer :=
  (mkDeepShapeStore (dss_threads dss) (dss_max_area_ratio dss) (dss_max_vertex_count dss)
     (dss_text_enlargement dss) (dss_text_property_name dss)
     (Nat.max 1 (dss_layouts dss)) (S (dss_next_layer dss)) (dss_layout dss),
   mkDeepLayer 0 (dss_next_layer dss)).

(** ** The facade *)

(** What an external extractor leaves behind: the store, the netlist and
    the clusters as it modified them, and the exception it ended with, if
    any. *)
Record Extracted : Type := mkExtracted {
  ex_dss : DeepShapeStore;
  ex_netlist : Netlist;
  ex_clusters : hier_clusters;
  ex_error : option exn
}.

(** [db::NetlistDeviceExtractor::extract (dss, layers, netlist, clusters)] *)
Definition NetlistDeviceExtractor : Type :=
  DeepShapeStore -> list (string * Region) -> Netlist -> hier_clusters -> Extracted.

(** [db::NetlistExtractor::extract_nets (dss, conn, netlist, clusters, join_nets_by_label)] *)
Definition NetlistExtractor : Type :=
  DeepShapeStore -> Connectivity -> Netlist -> hier_clusters -> bool -> Extracted.

Record LayoutToNetlist : Type := mkLayoutToNetlist {
  m_iter : RecursiveShapeIterator;
  m_dss : DeepShapeStore;
  m_conn : Connectivity;
  m_net_clusters : hier_clusters;
  mp_netlist : option NetlistObj;
  m_dlrefs : gset DeepLayer;
  m_named_regions : gmap string DeepLayer;
  m_name_of_layer : gmap nat string;
  m_netlist_extracted : bool;
  m_dummy_layer : option DeepLayer;
  (** the next free address of the allocator behind [new db::Netlist ()] *)
  heap_next : nat
}.

Definition with_dss (d : DeepShapeStore) (s : LayoutToNetlist) : LayoutToNetlist :=
  mkLayoutToNetlist (m_iter s) d (m_conn s) (m_net_clusters s) (mp_netlist s) (m_dlrefs s)
    (m_named_regions s) (m_name_of_layer s) (m_netlist_extracted s) (m_dummy_layer s) (heap_next s).

Definition with_conn (c : Connectivity) (s : LayoutToNetlist) : LayoutToNetlist :=
  mkLayoutToNetlist (m_iter s) (m_dss s) c (m_net_clusters s) (mp_netlist s) (m_dlrefs s)
    (m_named_regions s) (m_name_of_layer s) (m_netlist_extracted s) (m_dummy_layer s) (heap_next s).

Definition with_net_clusters (h : hier_clusters) (s : LayoutToNetlist) : LayoutToNetlist :=
  mkLayoutToNetlist (m_iter s) (m_dss s) (m_conn s) h (mp_netlist s) (m_dlrefs s)
    (m_named_regions s) (m_name_of_layer s) (m_netlist_extracted s) (m_dummy_layer s) (heap_next s).

Definition with_netlist (n : option NetlistObj) (s : LayoutToNetlist) : LayoutToNetlist :=
  mkLayoutToNetlist (m_iter s) (m_dss s) (m_conn s) (m_net_clusters s) n (m_dlrefs s)
    (m_named_regions s) (m_name_of_layer s) (m_netlist_extracted s) (m_dummy_layer s) (heap_next s).

Definition with_dlrefs (r : gset DeepLayer) (s : LayoutToNetlist) : LayoutToNetlist :=
  mkLayoutToNetlist (m_iter s) (m_dss s) (m_conn s) (m_net_clusters s) (mp_netlist s) r
    (m_named_regions s) (m_name_of_layer s) (m_netlist_extracted s) (m_dummy_layer s) (heap_next s).

Definition with_named_regions (r : gmap string DeepLayer) (s : LayoutToNetlist) : LayoutToNetlist :=
  mkLayoutToNetlist (m_iter s) (m_dss s) (m_conn s) (m_net_clusters s) (mp_netlist s) (m_dlrefs s)
    r (m_name_of_layer s) (m_netlist_extracted s) (m_dummy_layer s) (heap_next s).

Definition with_name_of_layer (r : gmap nat string) (s : LayoutToNetlist) : LayoutToNetlist :=
  mkLayoutToNetlist (m_iter s) (m_dss s) (m_conn s) (m_net_clusters s) (mp_netlist s) (m_dlrefs s)
    (m_named_regions s) r (m_netlist_extracted s) (m_dummy_layer s) (heap_next s).

Definition with_netlist_extracted (b : bool) (s : LayoutToNetlist) : LayoutToNetlist :=
  mkLayoutToNetlist (m_iter s) (m_dss s) (m_conn s) (m_net_clusters s) (mp_netlist s) (m_dlrefs s)
    (m_named_regions s) (m_name_of_layer s) b (m_dummy_layer s) (heap_next s).

Definition with_dummy_layer (d : option DeepLayer) (s : LayoutToNetlist) : LayoutToNetlist :=
  mkLayoutToNetlist (m_iter s) (m_dss s) (m_conn s) (m_net_clusters s) (mp_netlist s) (m_dlrefs s)
    (m_named_regions s) (m_name_of_layer s) (m_netlist_extracted s) d (heap_next s).

Definition with_heap_next (n : nat) (s : LayoutToNetlist) : LayoutToNetlist :=
  mkLayoutToNetlist (m_iter s) (m_dss s) (m_conn s) (m_net_clusters s) (mp_netlist s) (m_dlrefs s)
    (m_named_regions s) (m_name_of_layer s) (m_netlist_extracted s) (m_dummy_layer s) n.

Definition L2N (A : Type) : Type := M LayoutToNetlist A.

(** [init]: the text settings of the store *)
Definition init (dss : DeepShapeStore) : DeepShapeStore :=
  mkDeepShapeStore (dss_threads dss) (dss_max_area_ratio dss) (dss_max_vertex_count dss)
    1 (Some "LABEL") (dss_layouts dss) (dss_next_layer dss) (dss_layout dss).

(** The members as the initialiser list and [init] leave them.  [dss] is the
    default-constructed store. *)
Definition fresh (iter : RecursiveShapeIterator) (dss : DeepShapeStore) : LayoutToNetlist :=
  mkLayoutToNetlist iter (init dss) conn_empty hier_clusters_empty None ∅ ∅ ∅ false None 0.

(** [LayoutToNetlist (const db::RecursiveShapeIterator &iter)] *)
Definition LayoutToNetlist_of_iter (iter : RecursiveShapeIterator) (dss : DeepShapeStore)
  : exn + LayoutToNetlist :=
  if si_has_complex_region iter || negb (si_region_is_world iter)
  then inl (Exception msg_clipped)
  else inr (fresh iter dss).

(** [LayoutToNetlist ()] *)
Definition LayoutToNetlist_default (dss : DeepShapeStore) : LayoutToNetlist :=
  fresh si_default dss.

(** [set_threads] *)
Definition set_threads (n : Z) : L2N unit :=
  modify (fun s => with_dss
    (let d := m_dss s in
     mkDeepShapeStore n (dss_max_area_ratio d) (dss_max_vertex_count d)
       (dss_text_enlargement d) (dss_text_property_name d) (dss_layouts d)
       (dss_next_layer d) (dss_layout d)) s).

(** [threads] *)
Definition threads (s : LayoutToNetlist) : Z := dss_threads (m_dss s).

(** [set_area_ratio] *)
Definition set_area_ratio (ar : dbl) : L2N unit :=
  modify (fun s => with_dss
    (let d := m_dss s in
     mkDeepShapeStore (dss_threads d) (Some ar) (dss_max_vertex_count d)
       (dss_text_enlargement d) (dss_text_property_name d) (dss_layouts d)
       (dss_next_layer d) (dss_layout d)) s).

(** [set_max_vertex_count] *)
Definition set_max_vertex_count (n : nat) : L2N unit :=
  modify (fun s => with_dss
    (let d := m_dss s in
     mkDeepShapeStore (dss_threads d) (dss_max_area_ratio d) n
       (dss_text_enlargement d) (dss_text_property_name d) (dss_layouts d)
       (dss_next_layer d) (dss_layout d)) s).

(** [layer_of]: needs no member of the facade, so it runs in any state. *)
Definition layer_of {S} (region : Region) : M S nat :=
  match region with
  | DeepRegion dr => ret (dl_layer dr)
  | FlatRegion => throw (Exception msg_non_hier)
  end.

(** [name (const db::Region &)] *)
Definition name (region : Region) : L2N string :=
  l <- layer_of region ;;
  s <- get ;;
  match m_name_of_layer s !! l with
  | Some n => ret n
  | None => ret EmptyString
  end.

(** [name (unsigned int)] *)
Definition name_of_index (s : LayoutToNetlist) (l : nat) : string :=
  match m_name_of_layer s !! l with
  | Some n => n
  | None => EmptyString
  end.

(** [is_persisted] *)
Definition is_persisted (region : Region) : L2N bool :=
  l <- layer_of region ;;
  s <- get ;;
  ret (bool_decide (is_Some (m_name_of_layer s !! l))).

(** [register_layer] *)
Definition register_layer (region : Region) (n : string) : L2N unit :=
  s <- get ;;
  if bool_decide (is_Some (m_named_regions s !! n))
  then throw (Exception (msg_name_used +:+ n))
  else
    match region with
    | FlatRegion => throw (Exception msg_not_deep_region)
    | DeepRegion delegate =>
        persisted <- is_persisted region ;;
        (if persisted : bool
         then prev_name <- name region ;;
              modify (fun s => with_named_regions (delete prev_name (m_named_regions s)) s)
         else ret tt) ;;;
        modify (fun s => with_named_regions (<[n := delegate]> (m_named_regions s)) s) ;;;
        l <- layer_of region ;;
        modify (fun s => with_name_of_layer (<[l := n]> (m_name_of_layer s)) s)
    end.

(** [new db::Region (si, m_dss)]: a deep region on a new layer of the store *)
Definition new_region (si : RecursiveShapeIterator) : L2N Region :=
  s <- get ;;
  let '(dss, dl) := dss_create_polygon_layer (m_dss s) si in
  put (with_dss dss s) ;;;
  ret (DeepRegion dl).

Definition make_layer_with (layer : option nat) (flags : ShapeFlags) (n : string) : L2N Region :=
  s <- get ;;
  let si := mkRecursiveShapeIterator (si_has_complex_region (m_iter s))
              (si_region_is_world (m_iter s))
              (match layer with Some l => Some l | None => si_layer (m_iter s) end) flags in
  region <- new_region si ;;
  (if bool_decide (n = EmptyString) then ret tt else register_layer region n) ;;;
  ret region.

(** [make_layer (const std::string &)] *)
Definition make_layer (n : string) : L2N Region := make_layer_with None SfNothing n.
(** [make_layer (unsigned int, const std::string &)] *)
Definition make_layer_of (layer_index : nat) (n : string) : L2N Region :=
  make_layer_with (Some layer_index) SfAll n.
(** [make_text_layer] *)
Definition make_text_layer (layer_index : nat) (n : string) : L2N Region :=
  make_layer_with (Some layer_index) SfTexts n.
(** [make_polygon_layer] *)
Definition make_polygon_layer (layer_index : nat) (n : string) : L2N Region :=
  make_layer_with (Some layer_index) SfPolygons n.

(** [if (! mp_netlist.get ()) mp_netlist.reset (new db::Netlist ())] *)
Definition ensure_netlist : L2N NetlistObj :=
  s <- get ;;
  match mp_netlist s with
  | Some nl => ret nl
  | None =>
      let nl := mkNetlistObj (heap_next s) (mkNetlist [] []) in
      put (with_heap_next (S (heap_next s)) (with_netlist (Some nl) s)) ;;;
      ret nl
  end.

(** Writes back what an extractor did through its reference arguments and
    rethrows its exception. *)
Definition commit_extracted (addr : nat) (r : Extracted) : L2N unit :=
  modify (fun s => with_net_clusters (ex_clusters r)
                     (with_netlist (Some (mkNetlistObj addr (ex_netlist r)))
                        (with_dss (ex_dss r) s))) ;;;
  match ex_error r with
  | Some e => throw e
  | None => ret tt
  end.

(** [extract_devices] *)
Definition extract_devices (extractor : NetlistDeviceExtractor) (layers : list (string * Region))
  : L2N unit :=
  s <- get ;;
  if m_netlist_extracted s
  then throw (Exception msg_already_extracted)
  else
    nl <- ensure_netlist ;;
    s <- get ;;
    commit_extracted (obj_addr nl)
      (extractor (m_dss s) layers (obj_data nl) (m_net_clusters s)).

(** [connect (const db::Region &)] *)
Definition connect (l : Region) : L2N unit :=
  s <- get ;;
  if m_netlist_extracted s
  then throw (Exception msg_already_extracted)
  else
    match l with
    | FlatRegion => throw (Exception msg_intra_non_hier)
    | DeepRegion dl =>
        persisted <- is_persisted l ;;
        if negb persisted
        then throw (Exception msg_intra_unnamed)
        else
          modify (fun s => with_dlrefs ({[ dl ]} ∪ m_dlrefs s) s) ;;;
          modify (fun s => with_conn (conn_connect (m_conn s) (dl_layer dl)) s)
    end.

(** [connect (const db::Region &, const db::Region &)] *)
Definition connect2 (a b : Region) : L2N unit :=
  s <- get ;;
  if m_netlist_extracted s
  then throw (Exception msg_already_extracted)
  else
    match a, b with
    | FlatRegion, _ => throw (Exception msg_inter_non_hier_1)
    | DeepRegion _, FlatRegion => throw (Exception msg_inter_non_hier_2)
    | DeepRegion dla, DeepRegion dlb =>
        pa <- is_persisted a ;;
        if negb pa
        then throw (Exception msg_inter_unnamed_1)
        else
          pb <- is_persisted b ;;
          if negb pb
          then throw (Exception msg_inter_unnamed_2)
          else
            modify (fun s => with_dlrefs ({[ dla ]} ∪ m_dlrefs s) s) ;;;
            modify (fun s => with_dlrefs ({[ dlb ]} ∪ m_dlrefs s) s) ;;;
            modify (fun s => with_conn (conn_connect2 (m_conn s) (dl_layer dla) (dl_layer dlb)) s)
    end.

(** [connect_global] *)
Definition connect_global (l : Region) (gn : string) : L2N nat :=
  s <- get ;;
  if m_netlist_extracted s
  then throw (Exception msg_already_extracted)
  else
    match l with
    | FlatRegion => throw (Exception msg_global_non_hier)
    | DeepRegion dl =>
        persisted <- is_persisted l ;;
        if negb persisted
        then throw (Exception msg_global_unnamed)
        else
          modify (fun s => with_dlrefs ({[ dl ]} ∪ m_dlrefs s) s) ;;;
          s <- get ;;
          let '(c, id) := conn_connect_global (m_conn s) (dl_layer dl) gn in
          put (with_conn c s) ;;;
          ret id
    end.

(** [global_net_name] *)
Definition global_net_name (s : LayoutToNetlist) (id : nat) : string :=
  conn_global_net_name (m_conn s) id.

(** [global_net_id] *)
Definition global_net_id (gn : string) : L2N nat :=
  s <- get ;;
  let '(c, id) := conn_global_net_id (m_conn s) gn in
  put (with_conn c s) ;;;
  ret id.

(** [extract_netlist]; [netex] is the [db::NetlistExtractor] the method
    instantiates. *)
Definition extract_netlist (netex : NetlistExtractor) (join_nets_by_label : bool) : L2N unit :=
  s <- get ;;
  if m_netlist_extracted s
  then throw (Exception msg_already_extracted)
  else
    nl <- ensure_netlist ;;
    s <- get ;;
    commit_extracted (obj_addr nl)
      (netex (m_dss s) (m_conn s) (obj_data nl) (m_net_clusters s) join_nets_by_label) ;;;
    modify (with_netlist_extracted true).

(** [set_netlist_extracted] *)
Definition set_netlist_extracted : L2N unit :=
  modify (with_netlist_extracted true).

(** [internal_layout] *)
Definition internal_layout (s : LayoutToNetlist) : InternalLayout := dss_layout (m_dss s).

(** [internal_top_cell], as its cell index *)
Definition internal_top_cell (s : LayoutToNetlist) : cell_index_type :=
  il_top_cell (internal_layout s).

(** [ensure_internal_layout] *)
Definition ensure_internal_layout : L2N unit :=
  s <- get ;;
  if Nat.eqb (dss_layouts (m_dss s)) 0
  then
    let '(dss, dl) := dss_create_polygon_layer (m_dss s) si_default in
    put (with_dummy_layer (Some dl) (with_dss dss s))
  else ret tt.

(** [layer_by_name]: the new region, or [None] for the null pointer *)
Definition layer_by_name (s : LayoutToNetlist) (n : string) : option Region :=
  match m_named_regions s !! n with
  | None => None
  | Some l => Some (DeepRegion l)
  end.

(** [layer_by_index] *)
Definition layer_by_index (s : LayoutToNetlist) (index : nat) : option Region :=
  match m_name_of_layer s !! index with
  | None => None
  | Some n => layer_by_name s n
  end.

(** [netlist]: the pointer held by [mp_netlist] *)
Definition netlist (s : LayoutToNetlist) : option NetlistObj := mp_netlist s.

(** [make_netlist] *)
Definition make_netlist : L2N NetlistObj := ensure_netlist.

(** ** Shape delivery *)

(** Modelled from the spec: [db::recursive_cluster_shape_iterator] is
    declared elsewhere.  It walks the cluster graph depth-first over the
    connections, starting at cluster [cid] of cell [ci] with the identity
    transformation and carrying the running transformation; it stops at
    every shape of the requested layer, and [skip_cell] advances past all
    entries under the cell of the current shape.  [cluster_tree] unfolds the
    part of the graph the iterator walks; the fuel bounds the depth of the
    (acyclic) cell hierarchy. *)
Inductive ctree : Type :=
| CNode (ci : cell_index_type) (tr : ICplxTrans) (shapes : list PolygonRef)
        (children : list ctree).

Fixpoint cluster_tree (fuel : nat) (hc : hier_clusters) (layer : nat)
    (ci : cell_index_type) (cid : nat) (tr : ICplxTrans) : option ctree :=
  match fuel with
  | 0 => None
  | S fuel' =>
      children ← mapM (fun c => cluster_tree fuel' hc layer (inst_cell_index c) (cl_id c)
                                  (itrans_mul tr (inst_trans c)))
                      (connections_for_cluster hc ci cid);
      Some (CNode ci tr (cluster_shapes hc ci cid layer) children)
  end.

(** One position of the iterator: the shape, its cell ([cell_index ()]),
    the running transformation ([trans ()]) and the number of positions
    after this one that still lie under that cell. *)
Record rcs_entry : Type := mkEntry {
  e_cell_index : cell_index_type;
  e_trans : ICplxTrans;
  e_shape : PolygonRef;
  e_under : nat
}.

Fixpoint own_entries (ci : cell_index_type) (tr : ICplxTrans) (shapes : list PolygonRef)
    (below : nat) : list rcs_entry :=
  match shapes with
  | [] => []
  | s :: shapes' => mkEntry ci tr s (length shapes' + below) :: own_entries ci tr shapes' below
  end.

Fixpoint entries_of (t : ctree) : list rcs_entry :=
  match t with
  | CNode ci tr shapes children =>
      let sub := flat_map entries_of children in
      own_entries ci tr shapes (length sub) ++ sub
  end.

(** The iterator as the positions it still has to visit. *)
Definition rcs_iterator : Type := list rcs_entry.

(** [recursive_cluster_shape_iterator (clusters, layer_id, ci, cid)] *)
Definition rcs_begin (fuel : nat) (hc : hier_clusters) (layer : nat)
    (ci : cell_index_type) (cid : nat) : option rcs_iterator :=
  entries_of <$> cluster_tree fuel hc layer ci cid itrans_unit.

(** [++rci] *)
Definition rcs_next (rci : rcs_iterator) : rcs_iterator := tail rci.

(** [rci.skip_cell ()] *)
Definition rcs_skip_cell (rci : rcs_iterator) : rcs_iterator :=
  match rci with
  | [] => []
  | e :: rest => drop (e_under e) rest
  end.

(** [deliver_shapes_of_net_recursive], on the iterator *)
Fixpoint deliver_recursive_loop {To} `{DeliverTo To} (tr : ICplxTrans)
    (rci : rcs_iterator) (to : To) : To * bool :=
  match rci with
  | [] => (to, true)
  | e :: rci' =>
      let '(to', ok) := deliver_shape (e_shape e) to (itrans_mul tr (e_trans e)) in
      if ok then deliver_recursive_loop tr rci' to' else (to', false)
  end.

(** [! nl || nl->circuit_by_cell_index (cci) || nl->device_abstract_by_cell_index (cci)] *)
Definition cell_is_kept (nl : option Netlist) (cci : cell_index_type) : bool :=
  match nl with
  | None => true
  | Some nl => bool_decide (is_Some (circuit_by_cell_index nl cci))
               || device_abstract_by_cell_index nl cci
  end.

(** The loop of [deliver_shapes_of_net_nonrecursive].  Every turn consumes at
    least one position, so [length rci] turns are enough. *)
Fixpoint deliver_nonrecursive_loop {To} `{DeliverTo To} (turns : nat) (nl : option Netlist)
    (ci : cell_index_type) (tr : ICplxTrans) (prev_ci : cell_index_type)
    (rci : rcs_iterator) (to : To) : option (To * bool) :=
  match rci with
  | [] => Some (to, true)
  | e :: _ =>
      match turns with
      | 0 => None
      | S turns' =>
          let cci := e_cell_index e in
          if negb (Nat.eqb cci prev_ci) && negb (Nat.eqb cci ci) && cell_is_kept nl cci
          then deliver_nonrecursive_loop turns' nl ci tr prev_ci (rcs_skip_cell rci) to
          else
            let '(to', ok) := deliver_shape (e_shape e) to (itrans_mul tr (e_trans e)) in
            if ok
            then deliver_nonrecursive_loop turns' nl ci tr cci (rcs_next rci) to'
            else Some (to', false)
      end
  end.

(** [deliver_shapes_of_net_recursive] *)
Definition deliver_shapes_of_net_recursive {To} `{DeliverTo To} (fuel : nat)
    (nl : option Netlist) (clusters : hier_clusters) (ci : cell_index_type) (cid : nat)
    (layer_id : nat) (tr : ICplxTrans) (to : To) : option (To * bool) :=
  rci ← rcs_begin fuel clusters layer_id ci cid;
  Some (deliver_recursive_loop tr rci to).

(** [deliver_shapes_of_net_nonrecursive] *)
Definition deliver_shapes_of_net_nonrecursive {To} `{DeliverTo To} (fuel : nat)
    (nl : option Netlist) (clusters : hier_clusters) (ci : cell_index_type) (cid : nat)
    (layer_id : nat) (tr : ICplxTrans) (to : To) : option (To * bool) :=
  rci ← rcs_begin fuel clusters layer_id ci cid;
  deliver_nonrecursive_loop (length rci) nl ci tr ci rci to.

(** A step that needs fuel, run inside [M]. *)
Definition with_fuel {S A} (r : option A) : M S A :=
  match r with
  | Some a => ret a
  | None => out_of_fuel
  end.

(** [tl_assert (c)] *)
Definition tl_assert {S} (c : bool) : M S unit :=
  if c then ret tt else throw InternalException.

(** The netlist [mp_netlist.get ()] points to. *)
Definition netlist_data (s : LayoutToNetlist) : option Netlist :=
  obj_data <$> mp_netlist s.

(** Both overloads of [shapes_of_net]; the target is the state. *)
Definition shapes_of_net_to {To} `{DeliverTo To} (fuel : nat) (self : LayoutToNetlist)
    (net : Net) (of_layer : Region) (recursive : bool) : M To unit :=
  lid <- layer_of of_layer ;;
  tl_assert (bool_decide (is_Some (net_circuit net))) ;;;
  match net_circuit net with
  | None => throw NullPointer
  | Some ci =>
      to <- get ;;
      r <- with_fuel
             (if recursive
              then deliver_shapes_of_net_recursive fuel (netlist_data self)
                     (m_net_clusters self) ci (net_cluster_id net) lid itrans_unit to
              else deliver_shapes_of_net_nonrecursive fuel (netlist_data self)
                     (m_net_clusters self) ci (net_cluster_id net) lid itrans_unit to) ;;
      put r.1
  end.

(** [shapes_of_net (net, of_layer, recursive, to)] *)
Definition shapes_of_net (fuel : nat) (self : LayoutToNetlist) (net : Net)
    (of_layer : Region) (recursive : bool) : M Shapes unit :=
  shapes_of_net_to fuel self net of_layer recursive.

(** [shapes_of_net (net, of_layer, recursive)], returning a new region *)
Definition shapes_of_net_region (fuel : nat) (self : LayoutToNetlist) (net : Net)
    (of_layer : Region) (recursive : bool) : outcome RegionTarget unit :=
  shapes_of_net_to fuel self net of_layer recursive ([] : RegionTarget).

(** ** The target layout of a hierarchy rebuild *)

(** [db::CellInstArray (db::CellInst (ci), t)] *)
Record CellInstArray : Type := mkCellInstArray {
  cia_cell_index : cell_index_type;
  cia_trans : ICplxTrans
}.

Record Cell : Type := mkCell {
  cell_name : string;
  cell_shapes : gmap nat (list Shape);       (* [shapes (layer)] *)
  cell_insts : list CellInstArray
}.

(** The target [db::Layout]; a cell's index is its position.  [add_cell]
    records the name it was asked for. *)
Record Layout : Type := mkLayout {
  lay_cells : list Cell;
  lay_dbu : dbl
}.

(** The memo of [build_net_rec]: [None] stands for the marker
    [std::numeric_limits<db::cell_index_type>::max ()]. *)
Record BuildState : Type := mkBuildState {
  bs_target : Layout;
  bs_cmap : gmap (cell_index_type * nat) (option cell_index_type)
}.

Definition Build (A : Type) : Type := M BuildState A.

(** [target.add_cell (name)] *)
Definition add_cell (nm : string) : Build cell_index_type :=
  st <- get ;;
  let t := bs_target st in
  put (mkBuildState (mkLayout (lay_cells t ++ [mkCell nm ∅ []]) (lay_dbu t)) (bs_cmap st)) ;;;
  ret (length (lay_cells t)).

Definition cell_add_inst (i : CellInstArray) (c : Cell) : Cell :=
  mkCell (cell_name c) (cell_shapes c) (cell_insts c ++ [i]).

Definition cell_set_shapes (layer : nat) (shs : list Shape) (c : Cell) : Cell :=
  mkCell (cell_name c) (<[layer := shs]> (cell_shapes c)) (cell_insts c).

Definition alter_cell (f : Cell -> Cell) (ci : cell_index_type) (st : BuildState) : BuildState :=
  mkBuildState (mkLayout (alter f ci (lay_cells (bs_target st))) (lay_dbu (bs_target st)))
               (bs_cmap st).

(** [cell.insert (inst)] on the cell with index [ci] *)
Definition insert_inst (ci : cell_index_type) (i : CellInstArray) : Build unit :=
  modify (alter_cell (cell_add_inst i) ci).

(** [cell.shapes (layer)] of the cell with index [ci] *)
Definition shapes_of_cell (st : BuildState) (ci : cell_index_type) (layer : nat) : Shapes :=
  mkShapes true
    (default [] (c ← lay_cells (bs_target st) !! ci; cell_shapes c !! layer)).

Definition cmap_insert (k : cell_index_type * nat) (v : option cell_index_type)
    (st : BuildState) : BuildState :=
  mkBuildState (bs_target st) (<[k := v]> (bs_cmap st)).

(** The layer map [std::map<unsigned int, const db::Region *>], in key order;
    [None] is a null region pointer. *)
Definition layer_map : Type := list (nat * option Region).

Section BuildNet.
Variable self : LayoutToNetlist.
Variable lmap : layer_map.

(** The first loop of [build_net_rec]: does any mapped layer deliver a shape? *)
Fixpoint consider_cell_loop (fuel : nat) (ci : cell_index_type) (cid : nat)
    (tr : ICplxTrans) (ls : layer_map) : Build bool :=
  match ls with
  | [] => ret false
  | (_, None) :: ls' => consider_cell_loop fuel ci cid tr ls'
  | (_, Some region) :: ls' =>
      lid <- layer_of region ;;
      r <- with_fuel (deliver_shapes_of_net_nonrecursive fuel (netlist_data self)
                        (m_net_clusters self) ci cid lid tr StopOnFirst_v) ;;
      if negb r.2 then ret true else consider_cell_loop fuel ci cid tr ls'
  end.

(** The second loop: deliver the shapes of every mapped layer into the
    target cell. *)
Definition deliver_layers (fuel : nat) (ci : cell_index_type) (cid : nat)
    (tr : ICplxTrans) (target_cell : cell_index_type) : Build unit :=
  for_each lmap (fun l =>
    match l.2 with
    | None => ret tt
    | Some region =>
        lid <- layer_of region ;;
        st <- get ;;
        r <- with_fuel (deliver_shapes_of_net_nonrecursive fuel (netlist_data self)
                          (m_net_clusters self) ci cid lid tr
                          (shapes_of_cell st target_cell l.1)) ;;
        modify (alter_cell (cell_set_shapes l.1 (sh_items r.1)) target_cell)
    end).

(** The body of the loop of [build_net_rec] over the connections of the
    cluster: the target cell of the child cluster is looked up in [cmap] or
    made and filled by the recursive call [recurse], and then placed into
    [target_cell]. *)
Definition place_child
    (recurse : cell_index_type -> nat -> cell_index_type -> ICplxTrans -> Build unit)
    (target_cell : cell_index_type)
    (circuit_cell_name_prefix device_cell_name_prefix : option string)
    (tr : ICplxTrans) (c : ClusterInstance) : Build unit :=
  let tr_wo_mag := itrans_mul tr (itrans_of_mag (dbl_div dbl_one (itrans_mag tr))) in
  let tr_mag := itrans_of_mag (itrans_mag tr) in
  let subci := inst_cell_index c in
  let subcid := cl_id c in
  st <- get ;;
  cm <-
    match bs_cmap st !! (subci, subcid) with
    | Some v => ret v
    | None =>
        name_prefix <-
          match netlist_data self with
          | None => throw NullPointer
          | Some nl =>
              ret (if device_abstract_by_cell_index nl subci
                   then device_cell_name_prefix
                   else circuit_cell_name_prefix)
          end ;;
        match name_prefix with
        | Some np =>
            target_ci <- add_cell (np +:+ il_cell_name (internal_layout self) subci) ;;
            modify (cmap_insert (subci, subcid) (Some target_ci)) ;;;
            recurse subci subcid target_ci tr_mag ;;;
            ret (Some target_ci)
        | None =>
            modify (cmap_insert (subci, subcid) None) ;;;
            ret None
        end
    end ;;
  match cm with
  | Some idx =>
      insert_inst target_cell
        (mkCellInstArray idx
           (itrans_transform_into tr_mag (itrans_mul tr_wo_mag (inst_trans c))))
  | None => ret tt
  end.

(** [build_net_rec (ci, cid, target, tc, lmap, net, net_cell_name_prefix,
    circuit_cell_name_prefix, device_cell_name_prefix, cmap, tr)].  The
    target layout and [cmap] are the state; [tc] is the index of the cell
    the reference [tc] denotes. *)
Fixpoint build_net_rec (fuel : nat) (ci : cell_index_type) (cid : nat)
    (tc : cell_index_type) (net : option Net)
    (net_cell_name_prefix circuit_cell_name_prefix device_cell_name_prefix : option string)
    (tr : ICplxTrans) : Build unit :=
  match fuel with
  | 0 => out_of_fuel
  | S fuel' =>
      target_cell <-
        match net_cell_name_prefix with
        | None => ret (Some tc)
        | Some prefix =>
            let ccl := connections_for_cluster (m_net_clusters self) ci cid in
            let any_connections :=
              bool_decide (is_Some circuit_cell_name_prefix) && negb (bool_decide (ccl = [])) in
            consider_cell <-
              (if any_connections then ret true
               else consider_cell_loop fuel' ci cid tr lmap) ;;
            if negb consider_cell
            then ret None        (* shortcut if cell is empty *)
            else
              match net with
              | None => throw NullPointer
              | Some n =>
                  idx <- add_cell (prefix +:+ net_expanded_name n) ;;
                  insert_inst tc (mkCellInstArray idx itrans_unit) ;;;
                  ret (Some idx)
              end
        end ;;
      match target_cell with
      | None => ret tt
      | Some target_cell =>
          deliver_layers fuel' ci cid tr target_cell ;;;
          if negb (bool_decide (is_Some circuit_cell_name_prefix))
             && negb (bool_decide (is_Some device_cell_name_prefix))
          then ret tt
          else
            for_each (connections_for_cluster (m_net_clusters self) ci cid)
              (place_child
                 (fun subci subcid target_ci tr_mag =>
                    build_net_rec fuel' subci subcid target_ci None None
                      circuit_cell_name_prefix device_cell_name_prefix tr_mag)
                 target_cell circuit_cell_name_prefix device_cell_name_prefix tr)
      end
  end.

(** [build_net_rec (net, target, target_cell, lmap, ...)] *)
Definition build_net_rec_net (fuel : nat) (net : Net) (target_cell : cell_index_type)
    (net_cell_name_prefix cell_name_prefix device_cell_name_prefix : option string)
    (tr : ICplxTrans) : Build unit :=
  tl_assert (bool_decide (is_Some (net_circuit net))) ;;;
  match net_circuit net with
  | None => throw NullPointer
  | Some ci =>
      build_net_rec fuel ci (net_cluster_id net) target_cell (Some net)
        net_cell_name_prefix cell_name_prefix device_cell_name_prefix tr
  end.

(** Runs a rebuild with its own, initially empty [cell_map] on the target. *)
Definition with_cell_map (m : Build unit) : M Layout unit :=
  fun target =>
    match m (mkBuildState target ∅) with
    | Done a st => Done a (bs_target st)
    | Raise e st => Raise e (bs_target st)
    | OutOfFuel => OutOfFuel
    end.

(** [build_net] *)
Definition build_net (fuel : nat) (net : Net) (target_cell : cell_index_type)
    (cell_name_prefix device_cell_name_prefix : option string) : M Layout unit :=
  if negb (m_netlist_extracted self)
  then throw (Exception msg_not_extracted)
  else
    target <- get ;;
    let mag := dbl_div (il_dbu (internal_layout self)) (lay_dbu target) in
    with_cell_map
      (build_net_rec_net fuel net target_cell None cell_name_prefix device_cell_name_prefix
         (itrans_of_mag mag)).

(** [db::CellMapping] through [has_mapping] and [cell_mapping] *)
Definition CellMapping : Type := gmap cell_index_type cell_index_type.

(** The body of the subcircuit loop of [build_all_nets]: nets of the
    referenced circuit on pins nothing is attached to from the outside. *)
Definition build_subcircuit_nets (fuel : nat) (target_ci : cell_index_type) (mag dbu : dbl)
    (net_cell_name_prefix circuit_cell_name_prefix device_cell_name_prefix : option string)
    (subcircuit : SubCircuit) : Build unit :=
  for_each (sc_ref_pins subcircuit) (fun p =>
    match sc_net_for_pin subcircuit (pin_id p) with
    | Some _ => ret tt
    | None =>
        match sc_ref_net_for_pin subcircuit (pin_id p) with
        | None => ret tt
        | Some n =>
            let tr := itrans_mul (itrans_of_mag mag) (micron_to_dbu dbu (sc_trans subcircuit)) in
            match net_cell_name_prefix with
            | Some prefix =>
                let ncn := prefix +:+ sc_expanded_name subcircuit +:+ ":" in
                build_net_rec_net fuel n target_ci (Some ncn)
                  circuit_cell_name_prefix device_cell_name_prefix tr
            | None =>
                build_net_rec_net fuel n target_ci None
                  circuit_cell_name_prefix device_cell_name_prefix tr
            end
        end
    end).

(** The body of the circuit loop of [build_all_nets]. *)
Definition build_circuit_nets (fuel : nat) (cmap : CellMapping) (mag dbu : dbl)
    (net_cell_name_prefix circuit_cell_name_prefix device_cell_name_prefix : option string)
    (c : Circuit) : Build unit :=
  match cmap !! c_cell_index c with
  | None => ret tt                       (* continue *)
  | Some target_ci =>
      let is_top_circuit := negb (c_has_parents c) in
      for_each (c_nets c) (fun n =>
        (*  exclude local nets in recursive mode *)
        if bool_decide (is_Some circuit_cell_name_prefix) && negb is_top_circuit
           && bool_decide (0 < pin_count n)
        then ret tt
        else build_net_rec_net fuel n target_ci net_cell_name_prefix
               circuit_cell_name_prefix device_cell_name_prefix (itrans_of_mag mag)) ;;;
      if bool_decide (is_Some circuit_cell_name_prefix)
      then for_each (c_subcircuits c)
             (build_subcircuit_nets fuel target_ci mag dbu net_cell_name_prefix
                circuit_cell_name_prefix device_cell_name_prefix)
      else ret tt
  end.

(** [build_all_nets] *)
Definition build_all_nets (fuel : nat) (cmap : CellMapping)
    (net_cell_name_prefix circuit_cell_name_prefix device_cell_name_prefix : option string)
  : M Layout unit :=
  if negb (m_netlist_extracted self)
  then throw (Exception msg_not_extracted)
  else
    target <- get ;;
    let mag := dbl_div (il_dbu (internal_layout self)) (lay_dbu target) in
    match netlist_data self with
    | None => throw NullPointer
    | Some netlist =>
        with_cell_map
          (for_each (nl_circuits netlist)
             (build_circuit_nets fuel cmap mag (lay_dbu target) net_cell_name_prefix
                circuit_cell_name_prefix device_cell_name_prefix))
    end.

End BuildNet.

(** ** Net probing *)

(** The loop of [search_net] over the touching local clusters. *)
Definition find_interacting (self : LayoutToNetlist) (test_cluster : TestCluster)
    (trans : ICplxTrans) (lcc : list local_cluster) : option local_cluster :=
  List.find (fun lc => lc_interacts lc test_cluster trans (m_conn self)) lcc.

(** The instance array members [search_net] visits, in iteration order. *)
Definition touching_elements (self : LayoutToNetlist) (cell : cell_index_type) (local_box : Box)
  : list InstElement :=
  flat_map (fun i => map (mkInstElement (ia_cell_index i)) (ia_touching i local_box))
           (il_touching (internal_layout self) cell local_box).

(** The loops of [search_net] over the touching instances; [search] is the
    recursive call. *)
Fixpoint search_instances
    (search : ICplxTrans -> cell_index_type -> list InstElement
              -> option (nat * list InstElement))
    (trans : ICplxTrans) (es : list InstElement) (rev_inst_path : list InstElement)
  : option (nat * list InstElement) :=
  match es with
  | [] => Some (0, rev_inst_path)
  | e :: es' =>
      let trans_inst := ie_complex_trans e in
      let t := itrans_mul (itrans_inverted trans_inst) trans in
      match search t (ie_cell_index e) rev_inst_path with
      | None => None
      | Some (cluster_id, rev_inst_path') =>
          if bool_decide (0 < cluster_id)
          then Some (cluster_id, rev_inst_path' ++ [e])
          else search_instances search trans es' rev_inst_path'
      end
  end.

(** [search_net]: the cluster id (0 for none) and the reversed instance
    path; [None] when the fuel does not cover the depth of the hierarchy. *)
Fixpoint search_net (fuel : nat) (self : LayoutToNetlist) (trans : ICplxTrans)
    (cell : cell_index_type) (test_cluster : TestCluster) (rev_inst_path : list InstElement)
  : option (nat * list InstElement) :=
  match fuel with
  | 0 => None
  | S fuel' =>
      let local_box := box_transformed trans (tc_box test_cluster) in
      match find_interacting self test_cluster trans
              (clusters_touching (m_net_clusters self) cell local_box) with
      | Some lc => Some (lc_id lc, rev_inst_path)
      | None =>
          search_instances
            (fun t cell' path => search_net fuel' self t cell' test_cluster path)
            trans (touching_elements self cell local_box) rev_inst_path
      end
  end.

(** The body of the loop of [probe_net] over [circuit->begin_refs ()]: what
    reference [r] yields for [upper_circuit] and [upper_net], if its
    transformation is [dtrans], it is owned by the circuit of cell
    [upper_ci] and its pin [pin] carries a net. *)
Definition ref_connection (nl : Netlist) (dtrans : DCplxTrans)
    (upper_ci : option cell_index_type) (pin : nat) (r : SubCircuit) : option (Circuit * Net) :=
  if dtrans_equal (sc_trans r) dtrans
  then
    match sc_circuit r ≫= (fun i => nl_circuits nl !! i) with
    | Some rc =>
        if bool_decide (Some (c_cell_index rc) = upper_ci)
        then (fun n => (rc, n)) <$> sc_net_for_pin r pin
        else None
    | None => None
    end
  else None.

(** The loop itself: it ends at the first reference that yields a net. *)
Fixpoint find_upper (nl : Netlist) (dtrans : DCplxTrans) (upper_ci : option cell_index_type)
    (pin : nat) (refs : list SubCircuit) : option (Circuit * Net) :=
  match refs with
  | [] => None
  | r :: refs' =>
      match ref_connection nl dtrans upper_ci pin r with
      | Some up => Some up
      | None => find_upper nl dtrans upper_ci pin refs'
      end
  end.

(** The [while] loop of [probe_net]; every turn shortens [inst_path]. *)
Fixpoint follow_up {S} (turns : nat) (nl : Netlist) (dbu : dbl) (circuit : Circuit) (net : Net)
    (inst_path : list InstElement) (cell_indexes : list cell_index_type) : M S Net :=
  match last inst_path, net_pins net with
  | Some back, first_pin :: _ =>
      match turns with
      | 0 => out_of_fuel
      | S turns' =>
          let cell_indexes := removelast cell_indexes in
          match pin_by_id circuit first_pin with
          | None => throw InternalException      (* tl_assert (pin != 0) *)
          | Some pin =>
              let dtrans := dbu_to_micron dbu (ie_complex_trans back) in
              match find_upper nl dtrans (last cell_indexes) (pin_id pin) (c_refs circuit) with
              | Some (upper_circuit, upper_net) =>
                  follow_up turns' nl dbu upper_circuit upper_net
                    (removelast inst_path) cell_indexes
              | None => ret net                  (* break *)
              end
          end
      end
  | _, _ => ret net
  end.

(** [probe_net (const db::Region &, const db::Point &)]; [None] is the null
    net. *)
Definition probe_net (fuel : nat) (of_region : Region) (point : Point) : L2N (option Net) :=
  self <- get ;;
  if negb (m_netlist_extracted self)
  then throw (Exception msg_not_extracted)
  else
    tl_assert (bool_decide (is_Some (mp_netlist self))) ;;;
    match netlist_data self with
    | None => throw NullPointer
    | Some nl =>
        let dbu := il_dbu (internal_layout self) in
        layer <- layer_of of_region ;;
        let test_cluster := mkTestCluster (probe_box point) layer in
        found <- with_fuel (search_net fuel self itrans_unit (internal_top_cell self)
                              test_cluster []) ;;
        let '(cluster_id, inst_path) := found in
        if bool_decide (0 < cluster_id)
        then
          let inst_path := rev inst_path in
          let cell_indexes := internal_top_cell self :: map ie_cell_index inst_path in
          match last cell_indexes ≫= circuit_by_cell_index nl with
          | None => ret None          (* the circuit has probably been optimized away *)
          | Some circuit =>
              match net_by_cluster_id circuit cluster_id with
              | None => ret None      (* the net has probably been optimized away *)
              | Some net =>
                  n <- follow_up (length inst_path) nl dbu circuit net inst_path cell_indexes ;;
                  ret (Some n)
              end
          end
        else ret None
    end.

(** [probe_net (const db::Region &, const db::DPoint &)] *)
Definition probe_net_dpoint (fuel : nat) (of_region : Region) (point : DPoint)
  : L2N (option Net) :=
  self <- get ;;
  probe_net fuel of_region (dpoint_to_point (il_dbu (internal_layout self)) point).

(** ** Sessions: the mutating calls of the facade as data *)

Inductive call : Type :=
| CallSetThreads (n : Z)
| CallSetAreaRatio (ar : dbl)
| CallSetMaxVertexCount (n : nat)
| CallMakeLayer (n : string)
| CallMakeLayerOf (layer_index : nat) (n : string)
| CallMakeTextLayer (layer_index : nat) (n : string)
| CallMakePolygonLayer (layer_index : nat) (n : string)
| CallRegisterLayer (region : Region) (n : string)
| CallExtractDevices (extractor : NetlistDeviceExtractor) (layers : list (string * Region))
| CallConnect (l : Region)
| CallConnect2 (a b : Region)
| CallConnectGlobal (l : Region) (gn : string)
| CallGlobalNetId (gn : string)
| CallExtractNetlist (join_nets_by_label : bool)
| CallSetNetlistExtracted
| CallEnsureInternalLayout
| CallMakeNetlist.

Definition ignore {S A} (m : M S A) : M S unit := _ <- m ;; ret tt.

Section Session.
Variable netex : NetlistExtractor.

Definition perform (c : call) : L2N unit :=
  match c with
  | CallSetThreads n => set_threads n
  | CallSetAreaRatio ar => set_area_ratio ar
  | CallSetMaxVertexCount n => set_max_vertex_count n
  | CallMakeLayer n => ignore (make_layer n)
  | CallMakeLayerOf i n => ignore (make_layer_of i n)
  | CallMakeTextLayer i n => ignore (make_text_layer i n)
  | CallMakePolygonLayer i n => ignore (make_polygon_layer i n)
  | CallRegisterLayer r n => register_layer r n
  | CallExtractDevices e ls => extract_devices e ls
  | CallConnect l => connect l
  | CallConnect2 a b => connect2 a b
  | CallConnectGlobal l gn => ignore (connect_global l gn)
  | CallGlobalNetId gn => ignore (global_net_id gn)
  | CallExtractNetlist j => extract_netlist netex j
  | CallSetNetlistExtracted => set_netlist_extracted
  | CallEnsureInternalLayout => ensure_internal_layout
  | CallMakeNetlist => ignore make_netlist
  end.

(** The facade after a call, whether it returned or threw. *)
Definition after (c : call) (s : LayoutToNetlist) : LayoutToNetlist :=
  match perform c s with
  | Done _ s' => s'
  | Raise _ s' => s'
  | OutOfFuel => s
  end.

(** The facade after a session of calls; the caller catches exceptions and
    goes on. *)
Definition session (cs : list call) (s : LayoutToNetlist) : LayoutToNetlist :=
  fold_left (fun s c => after c s) cs s.

End Session.

Definition is_extract_netlist (c : call) : bool :=
  match c with CallExtractNetlist _ => true | _ => false end.

Definition is_set_netlist_extracted (c : call) : bool :=
  match c with CallSetNetlistExtracted => true | _ => false end.

Definition allocates_netlist (c : call) : bool :=
  match c with
  | CallExtractDevices _ _ | CallExtractNetlist _ | CallMakeNetlist => true
  | _ => false
  end.

(** ** The invocations [build_all_nets] makes

    The loops of [build_all_nets] only decide which nets are handed to
    [build_net_rec], into which target cell, under which net cell prefix and
    with which transformation; [build_all_nets_calls] lists these
    invocations in the order of the loops. *)

Record build_call : Type := mkBuildCall {
  bc_net : Net;
  bc_target : cell_index_type;
  bc_net_cell_name_prefix : option string;
  bc_tr : ICplxTrans
}.

Definition net_is_skipped (circuit_cell_name_prefix : option string) (c : Circuit) (n : Net)
  : bool :=
  bool_decide (is_Some circuit_cell_name_prefix) && negb (negb (c_has_parents c))
  && bool_decide (0 < pin_count n).

Definition net_calls (target_ci : cell_index_type) (mag : dbl)
    (net_cell_name_prefix circuit_cell_name_prefix : option string) (c : Circuit)
  : list build_call :=
  map (fun n => mkBuildCall n target_ci net_cell_name_prefix (itrans_of_mag mag))
      (filter (fun n => net_is_skipped circuit_cell_name_prefix c n = false) (c_nets c)).

Definition floating_pin_call (target_ci : cell_index_type) (mag dbu : dbl)
    (net_cell_name_prefix : option string) (subcircuit : SubCircuit) (p : Pin)
  : list build_call :=
  match sc_net_for_pin subcircuit (pin_id p), sc_ref_net_for_pin subcircuit (pin_id p) with
  | None, Some n =>
      [mkBuildCall n target_ci
         ((fun prefix => prefix +:+ sc_expanded_name subcircuit +:+ ":") <$> net_cell_name_prefix)
         (itrans_mul (itrans_of_mag mag) (micron_to_dbu dbu (sc_trans subcircuit)))]
  | _, _ => []
  end.

Definition subcircuit_calls (target_ci : cell_index_type) (mag dbu : dbl)
    (net_cell_name_prefix : option string) (subcircuit : SubCircuit) : list build_call :=
  flat_map (floating_pin_call target_ci mag dbu net_cell_name_prefix subcircuit)
           (sc_ref_pins subcircuit).

Definition circuit_calls (cmap : CellMapping) (mag dbu : dbl)
    (net_cell_name_prefix circuit_cell_name_prefix : option string) (c : Circuit)
  : list build_call :=
  match cmap !! c_cell_index c with
  | None => []
  | Some target_ci =>
      net_calls target_ci mag net_cell_name_prefix circuit_cell_name_prefix c
      ++ (if bool_decide (is_Some circuit_cell_name_prefix)
          then flat_map (subcircuit_calls target_ci mag dbu net_cell_name_prefix)
                        (c_subcircuits c)
          else [])
  end.

Definition build_all_nets_calls (nl : Netlist) (cmap : CellMapping) (mag dbu : dbl)
    (net_cell_name_prefix circuit_cell_name_prefix : option string) : list build_call :=
  flat_map (circuit_calls cmap mag dbu net_cell_name_prefix circuit_cell_name_prefix)
           (nl_circuits nl).

Definition run_build_call (self : LayoutToNetlist) (lmap : layer_map) (fuel : nat)
    (circuit_cell_name_prefix device_cell_name_prefix : option string) (bc : build_call)
  : Build unit :=
  build_net_rec_net self lmap fuel (bc_net bc) (bc_target bc) (bc_net_cell_name_prefix bc)
    circuit_cell_name_prefix device_cell_name_prefix (bc_tr bc).

(** ** Reference descriptions *)

(** Non-recursive delivery as the specification words it: the shapes of the
    starting cell, and below it everything except what lies under a cell the
    iteration reaches (a cell holding a shape of the cluster on the layer)
    that is not the starting cell and still is a circuit or a device
    abstract.  With each shape comes the running transformation. *)
Fixpoint flattened_shapes (nl : option Netlist) (ci0 : cell_index_type) (t : ctree)
  : list (PolygonRef * ICplxTrans) :=
  match t with
  | CNode ci tr shapes children =>
      if negb (bool_decide (shapes = [])) && negb (Nat.eqb ci ci0) && cell_is_kept nl ci
      then []
      else map (fun s => (s, tr)) shapes ++ flat_map (flattened_shapes nl ci0) children
  end.

(** All shapes of a cluster tree, as recursive delivery visits them. *)
Definition all_shapes (t : ctree) : list (PolygonRef * ICplxTrans) :=
  map (fun e => (e_shape e, e_trans e)) (entries_of t).

(** What [deliver_shape] appends to a [db::Shapes] of a layout. *)
Definition shape_in_layout (tr : ICplxTrans) (s : PolygonRef * ICplxTrans) : Shape :=
  if pr_is_box s.1
  then ShBox (pr_obj s.1) (pr_trans s.1) (itrans_mul tr s.2)
  else ShPolygonRef (pr_obj s.1) (pr_trans s.1) (itrans_mul tr s.2).

(** What [deliver_shape] appends to a [db::Region]. *)
Definition shape_in_region (tr : ICplxTrans) (s : PolygonRef * ICplxTrans) : Shape :=
  if pr_is_box s.1
  then ShBox (pr_obj s.1) (pr_trans s.1) (itrans_mul tr s.2)
  else ShPolygon (pr_obj s.1) (pr_trans s.1) (itrans_mul tr s.2).

(** The cell an instance path from the top cell [top] leads to. *)
Definition cell_at (top : cell_index_type) (path : list InstElement) : cell_index_type :=
  default top (last (map ie_cell_index path)).

(** Reference [r] connects pin [pin] of a circuit placed by [e] inside the
    cell [upper_ci] to net [n'] of circuit [c']: its transformation equals
    the one of [e] in micron units and its owner is the circuit of
    [upper_ci]. *)
Definition connects_up (nl : Netlist) (dbu : dbl) (e : InstElement) (upper_ci : cell_index_type)
    (pin : nat) (r : SubCircuit) (c' : Circuit) (n' : Net) : Prop :=
  dtrans_equal (sc_trans r) (dbu_to_micron dbu (ie_complex_trans e)) = true
  ∧ (sc_circuit r ≫= (fun i => nl_circuits nl !! i)) = Some c'
  ∧ c_cell_index c' = upper_ci
  ∧ sc_net_for_pin r pin = Some n'.

(** The upward climb of [probe_net] as the specification words it.  The
    state is the circuit, its net and the instance path from the top cell
    [top] down to the circuit's cell; the last argument is the net the climb
    ends with. *)
Inductive climbs (nl : Netlist) (dbu : dbl) (top : cell_index_type)
  : Circuit -> Net -> list InstElement -> Net -> Prop :=
| climbs_top c n :
    climbs nl dbu top c n [] n
| climbs_no_pin c n path :
    net_pins n = [] ->
    climbs nl dbu top c n path n
| climbs_no_parent c n path e first_pin pins pin :
    net_pins n = first_pin :: pins ->
    pin_by_id c first_pin = Some pin ->
    (forall r c' n', r ∈ c_refs c ->
       ¬ connects_up nl dbu e (cell_at top path) (pin_id pin) r c' n') ->
    climbs nl dbu top c n (path ++ [e]) n
| climbs_up c n path e first_pin pins pin before r after c' n' res :
    net_pins n = first_pin :: pins ->
    pin_by_id c first_pin = Some pin ->
    c_refs c = before ++ r :: after ->
    (forall r0 c0 n0, r0 ∈ before ->
       ¬ connects_up nl dbu e (cell_at top path) (pin_id pin) r0 c0 n0) ->
    connects_up nl dbu e (cell_at top path) (pin_id pin) r c' n' ->
    climbs nl dbu top c' n' path res ->
    climbs nl dbu top c n (path ++ [e]) res.

(** The cells and transformations [search_net] can reach from the top cell
    for a test cluster. *)
Inductive reached (self : LayoutToNetlist) (test_cluster : TestCluster)
  : cell_index_type -> ICplxTrans -> Prop :=
| reached_top :
    reached self test_cluster (internal_top_cell self) itrans_unit
| reached_child cell trans e :
    reached self test_cluster cell trans ->
    e ∈ touching_elements self cell (box_transformed trans (tc_box test_cluster)) ->
    reached self test_cluster (ie_cell_index e)
      (itrans_mul (itrans_inverted (ie_complex_trans e)) trans).

(** The cell hierarchy below the clusters is acyclic: [rank] decreases
    along every connection. *)
Definition clusters_ranked (rank : cell_index_type -> nat) (hc : hier_clusters) : Prop :=
  forall ci cid c, c ∈ connections_for_cluster hc ci cid -> rank (inst_cell_index c) < rank ci.

(** The instance hierarchy of the internal layout is acyclic. *)
Definition layout_ranked (rank : cell_index_type -> nat) (il : InternalLayout) : Prop :=
  forall ci box i, i ∈ il_touching il ci box -> rank (ia_cell_index i) < rank ci.

(** [probe_net] from [search_net] on, once the checks of the state and of
    the region have passed. *)
Definition probe_net_checked (fuel : nat) (self : LayoutToNetlist) (nl : Netlist)
    (layer : nat) (point : Point) : L2N (option Net) :=
  (found <- with_fuel (search_net fuel self itrans_unit (internal_top_cell self)
                         (mkTestCluster (probe_box point) layer) []) ;;
   let '(cluster_id, inst_path) := found in
   if bool_decide (0 < cluster_id)
   then
     let inst_path := rev inst_path in
     let cell_indexes := internal_top_cell self :: map ie_cell_index inst_path in
     match last cell_indexes ≫= circuit_by_cell_index nl with
     | None => ret None
     | Some circuit =>
         match net_by_cluster_id circuit cluster_id with
         | None => ret None
         | Some net =>
             n <- follow_up (length inst_path) nl (il_dbu (internal_layout self)) circuit net
                    inst_path cell_indexes ;;
             ret (Some n)
         end
     end
   else ret None)%l2n.


(** Delivery of a list of shapes with their running transformations, one
    after the other until the target refuses one. *)
Fixpoint deliver_list {To} `{DeliverTo To} (tr : ICplxTrans)
    (l : list (PolygonRef * ICplxTrans)) (to : To) : To * bool :=
  match l with
  | [] => (to, true)
  | s :: l' =>
      let '(to', ok) := deliver_shape s.1 to (itrans_mul tr s.2) in
      if ok then deliver_list tr l' to' else (to', false)
  end.

(** The cell at the root of a cluster tree. *)
Definition ctree_cell (t : ctree) : cell_index_type :=
  match t with CNode ci _ _ _ => ci end.


(** ** Vocabulary for the rebuilt hierarchy *)

(** The shapes non-recursive delivery yields for a cluster on a layer, with
    their running transformations. *)
Definition nonrecursive_shapes (fuel : nat) (self : LayoutToNetlist) (ci : cell_index_type)
    (cid : nat) (layer : nat) : list (PolygonRef * ICplxTrans) :=
  match cluster_tree fuel (m_net_clusters self) layer ci cid itrans_unit with
  | Some t => flattened_shapes (netlist_data self) ci t
  | None => []
  end.

(** Does the cluster have a shape on any mapped layer? *)
Definition any_mapped_shapes (fuel : nat) (self : LayoutToNetlist) (lmap : layer_map)
    (ci : cell_index_type) (cid : nat) : bool :=
  existsb (fun l => match l.2 with
                    | Some (DeepRegion dl) =>
                        negb (bool_decide (nonrecursive_shapes fuel self ci cid (dl_layer dl) = []))
                    | _ => false
                    end) lmap.

(** Every region of the layer map is a deep region. *)
Definition regions_deep (lmap : layer_map) : Prop :=
  Forall (fun l => match l.2 with Some r => is_deep r = true | None => True end) lmap.

(** [cell.shapes (layer)] as a list *)
Definition shapes_at (c : Cell) (layer : nat) : list Shape :=
  default [] (cell_shapes c !! layer).

(** The transformation [deliver_shape] was called with. *)
Definition shape_tr (s : Shape) : ICplxTrans :=
  match s with
  | ShBox _ _ tr | ShPolygon _ _ tr | ShPolygonRef _ _ tr => tr
  end.

(** The two parts [build_net_rec] splits its transformation into. *)
Definition tr_wo_mag (tr : ICplxTrans) : ICplxTrans :=
  itrans_mul tr (itrans_of_mag (dbl_div dbl_one (itrans_mag tr))).
Definition tr_mag (tr : ICplxTrans) : ICplxTrans := itrans_of_mag (itrans_mag tr).

(** A shape delivered under the running transformation [X]. *)
Definition delivered_with (X : ICplxTrans) (s : Shape) : Prop :=
  exists t, shape_tr s = itrans_mul X t.

(** An instance placed by a call running under [X]: the transformation
    without magnification composed with an instance transformation [it],
    then transformed into the magnification. *)
Definition placed_with (X : ICplxTrans) (i : CellInstArray) : Prop :=
  exists it, cia_trans i = itrans_transform_into (tr_mag X) (itrans_mul (tr_wo_mag X) it).

(** Cell [c'] is cell [c] with more instances and more shapes on its
    layers, the new ones satisfying [Pi] and [Ps]. *)
Definition cell_grows (Ps : Shape -> Prop) (Pi : CellInstArray -> Prop) (c c' : Cell) : Prop :=
  cell_name c' = cell_name c
  ∧ (exists new, cell_insts c' = cell_insts c ++ new ∧ Forall Pi new)
  ∧ (forall l, exists new, shapes_at c' l = shapes_at c l ++ new ∧ Forall Ps new).

(** The transformation [k + 1] levels below a call running under [X]. *)
Definition below (k : nat) (X : ICplxTrans) : ICplxTrans := Nat.iter (S k) tr_mag X.

(** The name [build_net_rec] gives the target cell of a child cell. *)
Definition child_cell_name (self : LayoutToNetlist)
    (circuit_cell_name_prefix device_cell_name_prefix : option string) (subci : cell_index_type)
    (nm : string) : Prop :=
  exists nl np,
    netlist_data self = Some nl
    ∧ (if device_abstract_by_cell_index nl subci
       then device_cell_name_prefix else circuit_cell_name_prefix) = Some np
    ∧ nm = np +:+ il_cell_name (internal_layout self) subci.

(** What a [build_net_rec] call without net cell, into target cell [tc] and
    running under [X], makes of the state [st]:
    - cells are only added, and the cells there before stay as they are
      except [tc], which grows by shapes delivered under [X] and instances
      placed under [X];
    - every added cell holds only shapes delivered and instances placed by
      calls further down;
    - the memo keeps its entries, the new entries with a target cell and the
      added cells correspond one to one, and an added cell is named after
      the child cell of its key. *)
Record rebuilt (self : LayoutToNetlist) (ccp dcp : option string) (tc : cell_index_type)
    (X : ICplxTrans) (st st' : BuildState) : Prop := mkRebuilt {
  rb_dbu : lay_dbu (bs_target st') = lay_dbu (bs_target st);
  rb_length : length (lay_cells (bs_target st)) <= length (lay_cells (bs_target st'));
  rb_old : forall i c,
      lay_cells (bs_target st) !! i = Some c ->
      exists c', lay_cells (bs_target st') !! i = Some c'
                 ∧ if decide (i = tc)
                   then cell_grows (delivered_with X) (placed_with X) c c'
                   else c' = c;
  rb_new : forall i c',
      length (lay_cells (bs_target st)) <= i ->
      lay_cells (bs_target st') !! i = Some c' ->
      exists nm k,
        cell_grows (delivered_with (below k X)) (placed_with (below k X)) (mkCell nm ∅ []) c';
  rb_memo : bs_cmap st ⊆ bs_cmap st';
  rb_memo_new : forall key v,
      bs_cmap st' !! key = Some (Some v) ->
      bs_cmap st !! key = Some (Some v)
      ∨ (bs_cmap st !! key = None
         ∧ length (lay_cells (bs_target st)) <= v < length (lay_cells (bs_target st')));
  rb_memo_inj : forall key1 key2 v,
      bs_cmap st !! key1 = None -> bs_cmap st !! key2 = None ->
      bs_cmap st' !! key1 = Some (Some v) -> bs_cmap st' !! key2 = Some (Some v) ->
      key1 = key2;
  rb_memo_cell : forall v,
      length (lay_cells (bs_target st)) <= v < length (lay_cells (bs_target st')) ->
      exists key c',
        bs_cmap st !! key = None ∧ bs_cmap st' !! key = Some (Some v)
        ∧ lay_cells (bs_target st') !! v = Some c'
        ∧ child_cell_name self ccp dcp key.1 (cell_name c')
}.


(** What the second loop of [build_net_rec] makes of the target cell: the
    shapes of each mapped layer, appended to the target layer. *)
Definition layer_delivered (fuel : nat) (self : LayoutToNetlist) (ci : cell_index_type)
    (cid : nat) (tr : ICplxTrans) (c : Cell) (l : nat * option Region) : Cell :=
  match l.2 with
  | Some (DeepRegion dl) =>
      cell_set_shapes l.1
        (shapes_at c l.1
         ++ map (shape_in_layout tr) (nonrecursive_shapes fuel self ci cid (dl_layer dl))) c
  | _ => c
  end.

Definition layers_delivered (fuel : nat) (self : LayoutToNetlist) (ci : cell_index_type)
    (cid : nat) (tr : ICplxTrans) (ls : layer_map) (c : Cell) : Cell :=
  fold_left (layer_delivered fuel self ci cid tr) ls c.

(** The recursive call [recurse] for connection [c], running under [tr],
    returns and rebuilds the target cell it is given. *)
Definition rebuilds (self : LayoutToNetlist) (ccp dcp : option string)
    (recurse : cell_index_type -> nat -> cell_index_type -> ICplxTrans -> Build unit)
    (tr : ICplxTrans) (c : ClusterInstance) : Prop :=
  forall tci st,
    tci < length (lay_cells (bs_target st)) ->
    exists st',
      recurse (inst_cell_index c) (cl_id c) tci tr st = Done tt st'
      ∧ rebuilt self ccp dcp tci tr st st'.

(** The members a call leaves alone unless it is one of the extraction
    calls. *)
Definition same_core (s s' : LayoutToNetlist) : Prop :=
  m_netlist_extracted s' = m_netlist_extracted s
  ∧ mp_netlist s' = mp_netlist s
  ∧ heap_next s' = heap_next s.

(** The state after [add_cell] for the net cell and its placement in [tc]. *)
Definition with_net_cell (nm : string) (tc : cell_index_type) (st : BuildState)
  : BuildState :=
  alter_cell
    (cell_add_inst (mkCellInstArray (length (lay_cells (bs_target st))) itrans_unit)) tc
    (mkBuildState
       (mkLayout (lay_cells (bs_target st) ++ [mkCell nm ∅ []]) (lay_dbu (bs_target st)))
       (bs_cmap st)).


(** ** Vocabulary for the registry *)

(** The two maps of the named-layer registry agree: a layer index has the
    name under which the registry holds a deep layer of that index, and the
    other way round. *)
Definition registry_consistent (s : LayoutToNetlist) : Prop :=
  (forall l n, m_name_of_layer s !! l = Some n ->
     exists dl, m_named_regions s !! n = Some dl ∧ dl_layer dl = l)
  ∧ (forall n dl, m_named_regions s !! n = Some dl ->
       m_name_of_layer s !! dl_layer dl = Some n).

(** Every deep layer the facade keeps a reference to has a name. *)
Definition dlrefs_named (s : LayoutToNetlist) : Prop :=
  forall dl, dl ∈ m_dlrefs s -> is_Some (m_name_of_layer s !! dl_layer dl).

(** The registry is the same in both states. *)
Definition same_registry (s s' : LayoutToNetlist) : Prop :=
  m_named_regions s' = m_named_regions s ∧ m_name_of_layer s' = m_name_of_layer s.

(** The calls that write the registry. *)
Definition registers_layer (c : call) : bool :=
  match c with
  | CallMakeLayer _ | CallMakeLayerOf _ _ | CallMakeTextLayer _ _
  | CallMakePolygonLayer _ _ | CallRegisterLayer _ _ => true
  | _ => false
  end.

(** The calls that write the connectivity. *)
Definition connects_layers (c : call) : bool :=
  match c with
  | CallConnect _ | CallConnect2 _ _ | CallConnectGlobal _ _ => true
  | _ => false
  end.


(** ** Vocabulary for recursive delivery *)

(** All shapes below a cluster with their running transformations, by the
    structure of the cluster tree: the shapes of the cell itself, then those
    below each connection in turn. *)
Fixpoint tree_shapes (t : ctree) : list (PolygonRef * ICplxTrans) :=
  match t with
  | CNode ci tr shapes children =>
      map (fun s => (s, tr)) shapes ++ flat_map tree_shapes children
  end.


(** ** Vocabulary for the flat rebuild *)

(** The shapes the second loop of [build_net_rec] appends to layer [k] of
    the target cell: for every entry of the layer map with key [k] and a
    deep region, what non-recursive delivery yields on the region's layer,
    in the order of the layer map. *)
Definition mapped_shapes (fuel : nat) (self : LayoutToNetlist) (lmap : layer_map)
    (ci : cell_index_type) (cid : nat) (tr : ICplxTrans) (k : nat) : list Shape :=
  flat_map (fun l =>
              if bool_decide (l.1 = k)
              then match l.2 with
                   | Some (DeepRegion dl) =>
                       map (shape_in_layout tr) (nonrecursive_shapes fuel self ci cid (dl_layer dl))
                   | _ => []
                   end
              else []) lmap.


(** ** Vocabulary for the rebuild of all nets *)

(** Layout [t'] is layout [t] with cells added: the database unit is the
    same, every cell of [t] is still there, has only gained shapes and
    instances, and is unchanged unless [T] holds of its index. *)
Definition layout_grows (T : cell_index_type -> Prop) (t t' : Layout) : Prop :=
  lay_dbu t' = lay_dbu t
  ∧ length (lay_cells t) <= length (lay_cells t')
  ∧ forall i c,
      lay_cells t !! i = Some c ->
      exists c', lay_cells t' !! i = Some c'
                 ∧ cell_grows (fun _ => True) (fun _ => True) c c'
                 ∧ (¬ T i -> c' = c).

(** The target cells the cell mapping assigns to circuits of the netlist. *)
Definition mapped_target (nl : Netlist) (cmap : CellMapping) (i : cell_index_type) : Prop :=
  exists c, c ∈ nl_circuits nl ∧ cmap !! c_cell_index c = Some i.


(** ** Vocabulary for the search *)

(** An instance path [search_net] can walk for a test cluster: from [cell],
    searched under [trans], down the members of touching instance arrays to
    [cell'], searched under [trans'].  Each step down composes the inverse
    of the member's transformation in front. *)
Inductive descends (self : LayoutToNetlist) (test_cluster : TestCluster)
  : cell_index_type -> ICplxTrans -> list InstElement -> cell_index_type -> ICplxTrans -> Prop :=
| descends_here cell trans :
    descends self test_cluster cell trans [] cell trans
| descends_step cell trans e path cell' trans' :
    e ∈ touching_elements self cell (box_transformed trans (tc_box test_cluster)) ->
    descends self test_cluster (ie_cell_index e)
      (itrans_mul (itrans_inverted (ie_complex_trans e)) trans) path cell' trans' ->
    descends self test_cluster cell trans (e :: path) cell' trans'.


(** ** Cell mappings *)

Section CellMappings.
(** [db::DeepShapeStore::cell_mapping_to_original (layout_index, into_layout,
    into_cell, excluded_cells)]: it may add cells to the layout it is given
    and returns the mapping. *)
Variable cell_mapping_to_original :
  DeepShapeStore -> nat -> Layout -> cell_index_type -> gset cell_index_type
  -> Layout * CellMapping.
(** [db::CellMapping::create_single_mapping] and [create_from_geometry] of
    a new mapping, from the given layout and cell to the internal layout and
    its top cell. *)
Variable create_single_mapping :
  Layout -> cell_index_type -> InternalLayout -> cell_index_type -> CellMapping.
Variable create_from_geometry :
  Layout -> cell_index_type -> InternalLayout -> cell_index_type -> CellMapping.

(** The set [device_cells] that [cell_mapping_into] collects. *)
Definition device_cells (self : LayoutToNetlist) (with_device_cells : bool)
  : gset cell_index_type :=
  if negb with_device_cells
  then match netlist_data self with
       | Some nl => list_to_set (nl_device_abstracts nl)
       | None => ∅
       end
  else ∅.

(** [cell_mapping_into] *)
Definition cell_mapping_into (self : LayoutToNetlist) (layout : Layout)
    (cell : cell_index_type) (with_device_cells : bool) : Layout * CellMapping :=
  let layout_index := 0 in
  cell_mapping_to_original (m_dss self) layout_index layout cell
    (device_cells self with_device_cells).

(** [const_cell_mapping_into] *)
Definition const_cell_mapping_into (self : LayoutToNetlist) (layout : Layout)
    (cell : cell_index_type) : CellMapping :=
  if Nat.eqb (length (lay_cells layout)) 1
  then create_single_mapping layout cell (internal_layout self) (internal_top_cell self)
  else create_from_geometry layout cell (internal_layout self) (internal_top_cell self).

End CellMappings.

(** ** Cluster connections without a cell prefix *)

(** Connection [c] leads into a cell for which [build_net_rec] has no name
    prefix: a device abstract without a device cell prefix, or another cell
    without a circuit cell prefix. *)
Definition no_prefix_for (nl : Netlist)
    (circuit_cell_name_prefix device_cell_name_prefix : option string)
    (c : ClusterInstance) : Prop :=
  (if device_abstract_by_cell_index nl (inst_cell_index c)
   then device_cell_name_prefix else circuit_cell_name_prefix) = None.


(** ** Vocabulary for the placements of a rebuild *)

(** The name prefix [build_net_rec] picks for the target cell of the child
    cell [subci]. *)
Definition child_prefix (nl : Netlist)
    (circuit_cell_name_prefix device_cell_name_prefix : option string)
    (subci : cell_index_type) : option string :=
  if device_abstract_by_cell_index nl subci
  then device_cell_name_prefix else circuit_cell_name_prefix.

(** The instance a [build_net_rec] call running under [tr] places for
    connection [c], when [cmap] holds a target cell for the child cluster. *)
Definition placement_of (cmap : gmap (cell_index_type * nat) (option cell_index_type))
    (tr : ICplxTrans) (c : ClusterInstance) : option CellInstArray :=
  match cmap !! (inst_cell_index c, cl_id c) with
  | Some (Some idx) =>
      Some (mkCellInstArray idx
              (itrans_transform_into (tr_mag tr) (itrans_mul (tr_wo_mag tr) (inst_trans c))))
  | _ => None
  end.

(** [cmap] follows the prefixes: a child cluster it knows has a target cell
    exactly if there is a name prefix for its cell. *)
Definition memo_follows_prefixes (nl : Netlist) (ccp dcp : option string)
    (cmap : gmap (cell_index_type * nat) (option cell_index_type)) : Prop :=
  forall key v, cmap !! key = Some v -> (is_Some v <-> is_Some (child_prefix nl ccp dcp key.1)).

End WithKernel.

(** * An instance of the kernel interface

    Magnifications and displacements over the rationals, without rotation:
    a transformation maps [p] to [mag * p + disp].  The examples below are
    evaluated on it. *)

Module Scaling.

Record trans : Type := mkTrans {
  t_mag : Q;
  t_dx : Q;
  t_dy : Q
}.

Definition unit : trans := mkTrans 1 0 0.

Definition mul (a b : trans) : trans :=
  mkTrans (t_mag a * t_mag b) (t_dx a + t_mag a * t_dx b) (t_dy a + t_mag a * t_dy b).

Definition inverted (a : trans) : trans :=
  mkTrans (/ t_mag a) (- (t_dx a / t_mag a)) (- (t_dy a / t_mag a)).

Definition of_mag (m : Q) : trans := mkTrans m 0 0.

Definition equal (a b : trans) : bool :=
  Qeq_bool (t_mag a) (t_mag b) && Qeq_bool (t_dx a) (t_dx b) && Qeq_bool (t_dy a) (t_dy b).

Definition to_micron (dbu : Q) (t : trans) : trans :=
  mkTrans (t_mag t) (dbu * t_dx t) (dbu * t_dy t).

Definition to_dbu (dbu : Q) (t : trans) : trans :=
  mkTrans (t_mag t) (t_dx t / dbu) (t_dy t / dbu).

Definition transform_into (t a : trans) : trans := mul (mul t a) (inverted t).

Definition point : Type := Q * Q.
Definition box : Type := point * point.

Definition apply (t : trans) (p : point) : point :=
  (t_mag t * p.1 + t_dx t, t_mag t * p.2 + t_dy t)%Q.

Definition kernel : Kernel := {|
  dbl := Q;
  dbl_one := 1%Q;
  dbl_div := Qdiv;
  ICplxTrans := trans;
  DCplxTrans := trans;
  itrans_unit := unit;
  itrans_mul := mul;
  itrans_inverted := inverted;
  itrans_of_mag := of_mag;
  itrans_mag := t_mag;
  dbu_to_micron := to_micron;
  micron_to_dbu := to_dbu;
  dtrans_equal := equal;
  itrans_transform_into := transform_into;
  Point := point;
  DPoint := point;
  dpoint_to_point := fun dbu p => (p.1 / dbu, p.2 / dbu)%Q;
  Box := box;
  probe_box := fun p => ((p.1 - 1, p.2 - 1), (p.1 + 1, p.2 + 1))%Q;
  box_transformed := fun t b => (apply t b.1, apply t b.2);
  Polygon := nat
|}.

End Scaling.

(** * Example data *)

Module Example.

Definition K : Kernel := Scaling.kernel.

(** An internal layout with database unit 0.001 and no instances. *)
Definition layout0 : InternalLayout (K := K) :=
  mkInternalLayout (K := K) (1 # 1000)%Q (fun _ => "TOP") 0 (fun _ _ => []).

Definition dss0 : DeepShapeStore (K := K) :=
  mkDeepShapeStore (K := K) 1 None 0 0 None 0 0 layout0.

(** Extractors that find nothing. *)
Definition netex0 : NetlistExtractor (K := K) :=
  fun dss _ nl hc _ => mkExtracted dss nl hc None.

Definition devex0 : NetlistDeviceExtractor (K := K) :=
  fun dss _ nl hc => mkExtracted dss nl hc None.

Definition net0 : Net := mkNet (Some 0) 1 "N1" [].

Definition target0 : Layout (K := K) :=
  mkLayout (K := K) [mkCell (K := K) "TOP" ∅ []] (1 # 1000)%Q.

Definition facade0 : LayoutToNetlist (K := K) := LayoutToNetlist_default dss0.

Definition m1 : Region := DeepRegion (mkDeepLayer 0 1).
Definition m2 : Region := DeepRegion (mkDeepLayer 0 2).

End Example.

Module ExampleProbe.
Import Example.

(** The facade of [Example] after an extraction that found nothing. *)
Definition extracted0 : LayoutToNetlist (K := K) :=
  after netex0 (CallExtractNetlist false) facade0.

Definition origin : Point (Kernel := K) := (0, 0)%Q.

End ExampleProbe.

(** A two-level layout: TOP (cell 0) places CHILD (cell 1, a circuit) and
    VIA (cell 2, purged from the netlist); CHILD places DEV (cell 3, a
    device abstract).  The net VDD of TOP reaches into all of them. *)
Module ExampleHier.
Import Example.

Definition T1 : Scaling.trans := Scaling.mkTrans 1 10 0.
Definition T2 : Scaling.trans := Scaling.mkTrans 1 0 20.
Definition T3 : Scaling.trans := Scaling.mkTrans 1 3 3.

Definition dbu : Q := (1 # 1000)%Q.

Definition cell_names (ci : cell_index_type) : string :=
  match ci with
  | 0 => "TOP"
  | 1 => "CHILD"
  | 2 => "VIA"
  | _ => "DEV"
  end.

Definition layout1 : InternalLayout (K := K) :=
  mkInternalLayout (K := K) dbu cell_names 0
    (fun ci _ =>
       match ci with
       | 0 => [mkInstance (K := K) 1 (fun _ => [T1]); mkInstance (K := K) 2 (fun _ => [T2])]
       | 1 => [mkInstance (K := K) 3 (fun _ => [T3])]
       | _ => []
       end).

Definition dss1 : DeepShapeStore (K := K) :=
  mkDeepShapeStore (K := K) 1 None 0 1 (Some "LABEL") 1 3 layout1.

Definition box_ref (obj : nat) : PolygonRef (K := K) :=
  mkPolygonRef (K := K) obj true Scaling.unit.
Definition poly_ref (obj : nat) : PolygonRef (K := K) :=
  mkPolygonRef (K := K) obj false Scaling.unit.

Definition clusters1 : hier_clusters (K := K) :=
  mkHierClusters (K := K)
    (fun ci cid =>
       match ci, cid with
       | 0, 5 => [mkClusterInstance (K := K) 1 1 T1; mkClusterInstance (K := K) 2 7 T2]
       | 0, 6 => [mkClusterInstance (K := K) 1 2 T1]
       | 1, 1 => [mkClusterInstance (K := K) 3 9 T3]
       | _, _ => []
       end)
    (fun ci cid layer =>
       match ci, cid, layer with
       | 0, 5, 1 => [box_ref 100]
       | 1, 1, 1 => [poly_ref 101]
       | 1, 2, 1 => [box_ref 104]
       | 2, 7, 1 => [box_ref 102]
       | 3, 9, 1 => [poly_ref 103]
       | _, _, _ => []
       end)
    (fun ci _ =>
       match ci with
       | 1 => [mkLocalCluster (K := K) 1 (fun _ _ _ => true)]
       | _ => []
       end).

Definition rank1 (ci : cell_index_type) : nat :=
  match ci with
  | 0 => 2
  | 1 => 1
  | _ => 0
  end.

Definition vdd : Net := mkNet (Some 0) 5 "VDD" [].
(** A net of TOP without shapes of its own, connected into CHILD. *)
Definition gnd : Net := mkNet (Some 0) 6 "GND" [].
Definition net_a : Net := mkNet (Some 1) 1 "A" [0].
Definition net_f : Net := mkNet (Some 1) 2 "F" [1].

Definition x1 : SubCircuit (K := K) :=
  mkSubCircuit (K := K) (Some 0) [mkPin 0; mkPin 1]
    (fun id => match id with 0 => Some net_a | 1 => Some net_f | _ => None end)
    (Scaling.to_micron dbu T1) "X1"
    (fun id => match id with 0 => Some vdd | _ => None end).

Definition top_circuit : Circuit (K := K) :=
  mkCircuit (K := K) 0 [vdd; gnd] [] [x1] [] false.
Definition child_circuit : Circuit (K := K) :=
  mkCircuit (K := K) 1 [net_a; net_f] [mkPin 0; mkPin 1] [] [x1] true.

Definition netlist1 : Netlist (K := K) :=
  mkNetlist (K := K) [top_circuit; child_circuit] [3].

(** The facade after the extraction of this layout, with the layer M1
    (layer index 1) registered. *)
Definition facade1 : LayoutToNetlist (K := K) :=
  mkLayoutToNetlist (K := K) si_default dss1 (conn_connect conn_empty 1) clusters1
    (Some (mkNetlistObj (K := K) 0 netlist1)) {[ mkDeepLayer 0 1 ]}
    {[ "M1" := mkDeepLayer 0 1 ]} {[ 1 := "M1" ]} true None 1.

Definition lmap1 : layer_map := [(10, Some m1)].

Definition probe_point : Point (Kernel := K) := (12, 2)%Q.

Definition child_inst : InstElement (K := K) := mkInstElement (K := K) 1 T1.

Definition cellmap1 : CellMapping := {[ 0 := 0 ]}.

End ExampleHier.

Module ExampleBuild.
Import Example.

(** The target layout with its one cell and an empty memo. *)
Definition start : BuildState (K := K) := mkBuildState (K := K) target0 ∅.

End ExampleBuild.

(** * Properties *)

(** ** Tactics for the monad *)

Ltac unfold_monad :=
  unfold ignore, bind, ret, throw, get, put, modify, out_of_fuel, tl_assert, with_fuel in *.

(** ** The named-layer registry *)

Lemma layer_of_deep {K : Kernel} {S} (dl : DeepLayer) (s : S) :
  layer_of (DeepRegion dl) s = Done (dl_layer dl) s.
Proof. reflexivity. Qed.

Lemma is_persisted_deep {K : Kernel} (dl : DeepLayer) (s : LayoutToNetlist) :
  is_persisted (DeepRegion dl) s
  = Done (bool_decide (is_Some (m_name_of_layer s !! dl_layer dl))) s.
Proof. reflexivity. Qed.

Lemma name_deep {K : Kernel} (dl : DeepLayer) (s : LayoutToNetlist) :
  name (DeepRegion dl) s = Done (name_of_index s (dl_layer dl)) s.
Proof.
  unfold name, name_of_index. unfold_monad. simpl.
  by destruct (m_name_of_layer s !! dl_layer dl).
Qed.

(** The registry after a successful [register_layer]. *)
Lemma register_layer_deep {K : Kernel} (s : LayoutToNetlist) (dl : DeepLayer) (n : string) :
  m_named_regions s !! n = None ->
  register_layer (DeepRegion dl) n s
  = Done tt
      (with_name_of_layer (<[dl_layer dl := n]> (m_name_of_layer s))
         (with_named_regions
            (<[n := dl]> (match m_name_of_layer s !! dl_layer dl with
                          | Some prev_name => delete prev_name (m_named_regions s)
                          | None => m_named_regions s
                          end)) s)).
Proof.
  intros Hfree. unfold register_layer. unfold_monad. simpl.
  rewrite Hfree. rewrite bool_decide_eq_false_2 by (intros [? ?]; done). simpl.
  destruct (m_name_of_layer s !! dl_layer dl) as [prev|] eqn:Hprev.
  - rewrite bool_decide_eq_true_2 by eauto. rewrite name_deep. unfold name_of_index.
    rewrite Hprev. by destruct s.
  - rewrite bool_decide_eq_false_2 by (intros [? ?]; done). by destruct s.
Qed.

(** C9. [register_layer (region, n)] throws the duplicate-name exception
    whenever [n] is already a key of the named-region registry, whatever the
    region.  Otherwise a deep region becomes registered under [n]: if it was
    persisted under another name, that name is erased from the registry, the
    registry maps [n] to the region's deep layer, the layer-to-name map maps
    its layer to [n], and [name (region)] afterwards returns [n]. *)
Theorem register_layer_renames {K : Kernel} (s : LayoutToNetlist) (region : Region)
    (n : string) :
  (is_Some (m_named_regions s !! n) ->
   register_layer region n s = Raise (Exception (msg_name_used +:+ n)) s)
  ∧ (m_named_regions s !! n = None ->
     forall dl, region = DeepRegion dl ->
     exists s',
       register_layer region n s = Done tt s'
       ∧ m_named_regions s' !! n = Some dl
       ∧ m_name_of_layer s' !! dl_layer dl = Some n
       ∧ name region s' = Done n s'
       ∧ is_persisted region s' = Done true s'
       ∧ (forall prev_name,
            m_name_of_layer s !! dl_layer dl = Some prev_name -> prev_name ≠ n ->
            m_named_regions s' !! prev_name = None)
       ∧ (forall other,
            other ≠ n -> m_name_of_layer s !! dl_layer dl ≠ Some other ->
            m_named_regions s' !! other = m_named_regions s !! other)
       ∧ (forall l, l ≠ dl_layer dl -> m_name_of_layer s' !! l = m_name_of_layer s !! l)).
Proof.
  split.
  - intros Hused. unfold register_layer. unfold_monad. simpl.
    by rewrite bool_decide_eq_true_2.
  - intros Hfree dl ->. eexists. split; [by apply register_layer_deep|].
    rewrite name_deep, is_persisted_deep. unfold name_of_index. simpl.
    rewrite !lookup_insert_eq. simpl.
    repeat split; try done.
    + intros prev Hprev Hne. rewrite Hprev.
      rewrite lookup_insert_ne by done. apply lookup_delete_eq.
    + intros other Hne Hnot. rewrite lookup_insert_ne by done.
      destruct (m_name_of_layer s !! dl_layer dl) as [prev|] eqn:Hprev; [|done].
      apply lookup_delete_ne. congruence.
    + intros l Hl. by rewrite lookup_insert_ne.
Qed.

(** ** Sessions *)

Ltac outcome_cases :=
  repeat match goal with
         | |- context [match ?x with _ => _ end] =>
             lazymatch x with
             | context [match _ with _ => _ end] => fail
             | _ => destruct x eqn:?; simpl
             end
         end.

Lemma register_layer_core {K : Kernel} (region : Region) (n : string) (s : LayoutToNetlist) :
  match register_layer region n s with
  | Done _ s' | Raise _ s' => same_core s s'
  | OutOfFuel => False
  end.
Proof.
  unfold register_layer, is_persisted, name, layer_of, same_core. unfold_monad. simpl.
  outcome_cases; done.
Qed.

Lemma make_layer_with_core {K : Kernel} (l : option nat) (f : ShapeFlags) (n : string)
    (s : LayoutToNetlist) :
  match make_layer_with l f n s with
  | Done _ s' | Raise _ s' => same_core s s'
  | OutOfFuel => False
  end.
Proof.
  unfold make_layer_with, new_region. unfold bind at 1 2 3. unfold get at 1 2. simpl.
  unfold put, ret. simpl.
  set (s1 := with_dss _ s).
  assert (Hs1 : same_core s s1) by done.
  destruct (bool_decide (n = EmptyString)); simpl.
  - done.
  - pose proof (register_layer_core
                  (DeepRegion {| dl_layout := 0; dl_layer := dss_next_layer (m_dss s) |}) n s1) as H.
    unfold bind. destruct (register_layer _ n s1); simpl; try done;
      destruct H as (? & ? & ?), Hs1 as (? & ? & ?); split_and!; congruence.
Qed.

Lemma call_core {K : Kernel} (netex : NetlistExtractor) (c : call) (s : LayoutToNetlist) :
  allocates_netlist c = false -> is_set_netlist_extracted c = false ->
  same_core s (after netex c s).
Proof.
  intros Ha Hs. unfold after.
  destruct c; try discriminate; simpl.
  1-3: done.
  1-4: unfold ignore, make_layer, make_layer_of, make_text_layer, make_polygon_layer, bind;
       match goal with
       | |- context [make_layer_with ?l ?f ?n ?s0] =>
           pose proof (make_layer_with_core l f n s0) as H;
           destruct (make_layer_with l f n s0); simpl; done
       end.
  - pose proof (register_layer_core region n s) as H.
    destruct (register_layer region n s); done.
  - unfold connect, is_persisted, layer_of, same_core. unfold_monad. simpl.
    outcome_cases; done.
  - unfold connect2, is_persisted, layer_of, same_core. unfold_monad. simpl.
    outcome_cases; done.
  - unfold connect_global, is_persisted, layer_of, same_core, conn_connect_global. unfold_monad.
    simpl. outcome_cases; done.
  - unfold global_net_id, same_core. unfold_monad. simpl. outcome_cases; done.
  - unfold ensure_internal_layout, same_core. unfold_monad. simpl. outcome_cases; done.
Qed.

(** What the three allocating calls do to the netlist pointer. *)
Lemma ensure_netlist_spec {K : Kernel} (s : LayoutToNetlist) :
  exists o s',
    ensure_netlist s = Done o s'
    ∧ mp_netlist s' = Some o
    ∧ m_netlist_extracted s' = m_netlist_extracted s
    ∧ m_dss s' = m_dss s ∧ m_conn s' = m_conn s ∧ m_net_clusters s' = m_net_clusters s
    ∧ match mp_netlist s with
      | Some o0 => o = o0 ∧ heap_next s' = heap_next s
      | None => obj_addr o = heap_next s ∧ heap_next s' = S (heap_next s)
      end.
Proof.
  unfold ensure_netlist. unfold_monad. simpl.
  destruct (mp_netlist s) as [o|] eqn:Ho; simpl.
  - exists o, s. by rewrite Ho.
  - eexists _, _. split; [done|]. by simpl.
Qed.

Lemma commit_extracted_spec {K : Kernel} (addr : nat) (r : Extracted) (s : LayoutToNetlist) :
  exists s',
    (commit_extracted addr r s = Done tt s' ∧ ex_error r = None
     ∨ exists e, commit_extracted addr r s = Raise e s' ∧ ex_error r = Some e)
    ∧ mp_netlist s' = Some (mkNetlistObj addr (ex_netlist r))
    ∧ m_netlist_extracted s' = m_netlist_extracted s
    ∧ heap_next s' = heap_next s.
Proof.
  unfold commit_extracted. unfold_monad. simpl.
  destruct (ex_error r) as [e|]; eexists.
  - split; [right; exists e; done|done].
  - split; [left; done|done].
Qed.

(** The state after [extract_devices] or [extract_netlist] got past the
    check of [m_netlist_extracted]. *)
Lemma extract_devices_spec {K : Kernel} (ex : NetlistDeviceExtractor)
    (layers : list (string * Region)) (s : LayoutToNetlist) :
  m_netlist_extracted s = false ->
  exists o s',
    (extract_devices ex layers s = Done tt s' ∨ exists e, extract_devices ex layers s = Raise e s')
    ∧ mp_netlist s' = Some o
    ∧ m_netlist_extracted s' = false
    ∧ match mp_netlist s with
      | Some o0 => obj_addr o = obj_addr o0 ∧ heap_next s' = heap_next s
      | None => obj_addr o = heap_next s ∧ heap_next s' = S (heap_next s)
      end.
Proof.
  intros Hflag.
  destruct (ensure_netlist_spec s) as (o & s1 & He & Ho & Hf & _ & _ & _ & Hk).
  set (r := ex (m_dss s1) layers (obj_data o) (m_net_clusters s1)).
  assert (Heq : extract_devices ex layers s = commit_extracted (obj_addr o) r s1).
  { unfold extract_devices, bind, get. by rewrite Hflag, He. }
  destruct (commit_extracted_spec (obj_addr o) r s1) as (s' & Hc & Hn & Hf' & Hh).
  exists (mkNetlistObj (obj_addr o) (ex_netlist r)), s'. rewrite Heq.
  split_and!.
  - destruct Hc as [[-> _]|(e & -> & _)]; eauto.
  - done.
  - congruence.
  - simpl. destruct (mp_netlist s); destruct Hk as [Hk1 Hk2]; subst; split; congruence.
Qed.

Lemma extract_netlist_spec {K : Kernel} (netex : NetlistExtractor) (join : bool)
    (s : LayoutToNetlist) :
  m_netlist_extracted s = false ->
  exists o s',
    (extract_netlist netex join s = Done tt s' ∧ m_netlist_extracted s' = true
     ∨ exists e, extract_netlist netex join s = Raise e s' ∧ m_netlist_extracted s' = false)
    ∧ mp_netlist s' = Some o
    ∧ match mp_netlist s with
      | Some o0 => obj_addr o = obj_addr o0 ∧ heap_next s' = heap_next s
      | None => obj_addr o = heap_next s ∧ heap_next s' = S (heap_next s)
      end.
Proof.
  intros Hflag.
  destruct (ensure_netlist_spec s) as (o & s1 & He & Ho & Hf & _ & _ & _ & Hk).
  set (r := netex (m_dss s1) (m_conn s1) (obj_data o) (m_net_clusters s1) join).
  assert (Heq : extract_netlist netex join s
                = bind (commit_extracted (obj_addr o) r) (fun _ => modify (with_netlist_extracted true)) s1).
  { unfold extract_netlist. unfold bind at 1. unfold get at 1. rewrite Hflag.
    unfold bind at 1. rewrite He. reflexivity. }
  rewrite Heq. unfold bind.
  destruct (commit_extracted_spec (obj_addr o) r s1) as (s' & Hc & Hn & Hf' & Hh).
  destruct Hc as [[Hc _]|(e & Hc & _)]; rewrite Hc.
  - exists (mkNetlistObj (obj_addr o) (ex_netlist r)), (with_netlist_extracted true s').
    unfold modify. split_and!.
    + left. done.
    + done.
    + simpl. destruct (mp_netlist s); destruct Hk as [Hk1 Hk2]; subst; split; simpl; congruence.
  - exists (mkNetlistObj (obj_addr o) (ex_netlist r)), s'.
    split_and!.
    + right. exists e. split; [done|congruence].
    + done.
    + simpl. destruct (mp_netlist s); destruct Hk as [Hk1 Hk2]; subst; split; simpl; congruence.
Qed.

Lemma extract_devices_rejected {K : Kernel} (ex : NetlistDeviceExtractor)
    (layers : list (string * Region)) (s : LayoutToNetlist) :
  m_netlist_extracted s = true ->
  extract_devices ex layers s = Raise (Exception msg_already_extracted) s.
Proof. intros H. unfold extract_devices. unfold_monad. by rewrite H. Qed.

Lemma extract_netlist_rejected {K : Kernel} (netex : NetlistExtractor) (join : bool)
    (s : LayoutToNetlist) :
  m_netlist_extracted s = true ->
  extract_netlist netex join s = Raise (Exception msg_already_extracted) s.
Proof. intros H. unfold extract_netlist. unfold_monad. by rewrite H. Qed.

Lemma connect_rejected {K : Kernel} (l : Region) (s : LayoutToNetlist) :
  m_netlist_extracted s = true ->
  connect l s = Raise (Exception msg_already_extracted) s.
Proof. intros H. unfold connect. unfold_monad. by rewrite H. Qed.

Lemma connect2_rejected {K : Kernel} (a b : Region) (s : LayoutToNetlist) :
  m_netlist_extracted s = true ->
  connect2 a b s = Raise (Exception msg_already_extracted) s.
Proof. intros H. unfold connect2. unfold_monad. by rewrite H. Qed.

Lemma connect_global_rejected {K : Kernel} (l : Region) (gn : string) (s : LayoutToNetlist) :
  m_netlist_extracted s = true ->
  connect_global l gn s = Raise (Exception msg_already_extracted) s.
Proof. intros H. unfold connect_global. unfold_monad. by rewrite H. Qed.

(** No call ever clears [m_netlist_extracted]. *)
Lemma after_keeps_extracted {K : Kernel} (netex : NetlistExtractor) (c : call)
    (s : LayoutToNetlist) :
  m_netlist_extracted s = true -> m_netlist_extracted (after netex c s) = true.
Proof.
  intros Hflag.
  destruct (allocates_netlist c) eqn:Ha; [|destruct (is_set_netlist_extracted c) eqn:Hs].
  - unfold after. destruct c; try discriminate; simpl.
    + by rewrite extract_devices_rejected.
    + by rewrite extract_netlist_rejected.
    + unfold ignore, make_netlist, bind.
      destruct (ensure_netlist_spec s) as (o & s1 & -> & _ & Hf & _). simpl. congruence.
  - destruct c; try discriminate. done.
  - destruct (call_core netex c s Ha Hs) as (-> & _). done.
Qed.

Lemma session_keeps_extracted {K : Kernel} (netex : NetlistExtractor) (cs : list call)
    (s : LayoutToNetlist) :
  m_netlist_extracted s = true -> m_netlist_extracted (session netex cs s) = true.
Proof.
  revert s. induction cs as [|c cs IH]; intros s Hflag; [done|].
  simpl. apply IH. by apply after_keeps_extracted.
Qed.

Lemma after_keeps_no_netlist {K : Kernel} (netex : NetlistExtractor) (c : call)
    (s : LayoutToNetlist) :
  allocates_netlist c = false -> netlist s = None -> netlist (after netex c s) = None.
Proof.
  intros Ha Hn. destruct (is_set_netlist_extracted c) eqn:Hs.
  - destruct c; try discriminate. done.
  - destruct (call_core netex c s Ha Hs) as (_ & Hm & _). unfold netlist in *. congruence.
Qed.

Lemma after_keeps_netlist {K : Kernel} (netex : NetlistExtractor) (c : call)
    (s : LayoutToNetlist) (o : NetlistObj) :
  netlist s = Some o ->
  exists o', netlist (after netex c s) = Some o' ∧ obj_addr o' = obj_addr o.
Proof.
  unfold netlist. intros Hn.
  destruct (allocates_netlist c) eqn:Ha; [|destruct (is_set_netlist_extracted c) eqn:Hs].
  - destruct c; try discriminate; unfold after; simpl.
    + destruct (m_netlist_extracted s) eqn:Hflag.
      * rewrite extract_devices_rejected by done. eauto.
      * destruct (extract_devices_spec extractor layers s Hflag) as (o' & s' & Hr & Ho & _ & Hk).
        rewrite Hn in Hk. exists o'. split; [|by destruct Hk].
        by destruct Hr as [->|(e & ->)].
    + destruct (m_netlist_extracted s) eqn:Hflag.
      * rewrite extract_netlist_rejected by done. eauto.
      * destruct (extract_netlist_spec netex join_nets_by_label s Hflag)
          as (o' & s' & Hr & Ho & Hk).
        rewrite Hn in Hk. exists o'. split; [|by destruct Hk].
        by destruct Hr as [[-> _]|(e & -> & _)].
    + unfold ignore, make_netlist, bind.
      destruct (ensure_netlist_spec s) as (o' & s' & -> & Ho & _ & _ & _ & _ & Hk).
      rewrite Hn in Hk. destruct Hk as [-> _]. simpl. eauto.
  - destruct c; try discriminate. simpl. eauto.
  - destruct (call_core netex c s Ha Hs) as (_ & -> & _). eauto.
Qed.

(** C10, as amended.  [netlist ()] is null on a new facade and stays null
    through any session without [extract_devices], [extract_netlist] and
    [make_netlist].  [make_netlist], and every [extract_devices] or
    [extract_netlist] call made while the netlist is not marked extracted,
    leaves a netlist behind and allocates it if and only if none existed:
    with none, the object is the next one of the allocator, otherwise the
    address stays and nothing is allocated.  Once there is a netlist, every
    later session returns the object at the same address. *)
Theorem netlist_created_lazily {K : Kernel} (netex : NetlistExtractor) :
  (forall dss, netlist (LayoutToNetlist_default dss) = None)
  ∧ (forall s cs,
       netlist s = None -> Forall (fun c => allocates_netlist c = false) cs ->
       netlist (session netex cs s) = None)
  ∧ (forall s c,
       allocates_netlist c = true ->
       c = CallMakeNetlist ∨ m_netlist_extracted s = false ->
       exists o,
         netlist (after netex c s) = Some o
         ∧ match netlist s with
           | None => obj_addr o = heap_next s
                     ∧ heap_next (after netex c s) = S (heap_next s)
           | Some o0 => obj_addr o = obj_addr o0
                        ∧ heap_next (after netex c s) = heap_next s
           end)
  ∧ (forall s o cs,
       netlist s = Some o ->
       exists o', netlist (session netex cs s) = Some o' ∧ obj_addr o' = obj_addr o).
Proof.
  split_and!.
  - done.
  - intros s cs. revert s. induction cs as [|c cs IH]; intros s Hn Hcs; [done|].
    inversion Hcs; subst. simpl. apply IH; [|done]. by apply after_keeps_no_netlist.
  - intros s c Ha Hok. unfold netlist, after.
    destruct c; try discriminate; simpl.
    + destruct Hok as [?|Hflag]; [done|].
      destruct (extract_devices_spec extractor layers s Hflag) as (o & s' & Hr & Ho & _ & Hk).
      exists o. destruct Hr as [->|(e & ->)]; (split; [done|]);
        destruct (mp_netlist s); done.
    + destruct Hok as [?|Hflag]; [done|].
      destruct (extract_netlist_spec netex join_nets_by_label s Hflag)
        as (o & s' & Hr & Ho & Hk).
      exists o. destruct Hr as [[-> _]|(e & -> & _)]; (split; [done|]);
        destruct (mp_netlist s); done.
    + unfold ignore, make_netlist, bind.
      destruct (ensure_netlist_spec s) as (o & s' & -> & Ho & _ & _ & _ & _ & Hk).
      exists o. simpl. split; [done|]. destruct (mp_netlist s); [|done].
      by destruct Hk as [-> ->].
  - intros s o cs. revert s o. induction cs as [|c cs IH]; intros s o Hn; [eauto|].
    simpl. destruct (after_keeps_netlist netex c s o Hn) as (o1 & Hn1 & Ha1).
    destruct (IH _ _ Hn1) as (o' & Hn' & Ha'). exists o'. split; [done|congruence].
Qed.

Lemma netlist_created_lazily_witness :
  let s := session (K := Example.K) Example.netex0
             [CallMakeLayer "M1"; CallConnect Example.m1] Example.facade0 in
  netlist s = None
  ∧ (exists o, netlist (after Example.netex0 (CallExtractDevices Example.devex0 []) s) = Some o
               ∧ obj_addr o = 0)
  ∧ (exists o, netlist (session Example.netex0
                          [CallExtractDevices Example.devex0 []; CallExtractNetlist false;
                           CallMakeNetlist] s) = Some o
               ∧ obj_addr o = 0).
Proof.
  destruct (netlist_created_lazily (K := Example.K) Example.netex0) as (_ & H1 & H2 & H3).
  set (s := session _ _ _). simpl.
  assert (Hs : netlist s = None).
  { apply H1; [reflexivity|]. repeat constructor. }
  split; [exact Hs|].
  destruct (H2 s (CallExtractDevices Example.devex0 []) eq_refl (or_intror eq_refl))
    as (o & Ho & Hk).
  rewrite Hs in Hk. destruct Hk as [Hk _].
  split; [exists o; split; [exact Ho|exact Hk]|].
  destruct (H3 _ o [CallExtractNetlist false; CallMakeNetlist] Ho) as (o' & Ho' & Ha').
  exists o'. split; [exact Ho'|]. rewrite Ha'. exact Hk.
Defined.

(** The netlist stays null when the first [extract_devices] call comes
    after [set_netlist_extracted]: the call is rejected before anything is
    allocated. *)
Lemma netlist_not_allocated_when_rejected :
  let s := session (K := Example.K) Example.netex0 [CallSetNetlistExtracted] Example.facade0 in
  netlist s = None
  ∧ extract_devices Example.devex0 [] s = Raise (Exception msg_already_extracted) s
  ∧ netlist (after Example.netex0 (CallExtractDevices Example.devex0 []) s) = None
  ∧ netlist (after Example.netex0 (CallExtractNetlist false) s) = None.
Proof. repeat split. Qed.

Lemma after_keeps_building {K : Kernel} (netex : NetlistExtractor) (c : call)
    (s : LayoutToNetlist) :
  is_extract_netlist c = false -> is_set_netlist_extracted c = false ->
  m_netlist_extracted s = false -> m_netlist_extracted (after netex c s) = false.
Proof.
  intros He Hs Hflag. destruct (allocates_netlist c) eqn:Ha.
  - destruct c; try discriminate; unfold after; simpl.
    + destruct (extract_devices_spec extractor layers s Hflag) as (o & s' & Hr & _ & Hf & _).
      by destruct Hr as [->|(e & ->)].
    + unfold ignore, make_netlist, bind.
      destruct (ensure_netlist_spec s) as (o & s' & -> & _ & Hf & _). simpl. congruence.
  - destruct (call_core netex c s Ha Hs) as (-> & _). done.
Qed.

Lemma session_keeps_building {K : Kernel} (netex : NetlistExtractor) (cs : list call)
    (s : LayoutToNetlist) :
  Forall (fun c => is_extract_netlist c = false ∧ is_set_netlist_extracted c = false) cs ->
  m_netlist_extracted s = false -> m_netlist_extracted (session netex cs s) = false.
Proof.
  revert s. induction cs as [|c cs IH]; intros s Hcs Hflag; [done|].
  inversion Hcs as [|? ? [He Hs] Hcs']; subst. simpl. apply IH; [done|].
  by apply after_keeps_building.
Qed.

Lemma build_net_rejected {K : Kernel} (s : LayoutToNetlist) (lmap : layer_map) (fuel : nat)
    (net : Net) (tc : cell_index_type) (cp dp : option string) (target : Layout) :
  m_netlist_extracted s = false ->
  build_net s lmap fuel net tc cp dp target = Raise (Exception msg_not_extracted) target.
Proof. intros H. unfold build_net. by rewrite H. Qed.

Lemma build_all_nets_rejected {K : Kernel} (s : LayoutToNetlist) (lmap : layer_map)
    (fuel : nat) (cmap : CellMapping) (np cp dp : option string) (target : Layout) :
  m_netlist_extracted s = false ->
  build_all_nets s lmap fuel cmap np cp dp target = Raise (Exception msg_not_extracted) target.
Proof. intros H. unfold build_all_nets. by rewrite H. Qed.

Lemma probe_net_rejected {K : Kernel} (s : LayoutToNetlist) (fuel : nat) (r : Region)
    (p : Point) :
  m_netlist_extracted s = false ->
  probe_net fuel r p s = Raise (Exception msg_not_extracted) s.
Proof. intros H. unfold probe_net, bind, get. by rewrite H. Qed.

(** C1, as amended.  Once [extract_netlist] has returned, every later call
    of [connect (region)], [connect (a, b)], [connect_global],
    [extract_devices] and [extract_netlist], whatever happened in between,
    throws "The netlist has already been extracted" and leaves the facade
    as it is.  While the netlist is not marked extracted, which is the case
    as long as neither a successful [extract_netlist] nor
    [set_netlist_extracted] has occurred, every call of [build_net],
    [build_all_nets] and [probe_net] throws "The netlist has not been
    extracted yet". *)
Theorem extraction_state_machine {K : Kernel} (netex : NetlistExtractor) :
  (forall s join s' cs,
     extract_netlist netex join s = Done tt s' ->
     let s'' := session netex cs s' in
     (forall l, connect l s'' = Raise (Exception msg_already_extracted) s'')
     ∧ (forall a b, connect2 a b s'' = Raise (Exception msg_already_extracted) s'')
     ∧ (forall l gn, connect_global l gn s'' = Raise (Exception msg_already_extracted) s'')
     ∧ (forall ex layers,
          extract_devices ex layers s'' = Raise (Exception msg_already_extracted) s'')
     ∧ (forall join',
          extract_netlist netex join' s'' = Raise (Exception msg_already_extracted) s''))
  ∧ (forall s cs,
       m_netlist_extracted s = false ->
       Forall (fun c => is_extract_netlist c = false ∧ is_set_netlist_extracted c = false) cs ->
       let s' := session netex cs s in
       (forall lmap fuel net tc cp dp target,
          build_net s' lmap fuel net tc cp dp target
          = Raise (Exception msg_not_extracted) target)
       ∧ (forall lmap fuel cmap np cp dp target,
            build_all_nets s' lmap fuel cmap np cp dp target
            = Raise (Exception msg_not_extracted) target)
       ∧ (forall fuel r p,
            probe_net fuel r p s' = Raise (Exception msg_not_extracted) s')).
Proof.
  split.
  - intros s join s' cs Hdone s''.
    assert (Hflag : m_netlist_extracted s' = true).
    { destruct (m_netlist_extracted s) eqn:Hs.
      - rewrite extract_netlist_rejected in Hdone by done. discriminate.
      - destruct (extract_netlist_spec netex join s Hs) as (o & s1 & Hr & _).
        destruct Hr as [[Hr Hf]|(e & Hr & _)]; rewrite Hr in Hdone; [|discriminate].
        by inversion Hdone; subst. }
    assert (Hflag' : m_netlist_extracted s'' = true) by by apply session_keeps_extracted.
    split_and!; intros.
    + by apply connect_rejected.
    + by apply connect2_rejected.
    + by apply connect_global_rejected.
    + by apply extract_devices_rejected.
    + by apply extract_netlist_rejected.
  - intros s cs Hflag Hcs s'.
    assert (Hflag' : m_netlist_extracted s' = false) by by apply session_keeps_building.
    split_and!; intros.
    + by apply build_net_rejected.
    + by apply build_all_nets_rejected.
    + by apply probe_net_rejected.
Qed.

Lemma extraction_state_machine_witness :
  let K := Example.K in
  let s := session Example.netex0 [CallMakeLayer "M1"; CallConnect Example.m1]
             Example.facade0 in
  (build_net s [] 1 Example.net0 0 None None Example.target0
   = Raise (Exception msg_not_extracted) Example.target0)
  ∧ (let s'' := session Example.netex0 [CallMakeLayer "M2"]
                  (after Example.netex0 (CallExtractNetlist false) s) in
     connect Example.m1 s'' = Raise (Exception msg_already_extracted) s'').
Proof.
  intros K s.
  destruct (extraction_state_machine (K := Example.K) Example.netex0) as [H1 H2].
  split.
  - apply (H2 Example.facade0 [CallMakeLayer "M1"; CallConnect Example.m1]).
    + reflexivity.
    + repeat constructor.
  - apply (H1 s false (after Example.netex0 (CallExtractNetlist false) s) [CallMakeLayer "M2"]).
    reflexivity.
Defined.

(** [build_net] is accepted although [extract_netlist] never ran: the
    facade was marked extracted by [set_netlist_extracted]. *)
Lemma build_accepted_without_extract_netlist :
  let K := Example.K in
  let cs := [CallSetNetlistExtracted] in
  let s := session Example.netex0 cs Example.facade0 in
  forallb (fun c => negb (is_extract_netlist c)) cs = true
  ∧ build_net s [] 1 Example.net0 0 None None Example.target0 = Done tt Example.target0.
Proof. split; reflexivity. Qed.

Lemma register_layer_renames_witness :
  let K := Example.K in
  let s := session Example.netex0 [CallRegisterLayer Example.m1 "M1"] Example.facade0 in
  (register_layer Example.m2 "M1" s = Raise (Exception (msg_name_used +:+ "M1")) s)
  ∧ (exists s',
       register_layer Example.m1 "METAL1" s = Done tt s'
       ∧ name Example.m1 s' = Done "METAL1" s'
       ∧ m_named_regions s' !! "M1" = None
       ∧ m_named_regions s' !! "METAL1" = Some (mkDeepLayer 0 1)).
Proof.
  intros K s.
  destruct (register_layer_renames (K := Example.K) s Example.m2 "M1") as [Hdup _].
  destruct (register_layer_renames (K := Example.K) s Example.m1 "METAL1") as [_ Hnew].
  split.
  - apply Hdup. eexists. reflexivity.
  - destruct (Hnew eq_refl (mkDeepLayer 0 1) eq_refl)
      as (s' & Hreg & Hn & _ & Hname & _ & Hprev & _).
    exists s'. split_and!; [exact Hreg|exact Hname| |exact Hn].
    apply (Hprev "M1"); [reflexivity|discriminate].
Defined.

(** ** Probing: the search *)

Lemma touching_elements_rank {K : Kernel} (rank : cell_index_type -> nat)
    (self : LayoutToNetlist) (cell : cell_index_type) (box : Box) (e : InstElement) :
  layout_ranked rank (internal_layout self) ->
  e ∈ touching_elements self cell box ->
  rank (ie_cell_index e) < rank cell.
Proof.
  intros Hrank He. unfold touching_elements in He.
  apply list_elem_of_In, in_flat_map in He. destruct He as (i & Hi & He).
  apply in_map_iff in He. destruct He as (t & <- & _). simpl.
  apply (Hrank cell box). by apply list_elem_of_In.
Qed.

(** With enough fuel, [search_net] returns 0 and leaves the path alone when
    no cluster it can reach interacts with the test cluster. *)
Lemma search_net_miss {K : Kernel} (rank : cell_index_type -> nat) (self : LayoutToNetlist)
    (test_cluster : TestCluster) :
  layout_ranked rank (internal_layout self) ->
  (forall cell trans,
     reached self test_cluster cell trans ->
     find_interacting self test_cluster trans
       (clusters_touching (m_net_clusters self) cell
          (box_transformed trans (tc_box test_cluster))) = None) ->
  forall fuel cell trans path,
    rank cell < fuel ->
    reached self test_cluster cell trans ->
    search_net fuel self trans cell test_cluster path = Some (0, path).
Proof.
  intros Hrank Hmiss. induction fuel as [|fuel IH]; intros cell trans path Hfuel Hreach; [lia|].
  simpl. rewrite (Hmiss cell trans Hreach).
  assert (Hall : forall e,
            e ∈ touching_elements self cell (box_transformed trans (tc_box test_cluster)) ->
            forall path',
              search_net fuel self (itrans_mul (itrans_inverted (ie_complex_trans e)) trans)
                (ie_cell_index e) test_cluster path' = Some (0, path')).
  { intros e He path'. apply IH.
    - pose proof (touching_elements_rank rank self cell _ e Hrank He). lia.
    - by apply (reached_child self test_cluster cell trans e). }
  revert Hall. generalize (touching_elements self cell (box_transformed trans (tc_box test_cluster))).
  intros es. revert path. induction es as [|e es IHes]; intros path Hall; [done|].
  simpl. rewrite Hall by apply list_elem_of_here. simpl.
  apply IHes. intros e' He'. apply Hall. by apply list_elem_of_further.
Qed.

Lemma probe_net_extracted {K : Kernel} (s : LayoutToNetlist) (fuel : nat) (r : Region)
    (p : Point) (o : NetlistObj) :
  m_netlist_extracted s = true -> mp_netlist s = Some o ->
  probe_net fuel r p s
  = match r with
    | DeepRegion dl => probe_net_checked fuel s (obj_data o) (dl_layer dl) p s
    | FlatRegion => Raise (Exception msg_non_hier) s
    end.
Proof.
  intros Hflag Ho. unfold probe_net, netlist_data.
  unfold bind at 1. unfold get at 1. rewrite Hflag. simpl.
  unfold bind at 1. unfold tl_assert. rewrite Ho. simpl.
  destruct r; reflexivity.
Qed.

(** C5, as amended.  [probe_net] throws "The netlist has not been extracted
    yet" before the extraction; after it, it throws for a region that is not
    hierarchical (not a deep region), whether named or not; and for a deep
    region, named or not, and a point whose test box interacts with no
    cluster in any cell the search reaches from the top cell, it returns the
    null net, given fuel beyond the depth of the instance hierarchy. *)
Theorem probe_net_failures {K : Kernel} :
  (forall s fuel r p,
     m_netlist_extracted s = false ->
     probe_net fuel r p s = Raise (Exception msg_not_extracted) s)
  ∧ (forall s fuel p,
       m_netlist_extracted s = true -> is_Some (mp_netlist s) ->
       probe_net fuel FlatRegion p s = Raise (Exception msg_non_hier) s)
  ∧ (forall s fuel dl p rank,
       m_netlist_extracted s = true -> is_Some (mp_netlist s) ->
       layout_ranked rank (internal_layout s) ->
       rank (internal_top_cell s) < fuel ->
       (forall cell trans,
          reached s (mkTestCluster (probe_box p) (dl_layer dl)) cell trans ->
          find_interacting s (mkTestCluster (probe_box p) (dl_layer dl)) trans
            (clusters_touching (m_net_clusters s) cell (box_transformed trans (probe_box p)))
          = None) ->
       probe_net fuel (DeepRegion dl) p s = Done None s).
Proof.
  split_and!.
  - intros. by apply probe_net_rejected.
  - intros s fuel p Hflag [o Ho]. by rewrite (probe_net_extracted s fuel _ p o).
  - intros s fuel dl p rank Hflag [o Ho] Hrank Hfuel Hmiss.
    rewrite (probe_net_extracted s fuel _ p o) by done.
    unfold probe_net_checked, bind.
    rewrite (search_net_miss rank s (mkTestCluster (probe_box p) (dl_layer dl)) Hrank Hmiss
               fuel (internal_top_cell s) itrans_unit [] Hfuel (reached_top _ _)).
    simpl. done.
Qed.

Lemma probe_net_failures_witness :
  let K := Example.K in
  (probe_net 1 Example.m1 ExampleProbe.origin Example.facade0
   = Raise (Exception msg_not_extracted) Example.facade0)
  ∧ (probe_net 1 FlatRegion ExampleProbe.origin ExampleProbe.extracted0
     = Raise (Exception msg_non_hier) ExampleProbe.extracted0)
  ∧ (probe_net 1 Example.m1 ExampleProbe.origin ExampleProbe.extracted0
     = Done None ExampleProbe.extracted0).
Proof.
  intros K. destruct (probe_net_failures (K := Example.K)) as (H1 & H2 & H3).
  split_and!.
  - apply H1. reflexivity.
  - apply H2; [reflexivity|]. eexists. reflexivity.
  - apply (H3 ExampleProbe.extracted0 1 (mkDeepLayer 0 1) ExampleProbe.origin (fun _ => 0)).
    + reflexivity.
    + eexists. reflexivity.
    + intros ci box i Hi. by apply elem_of_nil in Hi.
    + simpl. lia.
    + intros cell trans _. reflexivity.
Defined.

(** Probing an unnamed deep layer is not rejected: [probe_net] only asks
    [layer_of] for the layer index, which accepts every deep region. *)
Lemma probe_unnamed_layer_accepted :
  let K := Example.K in
  is_persisted Example.m1 ExampleProbe.extracted0 = Done false ExampleProbe.extracted0
  ∧ probe_net 1 Example.m1 ExampleProbe.origin ExampleProbe.extracted0
    = Done None ExampleProbe.extracted0.
Proof. split; reflexivity. Qed.

(** ** Probing: the upward climb *)

Lemma last_cons_default {A} (x : A) (l : list A) : last (x :: l) = Some (default x (last l)).
Proof.
  rewrite last_cons. by destruct (last l).
Qed.

Lemma removelast_cons_snoc {A} (x : A) (l : list A) (y : A) :
  removelast (x :: l ++ [y]) = x :: l.
Proof. by rewrite app_comm_cons, removelast_last. Qed.

Lemma ref_connection_spec {K : Kernel} (nl : Netlist) (dbu : dbl) (e : InstElement)
    (u : cell_index_type) (pin : nat) (r : SubCircuit) (c' : Circuit) (n' : Net) :
  ref_connection nl (dbu_to_micron dbu (ie_complex_trans e)) (Some u) pin r = Some (c', n')
  <-> connects_up nl dbu e u pin r c' n'.
Proof.
  unfold ref_connection, connects_up.
  destruct (dtrans_equal (sc_trans r) _); [|split; [done|by intros [? _]]].
  destruct (sc_circuit r ≫= _) as [rc|]; [|split; [done|by intros (_ & ? & _)]].
  case_bool_decide as Hu.
  - injection Hu as Hu. destruct (sc_net_for_pin r pin) as [n|]; simpl.
    + split; [by intros [= <- <-]|]. by intros (_ & [= <-] & _ & [= <-]).
    + split; [done|]. by intros (_ & _ & _ & ?).
  - split; [done|]. intros (_ & [= <-] & <- & _). done.
Qed.

Lemma find_upper_first {K : Kernel} (nl : Netlist) (dbu : dbl) (e : InstElement)
    (u : cell_index_type) (pin : nat) (refs : list SubCircuit) (c' : Circuit) (n' : Net) :
  find_upper nl (dbu_to_micron dbu (ie_complex_trans e)) (Some u) pin refs = Some (c', n')
  <-> exists before r after,
        refs = before ++ r :: after
        ∧ (forall r0 c0 n0, r0 ∈ before -> ¬ connects_up nl dbu e u pin r0 c0 n0)
        ∧ connects_up nl dbu e u pin r c' n'.
Proof.
  induction refs as [|r refs IH]; simpl.
  - split; [done|]. intros (before & r & after & Heq & _). by destruct before.
  - destruct (ref_connection nl _ (Some u) pin r) as [[c1 n1]|] eqn:Hr.
    + apply ref_connection_spec in Hr. split.
      * intros [= <- <-]. exists [], r, refs. split_and!; [done| |done].
        intros r0 c0 n0 Hin. by apply elem_of_nil in Hin.
      * intros (before & r1 & after & Hl & Hbefore & Hc).
        destruct before as [|b before]; simpl in Hl; injection Hl as -> ->.
        -- apply ref_connection_spec in Hr, Hc. congruence.
        -- exfalso. apply (Hbefore b c1 n1); [apply list_elem_of_here|done].
    + rewrite IH. split.
      * intros (before & r1 & after & -> & Hbefore & Hc).
        exists (r :: before), r1, after. split_and!; [done| |done].
        intros r0 c0 n0 Hin. apply elem_of_cons in Hin as [->|Hin]; [|by apply Hbefore].
        intros Hc0. apply ref_connection_spec in Hc0. congruence.
      * intros (before & r1 & after & Hl & Hbefore & Hc).
        destruct before as [|b before]; simpl in Hl; injection Hl as -> ->.
        -- apply ref_connection_spec in Hc. congruence.
        -- exists before, r1, after. split_and!; [done| |done].
           intros r0 c0 n0 Hin. apply Hbefore. by apply list_elem_of_further.
Qed.

Lemma find_upper_none {K : Kernel} (nl : Netlist) (dbu : dbl) (e : InstElement)
    (u : cell_index_type) (pin : nat) (refs : list SubCircuit) :
  find_upper nl (dbu_to_micron dbu (ie_complex_trans e)) (Some u) pin refs = None
  <-> forall r c' n', r ∈ refs -> ¬ connects_up nl dbu e u pin r c' n'.
Proof.
  induction refs as [|r refs IH]; simpl.
  - split; [|done]. intros _ r c' n' Hin. by apply elem_of_nil in Hin.
  - destruct (ref_connection nl _ (Some u) pin r) as [[c1 n1]|] eqn:Hr.
    + apply ref_connection_spec in Hr. split; [done|].
      intros Hall. exfalso. apply (Hall r c1 n1); [apply list_elem_of_here|done].
    + rewrite IH. split.
      * intros Hall r0 c0 n0 Hin. apply elem_of_cons in Hin as [->|Hin]; [|by apply Hall].
        intros Hc0. apply ref_connection_spec in Hc0. congruence.
      * intros Hall r0 c0 n0 Hin. apply Hall. by apply list_elem_of_further.
Qed.

Lemma follow_up_done {K : Kernel} {S} (nl : Netlist) (dbu : dbl) (turns : nat) (c : Circuit)
    (n : Net) (path : list InstElement) (cis : list cell_index_type) (s : S) :
  path = [] ∨ net_pins n = [] ->
  follow_up turns nl dbu c n path cis s = Done n s.
Proof.
  intros [-> | Hpins]; destruct turns; cbn [follow_up]; try rewrite Hpins;
    try reflexivity; by destruct (last path).
Qed.

Lemma follow_up_step {K : Kernel} {S} (nl : Netlist) (dbu : dbl) (top : cell_index_type)
    (turns : nat) (c : Circuit) (n : Net) (path : list InstElement) (back : InstElement)
    (first_pin : nat) (pins : list nat) (s : S) :
  net_pins n = first_pin :: pins ->
  follow_up (Datatypes.S turns) nl dbu c n (path ++ [back])
    (top :: map ie_cell_index (path ++ [back])) s
  = match pin_by_id c first_pin with
    | None => Raise InternalException s
    | Some pin =>
        match find_upper nl (dbu_to_micron dbu (ie_complex_trans back))
                (Some (cell_at top path)) (pin_id pin) (c_refs c) with
        | Some (upper_circuit, upper_net) =>
            follow_up turns nl dbu upper_circuit upper_net path
              (top :: map ie_cell_index path) s
        | None => Done n s
        end
    end.
Proof.
  intros Hpins. cbn [follow_up]. rewrite last_snoc, Hpins.
  rewrite map_app. cbn [map]. rewrite removelast_cons_snoc, removelast_last.
  rewrite last_cons_default. fold (cell_at top path).
  destruct (pin_by_id c first_pin); [|done].
  by destruct (find_upper _ _ _ _ _) as [[? ?]|].
Qed.

(** The loop computes a climb, never runs out of turns and does not touch
    the state. *)
Lemma follow_up_sound {K : Kernel} {S} (nl : Netlist) (dbu : dbl) (top : cell_index_type)
    (turns : nat) :
  forall (path : list InstElement) (c : Circuit) (n : Net) (s : S),
    length path <= turns ->
    (exists res,
       follow_up turns nl dbu c n path (top :: map ie_cell_index path) s = Done res s
       ∧ climbs nl dbu top c n path res)
    ∨ follow_up turns nl dbu c n path (top :: map ie_cell_index path) s
      = Raise InternalException s.
Proof.
  induction turns as [|turns IH]; intros path c n s Hlen.
  - destruct path; [|simpl in Hlen; lia]. left. exists n.
    split; [apply follow_up_done; by left|constructor].
  - destruct (last path) as [back|] eqn:Hlast.
    + apply last_Some in Hlast as [path' ->].
      destruct (net_pins n) as [|first_pin pins] eqn:Hpins.
      { left. exists n. split; [apply follow_up_done; by right|by apply climbs_no_pin]. }
      rewrite (follow_up_step nl dbu top turns c n path' back first_pin pins s Hpins).
      destruct (pin_by_id c first_pin) as [pin|] eqn:Hpin; [|by right].
      destruct (find_upper nl _ (Some (cell_at top path')) (pin_id pin) (c_refs c))
        as [[c' n']|] eqn:Hf.
      * apply find_upper_first in Hf as (before & r & after & Hrefs & Hbefore & Hc).
        rewrite length_app in Hlen. simpl in Hlen.
        destruct (IH path' c' n' s ltac:(lia)) as [(res & Hres & Hclimb)|Hraise].
        -- left. exists res. split; [done|]. by eapply climbs_up.
        -- by right.
      * left. exists n. split; [done|].
        eapply climbs_no_parent; [done..|]. by apply find_upper_none.
    + apply last_None in Hlast as ->. left. exists n.
      split; [apply follow_up_done; by left|constructor].
Qed.

(** Conversely, the loop follows every climb to its end. *)
Lemma follow_up_complete {K : Kernel} {S} (nl : Netlist) (dbu : dbl) (top : cell_index_type)
    (c : Circuit) (n : Net) (path : list InstElement) (res : Net) :
  climbs nl dbu top c n path res ->
  forall turns (s : S),
    length path <= turns ->
    follow_up turns nl dbu c n path (top :: map ie_cell_index path) s = Done res s.
Proof.
  induction 1 as [c n|c n path Hpins|c n path e fp pins pin Hpins Hpin Hnone
                  |c n path e fp pins pin before r after c' n' res Hpins Hpin Hrefs Hbefore Hc
                     Hclimb IH];
    intros turns s Hlen.
  - apply follow_up_done. by left.
  - apply follow_up_done. by right.
  - rewrite length_app in Hlen. simpl in Hlen.
    destruct turns as [|turns]; [lia|].
    rewrite (follow_up_step nl dbu top turns c n path e fp pins s Hpins), Hpin.
    apply find_upper_none in Hnone. by rewrite Hnone.
  - rewrite length_app in Hlen. simpl in Hlen.
    destruct turns as [|turns]; [lia|].
    rewrite (follow_up_step nl dbu top turns c n path e fp pins s Hpins), Hpin.
    assert (Hf : find_upper nl (dbu_to_micron dbu (ie_complex_trans e))
                   (Some (cell_at top path)) (pin_id pin) (c_refs c) = Some (c', n')).
    { apply find_upper_first. eauto 10. }
    rewrite Hf. apply IH. lia.
Qed.

(** C4.  Once [search_net] has found a cluster and the leaf circuit and its
    net are resolved, [probe_net] returns exactly the net the climb of the
    specification ends with: while the instance path is not empty and the
    current net has a pin, it takes the net's first pin, looks through the
    references of the circuit for the first one whose transformation equals
    the one of the last path element in micron units, whose owner is the
    circuit of the next cell up the path and whose pin carries a net, and
    moves to that net and circuit with the path shortened; it stops when
    there is no such reference, no pin or no path left.  The only other
    outcome is the failed assertion for a pin the circuit does not know. *)
Theorem probe_net_climbs {K : Kernel} (s : LayoutToNetlist) (fuel : nat) (dl : DeepLayer)
    (p : Point) (o : NetlistObj) (cluster_id : nat) (rev_path : list InstElement)
    (c : Circuit) (n : Net) :
  m_netlist_extracted s = true ->
  mp_netlist s = Some o ->
  search_net fuel s itrans_unit (internal_top_cell s)
    (mkTestCluster (probe_box p) (dl_layer dl)) [] = Some (cluster_id, rev_path) ->
  0 < cluster_id ->
  circuit_by_cell_index (obj_data o) (cell_at (internal_top_cell s) (rev rev_path)) = Some c ->
  net_by_cluster_id c cluster_id = Some n ->
  (forall res,
     probe_net fuel (DeepRegion dl) p s = Done (Some res) s
     <-> climbs (obj_data o) (il_dbu (internal_layout s)) (internal_top_cell s) c n
           (rev rev_path) res)
  ∧ ((exists res, probe_net fuel (DeepRegion dl) p s = Done (Some res) s)
     ∨ probe_net fuel (DeepRegion dl) p s = Raise InternalException s).
Proof.
  intros Hflag Ho Hsearch Hcid Hc Hn.
  assert (Heq : probe_net fuel (DeepRegion dl) p s
                = match follow_up (length (rev rev_path)) (obj_data o)
                          (il_dbu (internal_layout s)) c n (rev rev_path)
                          (internal_top_cell s :: map ie_cell_index (rev rev_path)) s with
                  | Done a s' => Done (Some a) s'
                  | Raise e s' => Raise e s'
                  | OutOfFuel => OutOfFuel
                  end).
  { rewrite (probe_net_extracted s fuel _ p o) by done.
    unfold probe_net_checked. unfold bind at 1. rewrite Hsearch. simpl.
    rewrite bool_decide_eq_true_2 by done.
    rewrite last_cons_default. fold (cell_at (internal_top_cell s) (rev rev_path)).
    simpl. rewrite Hc, Hn. reflexivity. }
  rewrite Heq. clear Heq.
  destruct (follow_up_sound (S := LayoutToNetlist) (obj_data o) (il_dbu (internal_layout s))
              (internal_top_cell s) (length (rev rev_path)) (rev rev_path) c n s (le_n _))
    as [(res' & Hres & Hclimb)|Hraise].
  - rewrite Hres. split; [|left; by exists res'].
    intros res. split.
    + by intros [= <-].
    + intros Hclimb'.
      pose proof (follow_up_complete (S := LayoutToNetlist) _ _ _ _ _ _ _ Hclimb'
                    (length (rev rev_path)) s (le_n _)) as Hres'.
      congruence.
  - rewrite Hraise. split; [|by right].
    intros res. split; [done|].
    intros Hclimb'.
    pose proof (follow_up_complete (S := LayoutToNetlist) _ _ _ _ _ _ _ Hclimb'
                  (length (rev rev_path)) s (le_n _)) as Hres'.
    congruence.
Qed.

(** ** Shape delivery *)

Lemma ctree_forest_ind {K : Kernel} (P : ctree -> Prop) :
  (forall ci tr shapes children, Forall P children -> P (CNode ci tr shapes children)) ->
  forall t, P t.
Proof.
  intros Hnode. fix IH 1. intros [ci tr shapes children]. apply Hnode.
  induction children as [|c children IHc]; constructor; [apply IH|exact IHc].
Qed.

Lemma cluster_tree_total {K : Kernel} (rank : cell_index_type -> nat) (hc : hier_clusters)
    (layer : nat) :
  clusters_ranked rank hc ->
  forall fuel ci cid tr,
    rank ci < fuel ->
    exists t, cluster_tree fuel hc layer ci cid tr = Some t ∧ ctree_cell t = ci.
Proof.
  intros Hrank. induction fuel as [|fuel IH]; intros ci cid tr Hfuel; [lia|].
  simpl.
  assert (Hsome : is_Some (mapM (fun c => cluster_tree fuel hc layer (inst_cell_index c) (cl_id c)
                                            (itrans_mul tr (inst_trans c)))
                                (connections_for_cluster hc ci cid))).
  { apply mapM_is_Some. apply Forall_forall. intros c Hc. simpl.
    destruct (IH (inst_cell_index c) (cl_id c) (itrans_mul tr (inst_trans c))) as (t & -> & _).
    - pose proof (Hrank ci cid c Hc). lia.
    - eauto. }
  destruct Hsome as [children ->]. simpl. eauto.
Qed.


(** More turns than positions change nothing. *)
Lemma deliver_nonrecursive_loop_turns {K : Kernel} {To} {D : DeliverTo To}
    (nl : option Netlist) (ci : cell_index_type) (tr : ICplxTrans) :
  forall t1 t2 prev rci (to : To),
    length rci <= t1 -> length rci <= t2 ->
    deliver_nonrecursive_loop t1 nl ci tr prev rci to
    = deliver_nonrecursive_loop t2 nl ci tr prev rci to.
Proof.
  induction t1 as [|t1 IH]; intros t2 prev rci to H1 H2.
  - destruct rci; [by destruct t2|simpl in H1; lia].
  - destruct rci as [|e rci]; [by destruct t2|].
    destruct t2 as [|t2]; [simpl in H2; lia|].
    simpl in H1, H2. simpl.
    destruct (negb (e_cell_index e =? prev) && negb (e_cell_index e =? ci)
              && cell_is_kept nl (e_cell_index e)).
    + apply IH; rewrite length_drop; lia.
    + destruct (deliver_shape (e_shape e) to (itrans_mul tr (e_trans e))) as [to' []]; [|done].
      apply IH; lia.
Qed.

(** One turn of the loop, with turns to spare. *)
Lemma deliver_nonrecursive_loop_step {K : Kernel} {To} {D : DeliverTo To}
    (nl : option Netlist) (ci : cell_index_type) (tr : ICplxTrans) (turns : nat)
    (prev : cell_index_type) (e : rcs_entry) (rci : rcs_iterator) (to : To) :
  S (length rci) <= turns ->
  deliver_nonrecursive_loop turns nl ci tr prev (e :: rci) to
  = if negb (e_cell_index e =? prev) && negb (e_cell_index e =? ci)
       && cell_is_kept nl (e_cell_index e)
    then deliver_nonrecursive_loop turns nl ci tr prev (drop (e_under e) rci) to
    else match deliver_shape (e_shape e) to (itrans_mul tr (e_trans e)) with
         | (to', true) => deliver_nonrecursive_loop turns nl ci tr (e_cell_index e) rci to'
         | (to', false) => Some (to', false)
         end.
Proof.
  intros Hturns.
  rewrite (deliver_nonrecursive_loop_turns nl ci tr turns (S turns) prev (e :: rci))
    by (simpl; lia).
  reflexivity.
Qed.

Lemma own_entries_length {K : Kernel} (ci : cell_index_type) (tr : ICplxTrans)
    (shapes : list PolygonRef) (below : nat) :
  length (own_entries ci tr shapes below) = length shapes.
Proof. induction shapes; simpl; congruence. Qed.

Lemma deliver_list_app {K : Kernel} {To} {D : DeliverTo To} (tr : ICplxTrans)
    (l1 l2 : list (PolygonRef * ICplxTrans)) (to : To) :
  deliver_list tr (l1 ++ l2) to
  = match deliver_list tr l1 to with
    | (to', true) => deliver_list tr l2 to'
    | (to', false) => (to', false)
    end.
Proof.
  revert to. induction l1 as [|x l1 IH]; intros to; simpl; [done|].
  destruct (deliver_shape x.1 to _) as [to' []]; [apply IH|done].
Qed.

(** The shapes of a cell the iterator is already in are delivered one by
    one. *)
Lemma deliver_own_entries {K : Kernel} {To} {D : DeliverTo To} (nl : option Netlist)
    (ci0 : cell_index_type) (tr : ICplxTrans) (ci : cell_index_type) (tr_n : ICplxTrans)
    (below : nat) :
  forall shapes rest turns (to : To),
    length shapes + length rest <= turns ->
    deliver_nonrecursive_loop turns nl ci0 tr ci (own_entries ci tr_n shapes below ++ rest) to
    = match deliver_list tr (map (fun s => (s, tr_n)) shapes) to with
      | (to', true) => deliver_nonrecursive_loop turns nl ci0 tr ci rest to'
      | (to', false) => Some (to', false)
      end.
Proof.
  induction shapes as [|s shapes IH]; intros rest turns to Hturns; [done|].
  cbn [own_entries app map deliver_list fst snd]. cbn [length] in Hturns.
  rewrite deliver_nonrecursive_loop_step
    by (rewrite length_app, own_entries_length; lia).
  cbn [e_cell_index e_shape e_trans]. rewrite Nat.eqb_refl. cbn [negb andb].
  destruct (deliver_shape s to (itrans_mul tr tr_n)) as [to' []]; [|done].
  apply IH. lia.
Qed.

(** The loop of [deliver_shapes_of_net_nonrecursive] delivers the shapes
    [flattened_shapes] lists, in that order.  [prev] is the starting cell or
    a cell that is neither circuit nor device abstract. *)
Lemma deliver_nonrecursive_tree {K : Kernel} {To} {D : DeliverTo To} (nl : option Netlist)
    (ci0 : cell_index_type) (tr : ICplxTrans) (t : ctree) :
  forall rest turns prev (to : To),
    length (entries_of t) + length rest <= turns ->
    prev = ci0 ∨ cell_is_kept nl prev = false ->
    exists prev',
      (prev' = ci0 ∨ cell_is_kept nl prev' = false)
      ∧ deliver_nonrecursive_loop turns nl ci0 tr prev (entries_of t ++ rest) to
        = match deliver_list tr (flattened_shapes nl ci0 t) to with
          | (to', true) => deliver_nonrecursive_loop turns nl ci0 tr prev' rest to'
          | (to', false) => Some (to', false)
          end.
Proof.
  induction t as [ci tr_n shapes children IHc] using ctree_forest_ind.
  assert (Hforest : forall rest turns prev (to : To),
            length (flat_map entries_of children) + length rest <= turns ->
            prev = ci0 ∨ cell_is_kept nl prev = false ->
            exists prev',
              (prev' = ci0 ∨ cell_is_kept nl prev' = false)
              ∧ deliver_nonrecursive_loop turns nl ci0 tr prev
                  (flat_map entries_of children ++ rest) to
                = match deliver_list tr (flat_map (flattened_shapes nl ci0) children) to with
                  | (to', true) => deliver_nonrecursive_loop turns nl ci0 tr prev' rest to'
                  | (to', false) => Some (to', false)
                  end).
  { clear shapes. induction IHc as [|c children Hc _ IHf]; intros rest turns prev to Hturns Hprev.
    - exists prev. done.
    - cbn [flat_map]. rewrite <- app_assoc.
      cbn [flat_map] in Hturns. rewrite length_app in Hturns.
      destruct (Hc (flat_map entries_of children ++ rest) turns prev to) as (prev1 & Hp1 & ->);
        [rewrite length_app; lia|done|].
      rewrite deliver_list_app.
      destruct (deliver_list tr (flattened_shapes nl ci0 c) to) as [to1 []].
      + destruct (IHf rest turns prev1 to1) as (prev2 & Hp2 & ->); [lia|done|].
        exists prev2. done.
      + exists prev. done. }
  intros rest turns prev to Hturns Hprev.
  cbn [entries_of flattened_shapes] in *.
  rewrite length_app, own_entries_length in Hturns. rewrite <- app_assoc.
  destruct shapes as [|s shapes].
  - cbn [own_entries app map]. rewrite bool_decide_eq_true_2 by done. cbn [negb andb].
    apply Hforest; [simpl in Hturns; lia|done].
  - rewrite bool_decide_eq_false_2 by done. cbn [negb]. rewrite andb_true_l.
    cbn [own_entries app]. cbn [length] in Hturns.
    rewrite deliver_nonrecursive_loop_step
      by (rewrite !length_app, own_entries_length; lia).
    cbn [e_cell_index e_shape e_trans e_under].
    destruct (negb (ci =? ci0) && cell_is_kept nl ci) eqn:Hkept.
    + (* a kept cell that is not the starting cell: skip_cell *)
      apply andb_true_iff in Hkept as [Hne Hk].
      exists prev. split; [done|].
      assert (Hnp : (ci =? prev) = false).
      { apply Nat.eqb_neq. intros ->. destruct Hprev as [->|Hp]; [|congruence].
        by rewrite Nat.eqb_refl in Hne. }
      rewrite Hnp, Hne, Hk. cbn [negb andb deliver_list].
      rewrite app_assoc, drop_app_length'; [done|].
      rewrite length_app, own_entries_length. lia.
    + (* the starting cell or a purged cell: deliver and go on below *)
      assert (Hinv : ci = ci0 ∨ cell_is_kept nl ci = false).
      { apply andb_false_iff in Hkept as [Hne|Hk]; [left|by right].
        apply negb_false_iff, Nat.eqb_eq in Hne. done. }
      assert (Hcond : negb (ci =? prev) && negb (ci =? ci0) && cell_is_kept nl ci = false).
      { rewrite <- andb_assoc, Hkept. apply andb_false_r. }
      rewrite Hcond. cbn [map app deliver_list fst snd].
      destruct (deliver_shape s to (itrans_mul tr tr_n)) as [to1 []]; [|by exists prev].
      rewrite deliver_own_entries by (rewrite length_app; lia).
      rewrite deliver_list_app.
      destruct (deliver_list tr (map (fun s0 => (s0, tr_n)) shapes) to1) as [to2 []];
        [|by exists prev].
      apply Hforest; [lia|done].
Qed.

Lemma deliver_shapes_of_net_nonrecursive_flattened {K : Kernel} {To} {D : DeliverTo To}
    (fuel : nat) (nl : option Netlist) (hc : hier_clusters) (ci : cell_index_type) (cid : nat)
    (layer : nat) (tr : ICplxTrans) (to : To) (t : ctree) :
  cluster_tree fuel hc layer ci cid itrans_unit = Some t ->
  deliver_shapes_of_net_nonrecursive fuel nl hc ci cid layer tr to
  = Some (deliver_list tr (flattened_shapes nl ci t) to).
Proof.
  intros Ht. unfold deliver_shapes_of_net_nonrecursive, rcs_begin. rewrite Ht. simpl.
  destruct (deliver_nonrecursive_tree nl ci tr t [] (length (entries_of t)) ci to)
    as (prev' & _ & Heq); [simpl; lia|by left|].
  rewrite app_nil_r in Heq. rewrite Heq.
  destruct (deliver_list tr (flattened_shapes nl ci t) to) as [to' []]; [|done].
  by destruct (length (entries_of t)).
Qed.

Lemma deliver_recursive_loop_all {K : Kernel} {To} {D : DeliverTo To} (tr : ICplxTrans)
    (t : ctree) (to : To) :
  deliver_recursive_loop tr (entries_of t) to = deliver_list tr (all_shapes t) to.
Proof.
  unfold all_shapes. generalize (entries_of t). intros es. revert to.
  induction es as [|e es IH]; intros to; simpl; [done|].
  destruct (deliver_shape (e_shape e) to _) as [to' []]; [apply IH|done].
Qed.

(** What the three delivery targets make of a list of shapes. *)
Lemma deliver_list_shapes {K : Kernel} (tr : ICplxTrans) (l : list (PolygonRef * ICplxTrans))
    (to : Shapes) :
  deliver_list tr l to
  = (mkShapes (sh_in_layout to)
       (sh_items to ++ map (if sh_in_layout to then shape_in_layout tr else shape_in_region tr) l),
     true).
Proof.
  revert to. induction l as [|s l IH]; intros to; simpl.
  - rewrite app_nil_r. by destruct to.
  - unfold deliver_shape, deliver_shapes.
    destruct (pr_is_box s.1) eqn:Hb; destruct (sh_in_layout to) eqn:Hl;
      rewrite IH; simpl; rewrite ?Hl, <- app_assoc; simpl;
      unfold shape_in_layout, shape_in_region; rewrite Hb; done.
Qed.

Lemma deliver_list_region {K : Kernel} (tr : ICplxTrans) (l : list (PolygonRef * ICplxTrans))
    (to : RegionTarget) :
  deliver_list tr l to = (to ++ map (shape_in_region tr) l, true).
Proof.
  revert to. induction l as [|s l IH]; intros to; simpl.
  - by rewrite app_nil_r.
  - unfold deliver_shape, deliver_region.
    destruct (pr_is_box s.1) eqn:Hb; rewrite IH; simpl; rewrite <- app_assoc; simpl;
      unfold shape_in_region; rewrite Hb; done.
Qed.

Lemma deliver_list_stop_on_first {K : Kernel} (tr : ICplxTrans)
    (l : list (PolygonRef * ICplxTrans)) (to : StopOnFirst) :
  deliver_list tr l to = (to, bool_decide (l = [])).
Proof. by destruct l. Qed.


Lemma clusters1_ranked : clusters_ranked (K := Example.K) ExampleHier.rank1 ExampleHier.clusters1.
Proof.
  intros ci cid c Hc. apply list_elem_of_In in Hc.
  destruct ci as [|[|ci]]; simpl in Hc.
  - destruct cid as [|[|[|[|[|[|[|cid]]]]]]]; simpl in Hc; try tauto.
    + destruct Hc as [<-|[<-|[]]]; simpl; lia.
    + destruct Hc as [<-|[]]; simpl; lia.
  - destruct cid as [|[|cid]]; simpl in Hc; try tauto.
    destruct Hc as [<-|[]]; simpl; lia.
  - tauto.
Qed.


(** The same delivery, evaluated: the box of TOP and the box of the purged
    cell VIA; the polygon of the circuit CHILD and everything below it is
    left out. *)
Example nonrecursive_delivery_example :
  let K := Example.K in
  shapes_of_net_region 3 ExampleHier.facade1 ExampleHier.vdd Example.m1 false
  = Done tt [ShBox 100 Scaling.unit (Scaling.mul Scaling.unit Scaling.unit);
             ShBox 102 Scaling.unit
               (Scaling.mul Scaling.unit (Scaling.mul Scaling.unit ExampleHier.T2))].
Proof. reflexivity. Qed.

Lemma probe_net_climbs_witness :
  let K := Example.K in
  probe_net 3 Example.m1 ExampleHier.probe_point ExampleHier.facade1
  = Done (Some ExampleHier.vdd) ExampleHier.facade1
  ∧ climbs ExampleHier.netlist1 ExampleHier.dbu 0 ExampleHier.child_circuit ExampleHier.net_a
      [ExampleHier.child_inst] ExampleHier.vdd.
Proof.
  intros K.
  destruct (probe_net_climbs (K := Example.K) ExampleHier.facade1 3 (mkDeepLayer 0 1)
              ExampleHier.probe_point (mkNetlistObj 0 ExampleHier.netlist1) 1
              [ExampleHier.child_inst] ExampleHier.child_circuit ExampleHier.net_a
              eq_refl eq_refl eq_refl ltac:(lia) eq_refl eq_refl) as [Hiff _].
  assert (Hprobe : probe_net 3 Example.m1 ExampleHier.probe_point ExampleHier.facade1
                   = Done (Some ExampleHier.vdd) ExampleHier.facade1) by reflexivity.
  split; [exact Hprobe|]. apply (Hiff ExampleHier.vdd). exact Hprobe.
Defined.

(** ** Hierarchy rebuild: the loops over the layer map *)

Lemma cluster_tree_mono {K : Kernel} (hc : hier_clusters) (layer : nat) :
  forall f1 f2 ci cid tr t,
    cluster_tree f1 hc layer ci cid tr = Some t -> f1 <= f2 ->
    cluster_tree f2 hc layer ci cid tr = Some t.
Proof.
  induction f1 as [|f1 IH]; intros f2 ci cid tr t Ht Hle; [done|].
  destruct f2 as [|f2]; [lia|]. simpl in *.
  destruct (mapM _ _) as [children|] eqn:Hm; [|done]. simpl in Ht.
  assert (Hm2 : mapM (fun c => cluster_tree f2 hc layer (inst_cell_index c) (cl_id c)
                                 (itrans_mul tr (inst_trans c)))
                     (connections_for_cluster hc ci cid) = Some children).
  { apply mapM_Some. apply mapM_Some in Hm.
    eapply Forall2_impl; [exact Hm|]. intros c t' Hc. simpl in *. apply IH; [done|lia]. }
  by rewrite Hm2.
Qed.

Lemma nonrecursive_shapes_fuel {K : Kernel} (rank : cell_index_type -> nat)
    (self : LayoutToNetlist) (ci : cell_index_type) (cid layer : nat) (f1 f2 : nat) :
  clusters_ranked rank (m_net_clusters self) ->
  rank ci < f1 -> rank ci < f2 ->
  nonrecursive_shapes f1 self ci cid layer = nonrecursive_shapes f2 self ci cid layer.
Proof.
  intros Hrank H1 H2. unfold nonrecursive_shapes.
  destruct (cluster_tree_total rank _ layer Hrank (S (rank ci)) ci cid itrans_unit)
    as (t & Ht & _); [lia|].
  rewrite (cluster_tree_mono _ _ _ f1 _ _ _ _ Ht) by lia.
  by rewrite (cluster_tree_mono _ _ _ f2 _ _ _ _ Ht) by lia.
Qed.

Lemma deliver_nonrecursive_shapes {K : Kernel} {To} {D : DeliverTo To}
    (rank : cell_index_type -> nat) (self : LayoutToNetlist) (fuel : nat)
    (ci : cell_index_type) (cid layer : nat) (tr : ICplxTrans) (to : To) :
  clusters_ranked rank (m_net_clusters self) ->
  rank ci < fuel ->
  deliver_shapes_of_net_nonrecursive fuel (netlist_data self) (m_net_clusters self)
    ci cid layer tr to
  = Some (deliver_list tr (nonrecursive_shapes fuel self ci cid layer) to).
Proof.
  intros Hrank Hfuel.
  destruct (cluster_tree_total rank _ layer Hrank fuel ci cid itrans_unit Hfuel)
    as (t & Ht & _).
  unfold nonrecursive_shapes. rewrite Ht.
  by apply deliver_shapes_of_net_nonrecursive_flattened.
Qed.

(** The first loop answers whether a mapped layer holds a shape and leaves
    the state alone. *)
Lemma consider_cell_loop_spec {K : Kernel} (rank : cell_index_type -> nat)
    (self : LayoutToNetlist) (fuel : nat) (ci : cell_index_type) (cid : nat)
    (tr : ICplxTrans) (ls : layer_map) (st : BuildState) :
  clusters_ranked rank (m_net_clusters self) ->
  rank ci < fuel ->
  regions_deep ls ->
  consider_cell_loop self fuel ci cid tr ls st
  = Done (any_mapped_shapes fuel self ls ci cid) st.
Proof.
  intros Hrank Hfuel Hdeep.
  induction ls as [|[k [region|]] ls IH]; simpl.
  - done.
  - inversion Hdeep as [|? ? Hr Hdeep']; subst. simpl in Hr.
    destruct region as [|dl]; [done|].
    unfold bind, layer_of, ret. simpl.
    rewrite (deliver_nonrecursive_shapes rank) by done. simpl.
    rewrite deliver_list_stop_on_first. simpl.
    destruct (bool_decide (nonrecursive_shapes fuel self ci cid (dl_layer dl) = [])); simpl.
    + by apply IH.
    + done.
  - inversion Hdeep; subst. by apply IH.
Qed.

Lemma alter_cell_id {K : Kernel} (ci : cell_index_type) (st : BuildState) :
  alter_cell (fun c => c) ci st = st.
Proof.
  destruct st as [[cells dbu] cmap]. unfold alter_cell. simpl.
  by rewrite list_alter_id.
Qed.

Lemma alter_cell_compose {K : Kernel} (f g : Cell -> Cell) (ci : cell_index_type)
    (st : BuildState) :
  alter_cell g ci (alter_cell f ci st) = alter_cell (fun c => g (f c)) ci st.
Proof.
  unfold alter_cell. simpl. by rewrite list_alter_alter_eq.
Qed.

Lemma alter_cell_ext {K : Kernel} (f g : Cell -> Cell) (ci : cell_index_type)
    (st : BuildState) :
  (forall c, lay_cells (bs_target st) !! ci = Some c -> f c = g c) ->
  alter_cell f ci st = alter_cell g ci st.
Proof.
  intros Hfg. unfold alter_cell. f_equal. f_equal.
  by apply list_alter_ext.
Qed.

(** The second loop appends the shapes of the mapped layers to the target
    cell and changes nothing else. *)
Lemma deliver_layers_spec {K : Kernel} (rank : cell_index_type -> nat)
    (self : LayoutToNetlist) (lmap : layer_map) (fuel : nat) (ci : cell_index_type)
    (cid : nat) (tr : ICplxTrans) (target_cell : cell_index_type) (st : BuildState) :
  clusters_ranked rank (m_net_clusters self) ->
  rank ci < fuel ->
  regions_deep lmap ->
  deliver_layers self lmap fuel ci cid tr target_cell st
  = Done tt (alter_cell (layers_delivered fuel self ci cid tr lmap) target_cell st).
Proof.
  intros Hrank Hfuel. unfold deliver_layers, layers_delivered.
  revert st. induction lmap as [|[k r] ls IH]; intros st Hdeep.
  - simpl. by rewrite alter_cell_id.
  - inversion Hdeep as [|? ? Hr Hdeep']; subst. simpl in Hr.
    cbn [for_each fold_left]. unfold bind at 1.
    assert (Hbody :
      (match r with
       | None => ret tt
       | Some region =>
           (lid <- layer_of region ;;
            st0 <- get ;;
            res <- with_fuel (deliver_shapes_of_net_nonrecursive fuel (netlist_data self)
                               (m_net_clusters self) ci cid lid tr
                               (shapes_of_cell st0 target_cell k)) ;;
            modify (alter_cell (cell_set_shapes k (sh_items res.1)) target_cell))%l2n
       end) st
      = Done tt (alter_cell (fun c => layer_delivered fuel self ci cid tr c (k, r))
                            target_cell st)).
    { destruct r as [[|dl]|]; simpl.
      - done.
      - unfold bind, layer_of, ret, get, with_fuel, modify. simpl.
        rewrite (deliver_nonrecursive_shapes rank) by done.
        rewrite deliver_list_shapes. simpl. f_equal.
        apply alter_cell_ext. intros c Hc. unfold layer_delivered, shapes_at. simpl.
        by rewrite Hc.
      - unfold ret. by rewrite alter_cell_id. }
    simpl in Hbody. simpl. rewrite Hbody.
    rewrite IH by done. f_equal. rewrite alter_cell_compose. done.
Qed.

(** ** Hierarchy rebuild: how cells grow *)

Lemma cell_grows_refl {K : Kernel} (Ps : Shape -> Prop) (Pi : CellInstArray -> Prop)
    (c : Cell) :
  cell_grows Ps Pi c c.
Proof.
  split_and!; [done| |].
  - exists []. by rewrite app_nil_r.
  - intros l. exists []. by rewrite app_nil_r.
Qed.

Lemma cell_grows_trans {K : Kernel} (Ps : Shape -> Prop) (Pi : CellInstArray -> Prop)
    (c1 c2 c3 : Cell) :
  cell_grows Ps Pi c1 c2 -> cell_grows Ps Pi c2 c3 -> cell_grows Ps Pi c1 c3.
Proof.
  intros (Hn1 & (i1 & Hi1 & Hp1) & Hs1) (Hn2 & (i2 & Hi2 & Hp2) & Hs2).
  split_and!.
  - congruence.
  - exists (i1 ++ i2). rewrite Hi2, Hi1, app_assoc. split; [done|]. by apply Forall_app.
  - intros l. destruct (Hs1 l) as (s1 & Hl1 & Hq1), (Hs2 l) as (s2 & Hl2 & Hq2).
    exists (s1 ++ s2). rewrite Hl2, Hl1, app_assoc. split; [done|]. by apply Forall_app.
Qed.

Lemma shapes_at_set {K : Kernel} (k : nat) (v : list Shape) (c : Cell) (l : nat) :
  shapes_at (cell_set_shapes k v c) l = if decide (k = l) then v else shapes_at c l.
Proof.
  unfold shapes_at, cell_set_shapes. simpl. rewrite lookup_insert. by case_decide.
Qed.

Lemma shape_in_layout_delivered {K : Kernel} (tr : ICplxTrans) (s : PolygonRef * ICplxTrans) :
  delivered_with tr (shape_in_layout tr s).
Proof. exists s.2. unfold shape_in_layout. by destruct (pr_is_box s.1). Qed.

Lemma layers_delivered_grows {K : Kernel} (Pi : CellInstArray -> Prop) (fuel : nat)
    (self : LayoutToNetlist) (ci : cell_index_type) (cid : nat) (tr : ICplxTrans)
    (ls : layer_map) (c : Cell) :
  cell_grows (delivered_with tr) Pi c (layers_delivered fuel self ci cid tr ls c).
Proof.
  unfold layers_delivered. revert c. induction ls as [|[k r] ls IH]; intros c; simpl.
  - apply cell_grows_refl.
  - eapply cell_grows_trans; [|apply IH].
    unfold layer_delivered. simpl. destruct r as [[|dl]|]; try apply cell_grows_refl.
    split_and!; [done| |].
    + exists []. by rewrite app_nil_r.
    + intros l. rewrite shapes_at_set. case_decide as Hl.
      * subst l. eexists. split; [done|]. apply Forall_forall. intros s Hs.
        apply list_elem_of_In, in_map_iff in Hs as (x & <- & _).
        apply shape_in_layout_delivered.
      * exists []. by rewrite app_nil_r.
Qed.

Lemma cell_add_inst_grows {K : Kernel} (Ps : Shape -> Prop) (Pi : CellInstArray -> Prop)
    (i : CellInstArray) (c : Cell) :
  Pi i -> cell_grows Ps Pi c (cell_add_inst i c).
Proof.
  intros Hi. split_and!; [done| |].
  - exists [i]. split; [done|]. by constructor.
  - intros l. exists []. by rewrite app_nil_r.
Qed.

Lemma below_tr_mag {K : Kernel} (k : nat) (X : ICplxTrans) :
  below k (tr_mag X) = below (S k) X.
Proof. unfold below. by rewrite <- !Nat.iter_succ_r. Qed.

(** ** Hierarchy rebuild: the steps of [build_net_rec] *)

Lemma rebuilt_refl {K : Kernel} (self : LayoutToNetlist) (ccp dcp : option string)
    (tc : cell_index_type) (X : ICplxTrans) (st : BuildState) :
  rebuilt self ccp dcp tc X st st.
Proof.
  constructor; try done.
  - intros i c Hc. exists c. split; [done|]. case_decide; [apply cell_grows_refl|done].
  - intros i c' Hi Hc. apply lookup_lt_Some in Hc. lia.
  - intros key v Hv. by left.
  - congruence.
  - intros v Hv. lia.
Qed.

(** A step that only lets the target cell grow. *)
Lemma rebuilt_alter_target {K : Kernel} (self : LayoutToNetlist) (ccp dcp : option string)
    (tc : cell_index_type) (X : ICplxTrans) (f : Cell -> Cell) (st0 st : BuildState) :
  tc < length (lay_cells (bs_target st0)) ->
  (forall c, cell_grows (delivered_with X) (placed_with X) c (f c)) ->
  rebuilt self ccp dcp tc X st0 st ->
  rebuilt self ccp dcp tc X st0 (alter_cell f tc st).
Proof.
  intros Htc Hf [Hdbu Hlen Hold Hnew Hmemo Hmnew Hminj Hmcell].
  constructor; simpl; try done.
  - by rewrite length_alter.
  - intros i c Hc. destruct (Hold i c Hc) as (c' & Hc' & Hrel).
    destruct (decide (i = tc)) as [->|Hi].
    + rewrite list_lookup_alter_eq, Hc'. simpl. eexists. split; [done|].
      eapply cell_grows_trans; [exact Hrel|apply Hf].
    + exists c'. split; [|done]. by rewrite list_lookup_alter_ne.
  - intros i c' Hi Hc'. rewrite list_lookup_alter_ne in Hc' by lia. eauto.
  - intros key v Hv. rewrite length_alter. eauto.
  - intros v Hv. rewrite length_alter in Hv.
    destruct (Hmcell v Hv) as (key & c' & H1 & H2 & H3 & H4).
    exists key, c'. split_and!; try done. rewrite list_lookup_alter_ne by lia. done.
Qed.

(** [add_cell] for a child cell followed by the entry in the memo. *)
Lemma rebuilt_add_child {K : Kernel} (self : LayoutToNetlist) (ccp dcp : option string)
    (tc : cell_index_type) (X : ICplxTrans) (key : cell_index_type * nat) (nm : string)
    (st0 st : BuildState) :
  bs_cmap st !! key = None ->
  child_cell_name self ccp dcp key.1 nm ->
  rebuilt self ccp dcp tc X st0 st ->
  rebuilt self ccp dcp tc X st0
    (cmap_insert key (Some (length (lay_cells (bs_target st))))
       (mkBuildState
          (mkLayout (lay_cells (bs_target st) ++ [mkCell nm ∅ []]) (lay_dbu (bs_target st)))
          (bs_cmap st))).
Proof.
  intros Hkey Hnm [Hdbu Hlen Hold Hnew Hmemo Hmnew Hminj Hmcell].
  assert (Hkey0 : bs_cmap st0 !! key = None) by by eapply lookup_weaken_None.
  constructor; simpl; try done.
  - rewrite length_app. simpl. lia.
  - intros i c Hc. destruct (Hold i c Hc) as (c' & Hc' & Hrel).
    exists c'. split; [|done]. by apply lookup_app_l_Some.
  - intros i c' Hi Hc'. apply lookup_app_Some in Hc' as [Hc'|[Hge Hc']]; [eauto|].
    apply list_lookup_singleton_Some in Hc' as [_ <-].
    exists nm, 0. apply cell_grows_refl.
  - etrans; [exact Hmemo|]. by apply insert_subseteq.
  - intros key' v Hv. rewrite length_app. simpl.
    destruct (decide (key = key')) as [<-|Hk].
    + rewrite lookup_insert_eq in Hv. injection Hv as <-. right. split; [done|lia].
    + rewrite lookup_insert_ne in Hv by done.
      destruct (Hmnew key' v Hv) as [?|[? ?]]; [by left|right]. split; [done|lia].
  - intros key1 key2 v H1 H2 Hv1 Hv2.
    destruct (decide (key = key1)) as [<-|Hk1], (decide (key = key2)) as [<-|Hk2];
      [done| | |].
    + rewrite lookup_insert_eq in Hv1. rewrite lookup_insert_ne in Hv2 by done.
      injection Hv1 as <-. destruct (Hmnew key2 _ Hv2) as [?|[_ ?]]; [congruence|lia].
    + rewrite lookup_insert_eq in Hv2. rewrite lookup_insert_ne in Hv1 by done.
      injection Hv2 as <-. destruct (Hmnew key1 _ Hv1) as [?|[_ ?]]; [congruence|lia].
    + rewrite lookup_insert_ne in Hv1, Hv2 by done. by eapply Hminj.
  - intros v Hv. rewrite length_app in Hv. simpl in Hv.
    destruct (decide (v = length (lay_cells (bs_target st)))) as [->|Hne].
    + exists key, (mkCell nm ∅ []). split_and!; try done.
      * apply lookup_insert_eq.
      * rewrite lookup_app_r by lia. by rewrite Nat.sub_diag.
    + destruct (Hmcell v ltac:(lia)) as (key' & c' & H1 & H2 & H3 & H4).
      exists key', c'. split_and!; try done.
      * rewrite lookup_insert_ne; [done|]. intros ->. congruence.
      * by apply lookup_app_l_Some.
Qed.

(** The entry for a child cell that gets no target cell. *)
Lemma rebuilt_memo_none {K : Kernel} (self : LayoutToNetlist) (ccp dcp : option string)
    (tc : cell_index_type) (X : ICplxTrans) (key : cell_index_type * nat)
    (st0 st : BuildState) :
  bs_cmap st !! key = None ->
  rebuilt self ccp dcp tc X st0 st ->
  rebuilt self ccp dcp tc X st0 (cmap_insert key None st).
Proof.
  intros Hkey [Hdbu Hlen Hold Hnew Hmemo Hmnew Hminj Hmcell].
  constructor; simpl; try done.
  - etrans; [exact Hmemo|]. by apply insert_subseteq.
  - intros key' v Hv. destruct (decide (key = key')) as [<-|Hk].
    + by rewrite lookup_insert_eq in Hv.
    + rewrite lookup_insert_ne in Hv by done. eauto.
  - intros key1 key2 v H1 H2 Hv1 Hv2.
    destruct (decide (key = key1)) as [<-|Hk1]; [by rewrite lookup_insert_eq in Hv1|].
    destruct (decide (key = key2)) as [<-|Hk2]; [by rewrite lookup_insert_eq in Hv2|].
    rewrite lookup_insert_ne in Hv1, Hv2 by done. by eapply Hminj.
  - intros v Hv. destruct (Hmcell v Hv) as (key' & c' & H1 & H2 & H3 & H4).
    exists key', c'. split_and!; try done.
    rewrite lookup_insert_ne; [done|]. intros ->. congruence.
Qed.

(** A recursive call into a cell that was just added. *)
Lemma rebuilt_child {K : Kernel} (self : LayoutToNetlist) (ccp dcp : option string)
    (tc tc' : cell_index_type) (X : ICplxTrans) (nm : string) (st0 st1 st2 : BuildState) :
  length (lay_cells (bs_target st0)) <= tc' ->
  lay_cells (bs_target st1) !! tc' = Some (mkCell nm ∅ []) ->
  rebuilt self ccp dcp tc X st0 st1 ->
  rebuilt self ccp dcp tc' (tr_mag X) st1 st2 ->
  rebuilt self ccp dcp tc X st0 st2.
Proof.
  intros Htc' Hempty [Hdbu Hlen Hold Hnew Hmemo Hmnew Hminj Hmcell]
    [Hdbu' Hlen' Hold' Hnew' Hmemo' Hmnew' Hminj' Hmcell'].
  constructor.
  - congruence.
  - lia.
  - intros i c Hc. destruct (Hold i c Hc) as (c1 & Hc1 & Hrel).
    destruct (Hold' i c1 Hc1) as (c2 & Hc2 & Hrel').
    apply lookup_lt_Some in Hc. rewrite decide_False in Hrel' by lia. subst c2. eauto.
  - intros i c2 Hi Hc2.
    destruct (decide (i < length (lay_cells (bs_target st1)))) as [Hlt|Hge].
    + destruct (lookup_lt_is_Some_2 _ _ Hlt) as [c1 Hc1].
      destruct (Hold' i c1 Hc1) as (c2' & Hc2' & Hrel').
      rewrite Hc2 in Hc2'. injection Hc2' as <-.
      case_decide as Hi'.
      * subst i. rewrite Hempty in Hc1. injection Hc1 as <-. exists nm, 0. exact Hrel'.
      * subst c2. eauto.
    + destruct (Hnew' i c2 ltac:(lia) Hc2) as (nm' & k & Hg).
      exists nm', (S k). by rewrite <- below_tr_mag.
  - by etrans.
  - intros key v Hv. destruct (Hmnew' key v Hv) as [Hv1|[Hv1 Hr]].
    + destruct (Hmnew key v Hv1) as [?|[? ?]]; [by left|right]. split; [done|lia].
    + right. split; [by eapply lookup_weaken_None|lia].
  - intros key1 key2 v H1 H2 Hv1 Hv2.
    destruct (Hmnew' key1 v Hv1) as [Ha|[Ha Hra]], (Hmnew' key2 v Hv2) as [Hb|[Hb Hrb]].
    + by eapply Hminj.
    + destruct (Hmnew key1 v Ha) as [?|[_ ?]]; [congruence|lia].
    + destruct (Hmnew key2 v Hb) as [?|[_ ?]]; [congruence|lia].
    + by eapply Hminj'.
  - intros v Hv.
    destruct (decide (v < length (lay_cells (bs_target st1)))) as [Hlt|Hge].
    + destruct (Hmcell v ltac:(lia)) as (key & c1 & H1 & H2 & H3 & H4).
      destruct (Hold' v c1 H3) as (c2 & Hc2 & Hrel').
      exists key, c2. split_and!; try done.
      * by eapply lookup_weaken.
      * case_decide; [|by subst].
        destruct Hrel' as (-> & _). done.
    + destruct (Hmcell' v ltac:(lia)) as (key & c2 & H1 & H2 & H3 & H4).
      exists key, c2. split_and!; try done. by eapply lookup_weaken_None.
Qed.

(** ** Hierarchy rebuild: the recursion *)

Lemma placement_placed_with {K : Kernel} (tr : ICplxTrans) (idx : cell_index_type)
    (c : ClusterInstance) :
  placed_with tr
    (mkCellInstArray idx
       (itrans_transform_into (itrans_of_mag (itrans_mag tr))
          (itrans_mul (itrans_mul tr (itrans_of_mag (dbl_div dbl_one (itrans_mag tr))))
             (inst_trans c)))).
Proof. by exists (inst_trans c). Qed.

(** One connection: the child cell is made at most once, and placed. *)
Lemma place_child_rebuilds {K : Kernel} (self : LayoutToNetlist) (ccp dcp : option string)
    (recurse : cell_index_type -> nat -> cell_index_type -> ICplxTrans -> Build unit)
    (tc : cell_index_type) (tr : ICplxTrans) (c : ClusterInstance) (st0 st : BuildState) :
  is_Some (mp_netlist self) ->
  rebuilds self ccp dcp recurse (tr_mag tr) c ->
  tc < length (lay_cells (bs_target st0)) ->
  rebuilt self ccp dcp tc tr st0 st ->
  exists st',
    place_child self recurse tc ccp dcp tr c st = Done tt st'
    ∧ rebuilt self ccp dcp tc tr st0 st'.
Proof.
  intros [o Ho] Hrec Htc Hrel. unfold place_child.
  unfold bind at 1. unfold get at 1.
  destruct (bs_cmap st !! (inst_cell_index c, cl_id c)) as [[idx|]|] eqn:Hkey.
  - (* already memoized with a target cell *)
    unfold bind, ret, insert_inst, modify. eexists. split; [done|].
    apply rebuilt_alter_target; [done| |done].
    intros c0. apply cell_add_inst_grows, placement_placed_with.
  - (* already memoized without a target cell *)
    unfold bind, ret. eauto.
  - unfold netlist_data. rewrite Ho. cbn [fmap option_fmap option_map].
    unfold bind at 1. unfold bind at 1. unfold ret at 1.
    destruct (if device_abstract_by_cell_index (obj_data o) (inst_cell_index c)
              then dcp else ccp) as [np|] eqn:Hnp.
    + (* a new target cell *)
      set (nm := np +:+ il_cell_name (internal_layout self) (inst_cell_index c)).
      set (st1 := cmap_insert (inst_cell_index c, cl_id c)
                    (Some (length (lay_cells (bs_target st))))
                    (mkBuildState
                       (mkLayout (lay_cells (bs_target st) ++ [mkCell nm ∅ []])
                                 (lay_dbu (bs_target st)))
                       (bs_cmap st))).
      assert (Hrel1 : rebuilt self ccp dcp tc tr st0 st1).
      { apply (rebuilt_add_child self ccp dcp tc tr
                 (inst_cell_index c, cl_id c) nm st0 st); [done| |done].
        exists (obj_data o), np. unfold netlist_data. rewrite Ho. done. }
      destruct (Hrec (length (lay_cells (bs_target st))) st1) as (st2 & Hst2 & Hrel2).
      { subst st1. simpl. rewrite length_app. simpl. lia. }
      exists (alter_cell
                (cell_add_inst
                   (mkCellInstArray (length (lay_cells (bs_target st)))
                      (itrans_transform_into (itrans_of_mag (itrans_mag tr))
                         (itrans_mul
                            (itrans_mul tr (itrans_of_mag (dbl_div dbl_one (itrans_mag tr))))
                            (inst_trans c))))) tc st2).
      split.
      * unfold add_cell, insert_inst, bind, get, put, modify, ret. simpl.
        fold nm. fold st1. unfold tr_mag in Hst2. by rewrite Hst2.
      * apply rebuilt_alter_target; [done| |].
        { intros c0. apply cell_add_inst_grows, placement_placed_with. }
        eapply (rebuilt_child self ccp dcp tc (length (lay_cells (bs_target st))) tr nm st0 st1);
          [| |done|done].
        -- destruct Hrel. lia.
        -- subst st1. simpl. rewrite lookup_app_r by lia. by rewrite Nat.sub_diag.
    + (* no name prefix: the marker *)
      unfold bind, modify, ret. eexists. split; [done|].
      by apply rebuilt_memo_none.
Qed.

Lemma place_children_rebuild {K : Kernel} (self : LayoutToNetlist) (ccp dcp : option string)
    (recurse : cell_index_type -> nat -> cell_index_type -> ICplxTrans -> Build unit)
    (tc : cell_index_type) (tr : ICplxTrans) (st0 : BuildState) :
  is_Some (mp_netlist self) ->
  tc < length (lay_cells (bs_target st0)) ->
  forall cs st,
    Forall (rebuilds self ccp dcp recurse (tr_mag tr)) cs ->
    rebuilt self ccp dcp tc tr st0 st ->
    exists st',
      for_each cs (place_child self recurse tc ccp dcp tr) st = Done tt st'
      ∧ rebuilt self ccp dcp tc tr st0 st'.
Proof.
  intros Hnl Htc. induction cs as [|c cs IH]; intros st Hrec Hrel.
  - exists st. done.
  - inversion Hrec as [|? ? Hc Hcs]; subst.
    destruct (place_child_rebuilds self ccp dcp recurse tc tr c st0 st Hnl Hc Htc Hrel)
      as (st1 & Hst1 & Hrel1).
    destruct (IH st1 Hcs Hrel1) as (st2 & Hst2 & Hrel2).
    exists st2. split; [|done]. cbn [for_each]. unfold bind. by rewrite Hst1.
Qed.

(** The part of [build_net_rec] after the net cell: with fuel beyond the
    depth of the cluster hierarchy, deep regions and a netlist, it returns
    and the target layout is rebuilt as [rebuilt] says. *)
Lemma build_net_rec_rebuilds {K : Kernel} (rank : cell_index_type -> nat)
    (self : LayoutToNetlist) (lmap : layer_map) :
  clusters_ranked rank (m_net_clusters self) ->
  regions_deep lmap ->
  is_Some (mp_netlist self) ->
  forall fuel ci cid tc net ccp dcp tr st,
    rank ci + 2 <= fuel ->
    tc < length (lay_cells (bs_target st)) ->
    exists st',
      build_net_rec self lmap fuel ci cid tc net None ccp dcp tr st = Done tt st'
      ∧ rebuilt self ccp dcp tc tr st st'.
Proof.
  intros Hrank Hdeep Hnl.
  induction fuel as [|fuel IH]; intros ci cid tc net ccp dcp tr st Hfuel Htc; [lia|].
  cbn [build_net_rec]. unfold bind at 1. unfold ret at 1.
  unfold bind at 1. rewrite (deliver_layers_spec rank) by (done || lia).
  set (st1 := alter_cell _ tc st).
  assert (Hrel1 : rebuilt self ccp dcp tc tr st st1).
  { apply rebuilt_alter_target; [done| |apply rebuilt_refl].
    intros c. apply layers_delivered_grows. }
  destruct (negb (bool_decide (is_Some ccp)) && negb (bool_decide (is_Some dcp))).
  - exists st1. done.
  - apply place_children_rebuild; [done|done| |done].
    apply Forall_forall. intros c Hc tci st' Htci.
    apply IH; [|done]. pose proof (Hrank ci cid c Hc). lia.
Qed.

Lemma any_mapped_shapes_fuel {K : Kernel} (rank : cell_index_type -> nat)
    (self : LayoutToNetlist) (lmap : layer_map) (ci : cell_index_type) (cid : nat)
    (f1 f2 : nat) :
  clusters_ranked rank (m_net_clusters self) ->
  rank ci < f1 -> rank ci < f2 ->
  any_mapped_shapes f1 self lmap ci cid = any_mapped_shapes f2 self lmap ci cid.
Proof.
  intros Hrank H1 H2. unfold any_mapped_shapes. induction lmap as [|[k r] ls IH]; [done|].
  simpl. rewrite IH. destruct r as [[|dl]|]; try done.
  by rewrite (nonrecursive_shapes_fuel rank self ci cid (dl_layer dl) f1 f2).
Qed.

(** [build_net_rec] with a net cell prefix: either the shortcut, or the net
    cell is made and placed and the rest runs on the net cell. *)
Lemma build_net_rec_net_cell {K : Kernel} (rank : cell_index_type -> nat)
    (self : LayoutToNetlist) (lmap : layer_map) (fuel : nat) (ci : cell_index_type)
    (cid : nat) (tc : cell_index_type) (n : Net) (prefix : string) (ccp dcp : option string)
    (tr : ICplxTrans) (st : BuildState) :
  clusters_ranked rank (m_net_clusters self) ->
  regions_deep lmap ->
  rank ci + 2 <= fuel ->
  build_net_rec self lmap fuel ci cid tc (Some n) (Some prefix) ccp dcp tr st
  = if bool_decide (is_Some ccp)
       && negb (bool_decide (connections_for_cluster (m_net_clusters self) ci cid = []))
       || any_mapped_shapes fuel self lmap ci cid
    then build_net_rec self lmap fuel ci cid (length (lay_cells (bs_target st))) (Some n)
           None ccp dcp tr (with_net_cell (prefix +:+ net_expanded_name n) tc st)
    else Done tt st.
Proof.
  intros Hrank Hdeep Hfuel. destruct fuel as [|fuel]; [lia|].
  rewrite (any_mapped_shapes_fuel rank self lmap ci cid (S fuel) fuel) by (done || lia).
  cbn [build_net_rec]. unfold bind at 1. unfold bind at 1.
  destruct (bool_decide (is_Some ccp)
            && negb (bool_decide (connections_for_cluster (m_net_clusters self) ci cid = [])));
    cbn [orb].
  - reflexivity.
  - rewrite (consider_cell_loop_spec rank) by (done || lia).
    destruct (any_mapped_shapes fuel self lmap ci cid); reflexivity.
Qed.

(** With a net cell prefix, [build_net_rec] returns; either it took the
    shortcut, or the net cell was added under its name and placed once into
    the target cell, and everything else was rendered below the net cell. *)
Lemma build_net_rec_makes_net_cell {K : Kernel} (rank : cell_index_type -> nat)
    (self : LayoutToNetlist) (lmap : layer_map) (fuel : nat) (ci : cell_index_type)
    (cid : nat) (tc : cell_index_type) (n : Net) (prefix : string) (ccp dcp : option string)
    (tr : ICplxTrans) (st : BuildState) :
  clusters_ranked rank (m_net_clusters self) ->
  regions_deep lmap ->
  is_Some (mp_netlist self) ->
  rank ci + 2 <= fuel ->
  tc < length (lay_cells (bs_target st)) ->
  exists st',
    build_net_rec self lmap fuel ci cid tc (Some n) (Some prefix) ccp dcp tr st = Done tt st'
    ∧ if bool_decide (is_Some ccp)
         && negb (bool_decide (connections_for_cluster (m_net_clusters self) ci cid = []))
         || any_mapped_shapes fuel self lmap ci cid
      then exists net_cell,
          lay_cells (bs_target st') !! length (lay_cells (bs_target st)) = Some net_cell
          ∧ cell_grows (delivered_with tr) (placed_with tr)
              (mkCell (prefix +:+ net_expanded_name n) ∅ []) net_cell
          ∧ (forall c,
               lay_cells (bs_target st) !! tc = Some c ->
               lay_cells (bs_target st') !! tc
               = Some (cell_add_inst
                         (mkCellInstArray (length (lay_cells (bs_target st))) itrans_unit) c))
          ∧ (forall i c,
               i ≠ tc -> lay_cells (bs_target st) !! i = Some c ->
               lay_cells (bs_target st') !! i = Some c)
      else st' = st.
Proof.
  intros Hrank Hdeep Hnl Hfuel Htc.
  rewrite (build_net_rec_net_cell rank) by done.
  destruct (bool_decide (is_Some ccp)
            && negb (bool_decide (connections_for_cluster (m_net_clusters self) ci cid = []))
            || any_mapped_shapes fuel self lmap ci cid); [|by exists st].
  set (n0 := length (lay_cells (bs_target st))).
  set (st1 := with_net_cell (prefix +:+ net_expanded_name n) tc st).
  assert (Hlen1 : length (lay_cells (bs_target st1)) = S n0).
  { subst st1. unfold with_net_cell. simpl. rewrite length_alter, length_app. simpl.
    subst n0. lia. }
  destruct (build_net_rec_rebuilds rank self lmap Hrank Hdeep Hnl fuel ci cid n0 (Some n)
              ccp dcp tr st1 Hfuel ltac:(lia)) as (st' & Hst' & Hrel).
  assert (Hcell1 : lay_cells (bs_target st1) !! n0
                   = Some (mkCell (prefix +:+ net_expanded_name n) ∅ [])).
  { subst st1. unfold with_net_cell. simpl.
    rewrite list_lookup_alter_ne by (subst n0; lia).
    rewrite lookup_app_r by (subst n0; lia). subst n0. by rewrite Nat.sub_diag. }
  destruct (rb_old _ _ _ _ _ _ _ Hrel n0 _ Hcell1) as (net_cell & Hnet & Hgrow).
  rewrite decide_True in Hgrow by done.
  exists st'. split; [done|]. exists net_cell. split_and!; try done.
  - intros c Hc.
    assert (Hc1 : lay_cells (bs_target st1) !! tc
                  = Some (cell_add_inst (mkCellInstArray n0 itrans_unit) c)).
    { subst st1. unfold with_net_cell. simpl. rewrite list_lookup_alter_eq.
      by rewrite (lookup_app_l_Some _ _ _ _ Hc). }
    destruct (rb_old _ _ _ _ _ _ _ Hrel tc _ Hc1) as (c' & Hc' & Heq).
    rewrite decide_False in Heq by (subst n0; lia). by subst c'.
  - intros i c Hne Hc.
    assert (Hc1 : lay_cells (bs_target st1) !! i = Some c).
    { subst st1. unfold with_net_cell. simpl. rewrite list_lookup_alter_ne by done.
      by apply lookup_app_l_Some. }
    destruct (rb_old _ _ _ _ _ _ _ Hrel i _ Hc1) as (c' & Hc' & Heq).
    apply lookup_lt_Some in Hc.
    rewrite decide_False in Heq by (subst n0; lia). by subst c'.
Qed.

(** C2, as amended.  With a net cell prefix, [build_net_rec] returns at once
    and leaves the target layout as it is when the net has no shape on any
    mapped layer and either has no connection or no circuit cell prefix was
    given.  When it has a shape on a mapped layer, or a connection and a
    circuit cell prefix, the cell [net_cell_name_prefix + expanded_name] is
    added to the layout and the target cell gets exactly one more instance,
    the one of the net cell; its shapes and all other cells stay as they
    were.  (A shape counts if non-recursive delivery yields it.) *)
Theorem net_cell_elision {K : Kernel} (rank : cell_index_type -> nat)
    (self : LayoutToNetlist) (lmap : layer_map) (fuel : nat) (ci : cell_index_type)
    (cid : nat) (tc : cell_index_type) (n : Net) (prefix : string) (ccp dcp : option string)
    (tr : ICplxTrans) (st : BuildState) :
  clusters_ranked rank (m_net_clusters self) ->
  regions_deep lmap ->
  is_Some (mp_netlist self) ->
  rank ci + 2 <= fuel ->
  tc < length (lay_cells (bs_target st)) ->
  let conns := connections_for_cluster (m_net_clusters self) ci cid in
  let run := build_net_rec self lmap fuel ci cid tc (Some n) (Some prefix) ccp dcp tr st in
  (any_mapped_shapes fuel self lmap ci cid = true
   <-> exists k dl, (k, Some (DeepRegion dl)) ∈ lmap
                    ∧ nonrecursive_shapes fuel self ci cid (dl_layer dl) ≠ [])
  ∧ (any_mapped_shapes fuel self lmap ci cid = false ->
     conns = [] ∨ ccp = None ->
     run = Done tt st)
  ∧ (any_mapped_shapes fuel self lmap ci cid = true ∨ (conns ≠ [] ∧ is_Some ccp) ->
     exists st' net_cell,
       run = Done tt st'
       ∧ lay_cells (bs_target st') !! length (lay_cells (bs_target st)) = Some net_cell
       ∧ cell_name net_cell = prefix +:+ net_expanded_name n
       ∧ (forall c,
            lay_cells (bs_target st) !! tc = Some c ->
            lay_cells (bs_target st') !! tc
            = Some (cell_add_inst
                      (mkCellInstArray (length (lay_cells (bs_target st))) itrans_unit) c))
       ∧ (forall i c,
            i ≠ tc -> lay_cells (bs_target st) !! i = Some c ->
            lay_cells (bs_target st') !! i = Some c)).
Proof.
  intros Hrank Hdeep Hnl Hfuel Htc conns run.
  destruct (build_net_rec_makes_net_cell rank self lmap fuel ci cid tc n prefix ccp dcp tr st
              Hrank Hdeep Hnl Hfuel Htc) as (st' & Hrun & Hcases).
  fold run in Hrun. fold conns in Hcases. rewrite Hrun.
  split_and!.
  - unfold any_mapped_shapes. rewrite existsb_exists. split.
    + intros ([k r] & Hin & Hr). simpl in Hr. destruct r as [[|dl]|]; try done.
      exists k, dl. split; [by apply list_elem_of_In|].
      apply negb_true_iff, bool_decide_eq_false in Hr. done.
    + intros (k & dl & Hin & Hne). exists (k, Some (DeepRegion dl)).
      split; [by apply list_elem_of_In|]. simpl.
      by rewrite bool_decide_eq_false_2.
  - intros Hno Hor. rewrite Hno, orb_false_r in Hcases.
    destruct Hor as [Hc| ->].
    + rewrite (bool_decide_eq_true_2 _ Hc), andb_false_r in Hcases. by subst.
    + simpl in Hcases. by subst.
  - intros Hor.
    assert (Hcond : bool_decide (is_Some ccp) && negb (bool_decide (conns = []))
                    || any_mapped_shapes fuel self lmap ci cid = true).
    { destruct Hor as [->|[Hc Hp]]; [apply orb_true_r|].
      rewrite (bool_decide_eq_true_2 _ Hp). by rewrite (bool_decide_eq_false_2 _ Hc). }
    rewrite Hcond in Hcases. destruct Hcases as (net_cell & Hnet & (Hname & _) & Htc' & Hothers).
    exists st', net_cell. split_and!; done.
Qed.

Lemma lmap1_deep : regions_deep ExampleHier.lmap1.
Proof. repeat constructor. Qed.

Lemma net_cell_elision_witness :
  let K := Example.K in
  exists st' net_cell,
    build_net_rec ExampleHier.facade1 ExampleHier.lmap1 4 0 5 0 (Some ExampleHier.vdd)
      (Some "N$") (Some "C$") (Some "D$") Scaling.unit ExampleBuild.start = Done tt st'
    ∧ lay_cells (bs_target st') !! 1 = Some net_cell
    ∧ cell_name net_cell = "N$VDD".
Proof.
  intros K.
  destruct (net_cell_elision (K := Example.K) ExampleHier.rank1 ExampleHier.facade1
              ExampleHier.lmap1 4 0 5 0 ExampleHier.vdd "N$" (Some "C$") (Some "D$")
              Scaling.unit ExampleBuild.start clusters1_ranked lmap1_deep
              (ex_intro _ _ eq_refl) ltac:(simpl; lia) ltac:(simpl; lia))
    as (_ & _ & Hmade).
  destruct Hmade as (st' & net_cell & Hrun & Hcell & Hname & _).
  - left. reflexivity.
  - exists st', net_cell. split_and!; [exact Hrun|exact Hcell|exact Hname].
Defined.

(** The net GND has a connection, but without a circuit cell prefix and
    without shapes on the mapped layer no net cell is made for it. *)
Lemma net_cell_elided_despite_connection :
  let K := Example.K in
  connections_for_cluster (m_net_clusters ExampleHier.facade1) 0 6 ≠ []
  ∧ build_net_rec ExampleHier.facade1 ExampleHier.lmap1 4 0 6 0 (Some ExampleHier.gnd)
      (Some "N$") None (Some "D$") Scaling.unit ExampleBuild.start
    = Done tt ExampleBuild.start.
Proof. split; [discriminate|reflexivity]. Qed.




(** ** The invocations of [build_all_nets] *)

Lemma for_each_app {S A} (l1 l2 : list A) (f : A -> M S unit) (s : S) :
  for_each (l1 ++ l2) f s = bind (for_each l1 f) (fun _ => for_each l2 f) s.
Proof.
  revert s. induction l1 as [|x l1 IH]; intros s; simpl; [done|].
  unfold bind in *. destruct (f x s); [apply IH|done..].
Qed.

Lemma for_each_ext {S A} (l : list A) (f g : A -> M S unit) :
  (forall x s, f x s = g x s) -> forall s, for_each l f s = for_each l g s.
Proof.
  intros Hfg. induction l as [|x l IH]; intros s; simpl; [done|].
  unfold bind. rewrite Hfg. destruct (g x s); [apply IH|done..].
Qed.

Lemma for_each_flat_map {S A B} (g : A -> list B) (l : list A) (f : B -> M S unit) (s : S) :
  for_each (flat_map g l) f s = for_each l (fun x => for_each (g x) f) s.
Proof.
  revert s. induction l as [|x l IH]; intros s; simpl; [done|].
  rewrite for_each_app. unfold bind. destruct (for_each (g x) f s) as [[] s'| |]; [apply IH|done..].
Qed.

Lemma for_each_unit {S} (u : unit) (m : M S unit) (s : S) :
  bind m (fun _ => ret u) s = m s.
Proof. unfold bind, ret. destruct (m s) as [[] ?| |]; by destruct u. Qed.

Lemma net_loop_calls {K : Kernel} (self : LayoutToNetlist) (lmap : layer_map) (fuel : nat)
    (target_ci : cell_index_type) (mag : dbl) (ncp ccp dcp : option string) (c : Circuit)
    (nets : list Net) (st : BuildState) :
  for_each nets (fun n =>
    if bool_decide (is_Some ccp) && negb (negb (c_has_parents c)) && bool_decide (0 < pin_count n)
    then ret tt
    else build_net_rec_net self lmap fuel n target_ci ncp ccp dcp (itrans_of_mag mag)) st
  = for_each
      (map (fun n => mkBuildCall n target_ci ncp (itrans_of_mag mag))
           (filter (fun n => net_is_skipped ccp c n = false) nets))
      (run_build_call self lmap fuel ccp dcp) st.
Proof.
  revert st. induction nets as [|n nets IH]; intros st; [done|].
  cbn [for_each]. fold (net_is_skipped ccp c n).
  destruct (net_is_skipped ccp c n) eqn:Hskip.
  - rewrite filter_cons_False by (rewrite Hskip; done). unfold bind, ret. apply IH.
  - rewrite filter_cons_True by done. cbn [map for_each]. unfold bind.
    unfold run_build_call at 1. cbn [bc_net bc_target bc_net_cell_name_prefix bc_tr].
    destruct (build_net_rec_net _ _ _ _ _ _ _ _ _ _) as [[] s'| |]; [apply IH|done..].
Qed.

Lemma subcircuit_loop_calls {K : Kernel} (self : LayoutToNetlist) (lmap : layer_map)
    (fuel : nat) (target_ci : cell_index_type) (mag dbu : dbl) (ncp ccp dcp : option string)
    (sc : SubCircuit) (st : BuildState) :
  build_subcircuit_nets self lmap fuel target_ci mag dbu ncp ccp dcp sc st
  = for_each (subcircuit_calls target_ci mag dbu ncp sc)
      (run_build_call self lmap fuel ccp dcp) st.
Proof.
  unfold build_subcircuit_nets, subcircuit_calls. rewrite for_each_flat_map.
  apply for_each_ext. intros p s. unfold floating_pin_call.
  destruct (sc_net_for_pin sc (pin_id p)); [done|].
  destruct (sc_ref_net_for_pin sc (pin_id p)) as [n|]; [|done].
  cbn [for_each]. rewrite for_each_unit. unfold run_build_call. simpl.
  by destruct ncp.
Qed.

Lemma circuit_loop_calls {K : Kernel} (self : LayoutToNetlist) (lmap : layer_map)
    (fuel : nat) (cmap : CellMapping) (mag dbu : dbl) (ncp ccp dcp : option string)
    (c : Circuit) (st : BuildState) :
  build_circuit_nets self lmap fuel cmap mag dbu ncp ccp dcp c st
  = for_each (circuit_calls cmap mag dbu ncp ccp c) (run_build_call self lmap fuel ccp dcp) st.
Proof.
  unfold build_circuit_nets, circuit_calls.
  destruct (cmap !! c_cell_index c) as [target_ci|]; [|done].
  rewrite for_each_app. unfold bind, net_calls. rewrite net_loop_calls.
  destruct (for_each _ _ st) as [[] s'| |]; [|done..].
  destruct (bool_decide (is_Some ccp)); [|done].
  rewrite for_each_flat_map. apply for_each_ext. intros sc s.
  apply subcircuit_loop_calls.
Qed.

(** [build_all_nets] runs [build_net_rec] on the invocations of
    [build_all_nets_calls], in order, sharing one [cell_map]. *)
Lemma build_all_nets_runs_calls {K : Kernel} (self : LayoutToNetlist) (lmap : layer_map)
    (fuel : nat) (cmap : CellMapping) (ncp ccp dcp : option string) (target : Layout)
    (nl : Netlist) :
  m_netlist_extracted self = true ->
  netlist_data self = Some nl ->
  build_all_nets self lmap fuel cmap ncp ccp dcp target
  = with_cell_map
      (for_each
         (build_all_nets_calls nl cmap
            (dbl_div (il_dbu (internal_layout self)) (lay_dbu target)) (lay_dbu target) ncp ccp)
         (run_build_call self lmap fuel ccp dcp))
      target.
Proof.
  intros Hflag Hnl. unfold build_all_nets. rewrite Hflag, Hnl. cbn [negb].
  unfold bind, get. unfold with_cell_map, build_all_nets_calls.
  rewrite for_each_flat_map.
  rewrite (for_each_ext _ _ _ (circuit_loop_calls self lmap fuel cmap _ _ ncp ccp dcp)).
  done.
Qed.

(** Where the invocations come from. *)
Lemma build_all_nets_calls_spec {K : Kernel} (nl : Netlist) (cmap : CellMapping)
    (mag dbu : dbl) (ncp ccp : option string) (bc : build_call) :
  bc ∈ build_all_nets_calls nl cmap mag dbu ncp ccp
  <-> exists c target_ci,
        c ∈ nl_circuits nl
        ∧ cmap !! c_cell_index c = Some target_ci
        ∧ ((exists n, n ∈ c_nets c ∧ net_is_skipped ccp c n = false
                      ∧ bc = mkBuildCall n target_ci ncp (itrans_of_mag mag))
           ∨ (is_Some ccp
              ∧ exists sc p n,
                  sc ∈ c_subcircuits c ∧ p ∈ sc_ref_pins sc
                  ∧ sc_net_for_pin sc (pin_id p) = None
                  ∧ sc_ref_net_for_pin sc (pin_id p) = Some n
                  ∧ bc = mkBuildCall n target_ci
                           ((fun prefix => prefix +:+ sc_expanded_name sc +:+ ":") <$> ncp)
                           (itrans_mul (itrans_of_mag mag) (micron_to_dbu dbu (sc_trans sc))))).
Proof.
  unfold build_all_nets_calls. rewrite list_elem_of_In, in_flat_map.
  split.
  - intros (c & Hc & Hbc). apply list_elem_of_In in Hc, Hbc.
    unfold circuit_calls in Hbc.
    destruct (cmap !! c_cell_index c) as [target_ci|] eqn:Hmap; [|by apply elem_of_nil in Hbc].
    exists c, target_ci. split_and!; [done..|].
    apply elem_of_app in Hbc as [Hbc|Hbc].
    + left. unfold net_calls in Hbc. apply list_elem_of_fmap in Hbc as (n & -> & Hn).
      apply list_elem_of_filter in Hn as [Hskip Hn]. eauto.
    + right. destruct (bool_decide (is_Some ccp)) eqn:Hccp; [|by apply elem_of_nil in Hbc].
      apply bool_decide_eq_true in Hccp. split; [done|].
      apply list_elem_of_In, in_flat_map in Hbc as (sc & Hsc & Hbc).
      unfold subcircuit_calls in Hbc. apply in_flat_map in Hbc as (p & Hp & Hbc).
      unfold floating_pin_call in Hbc.
      destruct (sc_net_for_pin sc (pin_id p)) eqn:Hout; [done|].
      destruct (sc_ref_net_for_pin sc (pin_id p)) as [n|] eqn:Hin; [|done].
      destruct Hbc as [<-|[]].
      exists sc, p, n. split_and!; try done; by apply list_elem_of_In.
  - intros (c & target_ci & Hc & Hmap & Hor). exists c. split; [by apply list_elem_of_In|].
    apply list_elem_of_In. unfold circuit_calls. rewrite Hmap. apply elem_of_app.
    destruct Hor as [(n & Hn & Hskip & ->)|(Hccp & sc & p & n & Hsc & Hp & Hout & Hin & ->)].
    + left. unfold net_calls. apply list_elem_of_fmap. exists n. split; [done|].
      by apply list_elem_of_filter.
    + right. rewrite bool_decide_eq_true_2 by done.
      apply list_elem_of_In, in_flat_map. exists sc. split; [by apply list_elem_of_In|].
      unfold subcircuit_calls. apply in_flat_map. exists p. split; [by apply list_elem_of_In|].
      unfold floating_pin_call. rewrite Hout, Hin. by left.
Qed.





(** * Further properties of the facade *)

(** ** The registry over a session *)

Lemma registry_consistent_fresh {K : Kernel} (iter : RecursiveShapeIterator)
    (dss : DeepShapeStore) :
  registry_consistent (fresh iter dss).
Proof. split; simpl; intros *; by rewrite lookup_empty. Qed.

Lemma same_registry_consistent {K : Kernel} (s s' : LayoutToNetlist) :
  same_registry s s' -> registry_consistent s -> registry_consistent s'.
Proof. intros [Hr Hn] [HA HB]. split; rewrite Hr, Hn; done. Qed.

Lemma register_layer_consistent {K : Kernel} (region : Region) (n : string)
    (s : LayoutToNetlist) :
  registry_consistent s ->
  match register_layer region n s with
  | Done _ s' | Raise _ s' => registry_consistent s'
  | OutOfFuel => False
  end.
Proof.
  intros [HA HB].
  destruct (m_named_regions s !! n) as [d|] eqn:Hn.
  { unfold register_layer. unfold_monad. rewrite Hn. simpl. by split. }
  destruct region as [|dl].
  { unfold register_layer. unfold_monad. rewrite Hn. simpl. by split. }
  rewrite register_layer_deep by done.
  set (l := dl_layer dl).
  split; simpl.
  - intros l0 n0. destruct (decide (l0 = l)) as [->|Hl].
    + rewrite lookup_insert_eq. intros [= <-]. exists dl. by rewrite lookup_insert_eq.
    + rewrite lookup_insert_ne by done. intros Hl0.
      destruct (HA _ _ Hl0) as (dl0 & Hdl0 & Hlay).
      assert (n0 ≠ n) by congruence.
      exists dl0. split; [|done]. rewrite lookup_insert_ne by done.
      fold l. destruct (m_name_of_layer s !! l) as [p|] eqn:Hp; [|done].
      rewrite lookup_delete_ne; [done|].
      intros <-. destruct (HA _ _ Hp) as (dlp & Hdlp & Hlayp). congruence.
  - intros n0 dl0. destruct (decide (n0 = n)) as [->|Hne].
    + rewrite lookup_insert_eq. intros [= <-]. by rewrite lookup_insert_eq.
    + rewrite lookup_insert_ne by done. fold l. intros Hn0.
      assert (Hold : m_named_regions s !! n0 = Some dl0
                     ∧ m_name_of_layer s !! l ≠ Some n0).
      { destruct (m_name_of_layer s !! l) as [p|] eqn:Hp; [|done].
        destruct (decide (p = n0)) as [->|Hpn].
        - by rewrite lookup_delete_eq in Hn0.
        - rewrite lookup_delete_ne in Hn0 by done. split; congruence. }
      destruct Hold as [Hn0' Hnot].
      rewrite lookup_insert_ne; [by apply HB|].
      intros Heq. apply Hnot. rewrite Heq. by apply HB.
Qed.

Lemma make_layer_with_registry {K : Kernel} (layer : option nat) (flags : ShapeFlags)
    (n : string) (s : LayoutToNetlist) :
  exists dl s1,
    same_registry s s1 ∧ m_dlrefs s1 = m_dlrefs s
    ∧ m_netlist_extracted s1 = m_netlist_extracted s
    ∧ make_layer_with layer flags n s
      = if bool_decide (n = EmptyString) then Done (DeepRegion dl) s1
        else match register_layer (DeepRegion dl) n s1 with
             | Done _ s' => Done (DeepRegion dl) s'
             | Raise e s' => Raise e s'
             | OutOfFuel => OutOfFuel
             end.
Proof.
  unfold make_layer_with, new_region. unfold bind at 1 2 3. unfold get at 1 2. simpl.
  unfold put, ret. simpl.
  exists (mkDeepLayer 0 (dss_next_layer (m_dss s))).
  match goal with |- context [with_dss ?d s] => exists (with_dss d s) end.
  split_and!; try done.
  destruct (bool_decide (n = EmptyString)); simpl; [done|].
  unfold bind. by destruct (register_layer _ n _).
Qed.

Lemma call_same_registry {K : Kernel} (netex : NetlistExtractor) (c : call)
    (s : LayoutToNetlist) :
  registers_layer c = false -> same_registry s (after netex c s).
Proof.
  intros Hc. unfold after. destruct c; try discriminate; simpl; try done.
  - unfold extract_devices, ensure_netlist, commit_extracted, same_registry. unfold_monad.
    simpl. outcome_cases; done.
  - unfold connect, is_persisted, layer_of, same_registry. unfold_monad. simpl.
    outcome_cases; done.
  - unfold connect2, is_persisted, layer_of, same_registry. unfold_monad. simpl.
    outcome_cases; done.
  - unfold connect_global, is_persisted, layer_of, same_registry, conn_connect_global.
    unfold_monad. simpl. outcome_cases; done.
  - unfold global_net_id, same_registry. unfold_monad. simpl. outcome_cases; done.
  - unfold extract_netlist, ensure_netlist, commit_extracted, same_registry. unfold_monad.
    simpl. outcome_cases; done.
  - unfold ensure_internal_layout, same_registry. unfold_monad. simpl. outcome_cases; done.
  - unfold make_netlist, ensure_netlist, same_registry. unfold_monad. simpl.
    outcome_cases; done.
Qed.

Lemma call_same_dlrefs {K : Kernel} (netex : NetlistExtractor) (c : call)
    (s : LayoutToNetlist) :
  connects_layers c = false -> registers_layer c = false ->
  m_dlrefs (after netex c s) = m_dlrefs s.
Proof.
  intros Hc Hr. unfold after. destruct c; try discriminate; simpl; try done.
  - unfold extract_devices, ensure_netlist, commit_extracted. unfold_monad.
    simpl. outcome_cases; done.
  - unfold global_net_id. unfold_monad. simpl. outcome_cases; done.
  - unfold extract_netlist, ensure_netlist, commit_extracted. unfold_monad.
    simpl. outcome_cases; done.
  - unfold ensure_internal_layout. unfold_monad. simpl. outcome_cases; done.
  - unfold make_netlist, ensure_netlist. unfold_monad. simpl. outcome_cases; done.
Qed.

Lemma register_layer_keeps_names {K : Kernel} (region : Region) (n : string)
    (s : LayoutToNetlist) :
  match register_layer region n s with
  | Done _ s' | Raise _ s' =>
      (forall l, is_Some (m_name_of_layer s !! l) -> is_Some (m_name_of_layer s' !! l))
      ∧ m_dlrefs s' = m_dlrefs s
  | OutOfFuel => False
  end.
Proof.
  destruct (m_named_regions s !! n) as [d|] eqn:Hn.
  { unfold register_layer. unfold_monad. rewrite Hn. simpl. done. }
  destruct region as [|dl].
  { unfold register_layer. unfold_monad. rewrite Hn. simpl. done. }
  rewrite register_layer_deep by done. simpl. split; [|done].
  intros l Hl. destruct (decide (l = dl_layer dl)) as [->|Hne].
  - rewrite lookup_insert_eq. eauto.
  - by rewrite lookup_insert_ne.
Qed.

(** What a call that writes the registry makes of it: the state [s1] after
    the region was made (the state itself for [register_layer]) and then
    the outcome of [register_layer], if it is called at all. *)
Lemma registering_call {K : Kernel} (netex : NetlistExtractor) (c : call)
    (s : LayoutToNetlist) :
  registers_layer c = true ->
  exists s1,
    same_registry s s1 ∧ m_dlrefs s1 = m_dlrefs s
    ∧ (after netex c s = s1
       ∨ exists region n,
           match register_layer region n s1 with
           | Done _ s' | Raise _ s' => after netex c s = s'
           | OutOfFuel => False
           end).
Proof.
  intros Hc. unfold after.
  destruct c; try discriminate; simpl.
  1-4: unfold ignore, make_layer, make_layer_of, make_text_layer, make_polygon_layer, bind;
       match goal with
       | |- context [make_layer_with ?l ?f ?n ?s0] =>
           destruct (make_layer_with_registry l f n s0) as (dl & s1 & Hr & Hd & _ & ->);
           exists s1; split_and!; try done;
           destruct (bool_decide (n = EmptyString)); simpl; [by left|];
           right; exists (DeepRegion dl), n;
           pose proof (register_layer_keeps_names (DeepRegion dl) n s1) as Hk;
           destruct (register_layer (DeepRegion dl) n s1); simpl; done
       end.
  exists s. split_and!; try done. right. exists region, n.
  pose proof (register_layer_keeps_names region n s) as Hk.
  destruct (register_layer region n s); simpl; done.
Qed.

Lemma after_consistent {K : Kernel} (netex : NetlistExtractor) (c : call)
    (s : LayoutToNetlist) :
  registry_consistent s -> registry_consistent (after netex c s).
Proof.
  intros Hs. destruct (registers_layer c) eqn:Hc.
  - destruct (registering_call netex c s Hc) as (s1 & Hr & _ & [->|(region & n & H)]).
    + by eapply same_registry_consistent.
    + pose proof (register_layer_consistent region n s1
                    (same_registry_consistent _ _ Hr Hs)) as Hk.
      destruct (register_layer region n s1); try done; by rewrite H.
  - eapply same_registry_consistent; [|done]. by apply call_same_registry.
Qed.

Lemma after_keeps_names {K : Kernel} (netex : NetlistExtractor) (c : call)
    (s : LayoutToNetlist) (l : nat) :
  is_Some (m_name_of_layer s !! l) -> is_Some (m_name_of_layer (after netex c s) !! l).
Proof.
  intros Hl. destruct (registers_layer c) eqn:Hc.
  - destruct (registering_call netex c s Hc) as (s1 & [_ Hn] & _ & [->|(region & n & H)]).
    + by rewrite Hn.
    + pose proof (register_layer_keeps_names region n s1) as Hk.
      destruct (register_layer region n s1); try done; rewrite H; apply Hk; by rewrite Hn.
  - destruct (call_same_registry netex c s Hc) as [_ ->]. done.
Qed.

Lemma after_keeps_dlrefs {K : Kernel} (netex : NetlistExtractor) (c : call)
    (s : LayoutToNetlist) :
  m_dlrefs s ⊆ m_dlrefs (after netex c s)
  ∧ (forall dl, dl ∈ m_dlrefs (after netex c s) -> dl ∉ m_dlrefs s ->
       is_Some (m_name_of_layer s !! dl_layer dl)).
Proof.
  destruct (registers_layer c) eqn:Hr; [|destruct (connects_layers c) eqn:Hc].
  - destruct (registering_call netex c s Hr) as (s1 & _ & Hd & [->|(region & n & H)]).
    + rewrite Hd. split; [done|]. intros ???. done.
    + pose proof (register_layer_keeps_names region n s1) as Hk.
      destruct (register_layer region n s1); try done; rewrite H;
        destruct Hk as [_ ->]; rewrite Hd; (split; [done|intros ???; done]).
  - unfold after. destruct c; try discriminate; simpl.
    + unfold connect, is_persisted, layer_of. unfold_monad. simpl.
      destruct (m_netlist_extracted s); simpl; [split; [done|intros ???; done]|].
      destruct l as [|dl]; simpl; [split; [done|intros ???; done]|].
      case_bool_decide as Hp; simpl; [|split; [done|intros ???; done]].
      split; [set_solver|]. intros dl' Hin Hnot.
      apply elem_of_union in Hin as [Hin|Hin]; [|done].
      by apply elem_of_singleton in Hin as ->.
    + unfold connect2, is_persisted, layer_of. unfold_monad. simpl.
      destruct (m_netlist_extracted s); simpl; [split; [done|intros ???; done]|].
      destruct a as [|dla]; simpl; [split; [done|intros ???; done]|].
      destruct b as [|dlb]; simpl; [split; [done|intros ???; done]|].
      case_bool_decide as Hpa; simpl; [|split; [done|intros ???; done]].
      case_bool_decide as Hpb; simpl; [|split; [done|intros ???; done]].
      split; [set_solver|]. intros dl' Hin Hnot.
      apply elem_of_union in Hin as [Hin|Hin]; [by apply elem_of_singleton in Hin as ->|].
      apply elem_of_union in Hin as [Hin|Hin]; [|done].
      by apply elem_of_singleton in Hin as ->.
    + unfold connect_global, is_persisted, layer_of, conn_connect_global. unfold_monad. simpl.
      destruct (m_netlist_extracted s); simpl; [split; [done|intros ???; done]|].
      destruct l as [|dl]; simpl; [split; [done|intros ???; done]|].
      case_bool_decide as Hp; simpl; [|split; [done|intros ???; done]].
      destruct (conn_global_net_id _ _) as [c' id]. simpl.
      split; [set_solver|]. intros dl' Hin Hnot.
      apply elem_of_union in Hin as [Hin|Hin]; [|done].
      by apply elem_of_singleton in Hin as ->.
  - rewrite call_same_dlrefs by done. split; [done|intros ???; done].
Qed.

(** X1.  The two maps of the named-layer registry never get out of step: on
    a new facade they agree, and every call of the facade, whether it
    returns or throws, keeps them agreeing.  So after any session a layer
    index has a name exactly when the registry holds a deep layer of that
    index under that name. *)
Theorem registry_stays_consistent {K : Kernel} (netex : NetlistExtractor) :
  (forall iter dss, registry_consistent (fresh iter dss))
  ∧ (forall cs s, registry_consistent s -> registry_consistent (session netex cs s)).
Proof.
  split; [apply registry_consistent_fresh|].
  induction cs as [|c cs IH]; intros s Hs; [done|].
  simpl. apply IH. by apply after_consistent.
Qed.

Lemma registry_stays_consistent_witness :
  let K := Example.K in
  registry_consistent
    (session Example.netex0
       [CallMakeLayerOf 1 "M1"; CallRegisterLayer Example.m1 "METAL1";
        CallRegisterLayer Example.m2 "METAL1"] Example.facade0).
Proof.
  intros K.
  apply (proj2 (registry_stays_consistent Example.netex0)).
  apply (proj1 (registry_stays_consistent Example.netex0)).
Defined.

(** X2.  In a consistent registry the lookups invert each other:
    [layer_by_index] returns null exactly for an index without a name, the
    region it returns otherwise lies on that very layer, is the one
    [layer_by_name] returns for the index's name, and [name] maps it back
    to that name; [name] of what [layer_by_name (n)] returns is [n]; and no
    two layer indexes share a name. *)
Theorem named_layer_lookups_invert {K : Kernel} (s : LayoutToNetlist) :
  registry_consistent s ->
  (forall l, layer_by_index s l = None <-> m_name_of_layer s !! l = None)
  ∧ (forall l r,
       layer_by_index s l = Some r ->
       exists dl, r = DeepRegion dl ∧ dl_layer dl = l
                  ∧ layer_by_name s (name_of_index s l) = Some r
                  ∧ name r s = Done (name_of_index s l) s)
  ∧ (forall n r,
       layer_by_name s n = Some r ->
       name r s = Done n s ∧ is_persisted r s = Done true s
       ∧ exists l, layer_of r s = Done l s ∧ layer_by_index s l = Some r)
  ∧ (forall l1 l2 n,
       m_name_of_layer s !! l1 = Some n -> m_name_of_layer s !! l2 = Some n -> l1 = l2).
Proof.
  intros [HA HB]. split_and!.
  - intros l. unfold layer_by_index, layer_by_name.
    destruct (m_name_of_layer s !! l) as [n|] eqn:Hl; [|done].
    destruct (HA _ _ Hl) as (dl & -> & _). done.
  - intros l r. unfold layer_by_index, layer_by_name, name_of_index.
    destruct (m_name_of_layer s !! l) as [n|] eqn:Hl; [|done].
    destruct (HA _ _ Hl) as (dl & Hn & Hlay). rewrite Hn. intros [= <-].
    exists dl. split_and!; try done.
    rewrite name_deep. unfold name_of_index. by rewrite Hlay, Hl.
  - intros n r. unfold layer_by_name.
    destruct (m_named_regions s !! n) as [dl|] eqn:Hn; [|done]. intros [= <-].
    pose proof (HB _ _ Hn) as Hl. split_and!.
    + rewrite name_deep. unfold name_of_index. by rewrite Hl.
    + rewrite is_persisted_deep, Hl. by rewrite bool_decide_eq_true_2.
    + exists (dl_layer dl). split; [done|].
      unfold layer_by_index, layer_by_name. by rewrite Hl, Hn.
  - intros l1 l2 n H1 H2.
    destruct (HA _ _ H1) as (d1 & Hd1 & <-). destruct (HA _ _ H2) as (d2 & Hd2 & <-).
    congruence.
Qed.

Lemma named_layer_lookups_invert_witness :
  let K := Example.K in
  layer_by_index ExampleHier.facade1 1 = Some Example.m1
  ∧ name Example.m1 ExampleHier.facade1 = Done "M1" ExampleHier.facade1
  ∧ layer_by_index ExampleHier.facade1 2 = None.
Proof.
  intros K.
  assert (Hc : registry_consistent ExampleHier.facade1).
  { split; simpl.
    - intros l n Hl. apply lookup_singleton_Some in Hl as [<- <-].
      exists (mkDeepLayer 0 1). by rewrite lookup_singleton_eq.
    - intros n dl Hn. apply lookup_singleton_Some in Hn as [<- <-].
      by rewrite lookup_singleton_eq. }
  destruct (named_layer_lookups_invert ExampleHier.facade1 Hc) as (H1 & _ & H3 & _).
  destruct (H3 "M1" Example.m1 eq_refl) as (Hname & _ & l & Hl & Hidx).
  injection Hl as <-. split_and!; [exact Hidx|exact Hname|by apply H1].
Defined.

(** X26.  A region cannot be registered again under the name it already
    has: in a consistent registry, [register_layer (region, name (region))]
    for a persisted region throws the duplicate-name exception, because the
    name is looked up before the region is. *)
Theorem reregistering_under_own_name_fails {K : Kernel} (s : LayoutToNetlist)
    (region : Region) (n : string) :
  registry_consistent s ->
  is_persisted region s = Done true s ->
  name region s = Done n s ->
  register_layer region n s = Raise (Exception (msg_name_used +:+ n)) s.
Proof.
  intros [HA _] Hp Hn. destruct region as [|dl]; [done|].
  rewrite is_persisted_deep in Hp. rewrite name_deep in Hn.
  injection Hp as Hp. apply bool_decide_eq_true_1 in Hp as [n' Hn'].
  unfold name_of_index in Hn. rewrite Hn' in Hn. injection Hn as ->.
  destruct (HA _ _ Hn') as (dl' & Hdl' & _).
  unfold register_layer. unfold_monad. by rewrite bool_decide_eq_true_2 by by rewrite Hdl'.
Qed.

Lemma facade1_registry_consistent :
  registry_consistent (K := Example.K) ExampleHier.facade1.
Proof.
  split; simpl.
  - intros l n Hl. apply lookup_singleton_Some in Hl as [<- <-].
    exists (mkDeepLayer 0 1). by rewrite lookup_singleton_eq.
  - intros n dl Hn. apply lookup_singleton_Some in Hn as [<- <-].
    by rewrite lookup_singleton_eq.
Qed.

Lemma reregistering_under_own_name_fails_witness :
  let K := Example.K in
  register_layer Example.m1 "M1" ExampleHier.facade1
  = Raise (Exception (msg_name_used +:+ "M1")) ExampleHier.facade1.
Proof.
  intros K.
  apply (reregistering_under_own_name_fails ExampleHier.facade1 Example.m1 "M1"
           facade1_registry_consistent); reflexivity.
Defined.

Lemma session_keeps_names {K : Kernel} (netex : NetlistExtractor) (cs : list call)
    (s : LayoutToNetlist) (l : nat) :
  is_Some (m_name_of_layer s !! l) -> is_Some (m_name_of_layer (session netex cs s) !! l).
Proof.
  revert s. induction cs as [|c cs IH]; intros s Hl; [done|].
  simpl. apply IH. by apply after_keeps_names.
Qed.

(** X3.  A persisted region stays persisted: no call of the facade ever
    takes the name of a layer away (a later [register_layer] can only
    replace it), so [is_persisted] remains true through any session. *)
Theorem persisted_regions_stay_persisted {K : Kernel} (netex : NetlistExtractor)
    (region : Region) (s : LayoutToNetlist) (cs : list call) :
  is_persisted region s = Done true s ->
  is_persisted region (session netex cs s) = Done true (session netex cs s).
Proof.
  destruct region as [|dl]; [done|].
  rewrite !is_persisted_deep. intros [= H]. apply bool_decide_eq_true_1 in H.
  by rewrite bool_decide_eq_true_2 by by apply session_keeps_names.
Qed.

Lemma persisted_regions_stay_persisted_witness :
  let K := Example.K in
  let s := session Example.netex0
             [CallRegisterLayer Example.m1 "METAL1"; CallExtractNetlist false]
             ExampleHier.facade1 in
  is_persisted Example.m1 s = Done true s.
Proof.
  intros K s.
  apply (persisted_regions_stay_persisted Example.netex0 Example.m1 ExampleHier.facade1).
  reflexivity.
Defined.

Lemma dlrefs_named_after {K : Kernel} (netex : NetlistExtractor) (c : call)
    (s : LayoutToNetlist) :
  dlrefs_named s -> dlrefs_named (after netex c s).
Proof.
  intros Hs dl Hin. apply after_keeps_names.
  destruct (after_keeps_dlrefs netex c s) as [_ Hnew].
  destruct (decide (dl ∈ m_dlrefs s)) as [Hold|Hnot]; [by apply Hs|by apply Hnew].
Qed.

(** X4.  Every deep layer the facade keeps a reference to for the
    connectivity ([m_dlrefs]) is a named layer: a new facade holds none,
    the three connect calls only add layers that have a name at that
    moment, names are never taken away, and references are never dropped. *)
Theorem connected_layers_are_named {K : Kernel} (netex : NetlistExtractor) :
  (forall iter dss, dlrefs_named (fresh iter dss))
  ∧ (forall cs s, dlrefs_named s -> dlrefs_named (session netex cs s))
  ∧ (forall cs s, m_dlrefs s ⊆ m_dlrefs (session netex cs s)).
Proof.
  split_and!.
  - intros iter dss dl Hin. simpl in Hin. by apply not_elem_of_empty in Hin.
  - induction cs as [|c cs IH]; intros s Hs; [done|].
    simpl. apply IH. by apply dlrefs_named_after.
  - induction cs as [|c cs IH]; intros s; [done|].
    simpl. etrans; [|apply IH]. apply after_keeps_dlrefs.
Qed.

Lemma connected_layers_are_named_witness :
  let K := Example.K in
  let s := session Example.netex0
             [CallMakeLayerOf 1 "M1"; CallConnect (DeepRegion (mkDeepLayer 0 0));
              CallConnect Example.m1] Example.facade0 in
  dlrefs_named s.
Proof.
  intros K s.
  apply (proj1 (proj2 (connected_layers_are_named Example.netex0))).
  apply (proj1 (connected_layers_are_named Example.netex0)).
Defined.

(** ** The checks of the connect calls *)

Lemma connect_cases {K : Kernel} (l : Region) (s : LayoutToNetlist) :
  connect l s
  = if m_netlist_extracted s then Raise (Exception msg_already_extracted) s
    else match l with
         | FlatRegion => Raise (Exception msg_intra_non_hier) s
         | DeepRegion dl =>
             if bool_decide (is_Some (m_name_of_layer s !! dl_layer dl))
             then Done tt (with_conn (conn_connect (m_conn s) (dl_layer dl))
                             (with_dlrefs ({[ dl ]} ∪ m_dlrefs s) s))
             else Raise (Exception msg_intra_unnamed) s
         end.
Proof.
  unfold connect, is_persisted, layer_of. unfold_monad. simpl.
  destruct (m_netlist_extracted s); [done|]. destruct l as [|dl]; [done|]. simpl.
  by destruct (bool_decide _).
Qed.

Lemma connect2_cases {K : Kernel} (a b : Region) (s : LayoutToNetlist) :
  connect2 a b s
  = if m_netlist_extracted s then Raise (Exception msg_already_extracted) s
    else match a, b with
         | FlatRegion, _ => Raise (Exception msg_inter_non_hier_1) s
         | DeepRegion _, FlatRegion => Raise (Exception msg_inter_non_hier_2) s
         | DeepRegion dla, DeepRegion dlb =>
             if bool_decide (is_Some (m_name_of_layer s !! dl_layer dla))
             then if bool_decide (is_Some (m_name_of_layer s !! dl_layer dlb))
                  then Done tt
                         (with_conn (conn_connect2 (m_conn s) (dl_layer dla) (dl_layer dlb))
                            (with_dlrefs ({[ dlb ]} ∪ ({[ dla ]} ∪ m_dlrefs s)) s))
                  else Raise (Exception msg_inter_unnamed_2) s
             else Raise (Exception msg_inter_unnamed_1) s
         end.
Proof.
  unfold connect2, is_persisted, layer_of. unfold_monad. simpl.
  destruct (m_netlist_extracted s); [done|].
  destruct a as [|dla]; [done|]. destruct b as [|dlb]; [done|]. simpl.
  destruct (bool_decide _); [|done]. simpl. by destruct (bool_decide _).
Qed.

Lemma connect_global_cases {K : Kernel} (l : Region) (gn : string) (s : LayoutToNetlist) :
  connect_global l gn s
  = if m_netlist_extracted s then Raise (Exception msg_already_extracted) s
    else match l with
         | FlatRegion => Raise (Exception msg_global_non_hier) s
         | DeepRegion dl =>
             if bool_decide (is_Some (m_name_of_layer s !! dl_layer dl))
             then Done (conn_connect_global (m_conn s) (dl_layer dl) gn).2
                    (with_conn (conn_connect_global (m_conn s) (dl_layer dl) gn).1
                       (with_dlrefs ({[ dl ]} ∪ m_dlrefs s) s))
             else Raise (Exception msg_global_unnamed) s
         end.
Proof.
  unfold connect_global, is_persisted, layer_of. unfold_monad. simpl.
  destruct (m_netlist_extracted s); [done|]. destruct l as [|dl]; [done|]. simpl.
  destruct (bool_decide _); [|done]. simpl.
  by destruct (conn_connect_global _ _ _).
Qed.

(** X5.  The connect calls return normally exactly for named deep layers
    on a facade that is not marked extracted: [connect (l)] and
    [connect_global (l, gn)] need [l], [connect (a, b)] needs both [a] and
    [b], to be a deep region whose layer has a name.  When they return, the
    deep layers of their regions have been added to the references the
    facade keeps, and the connectivity was told their layer indexes. *)
Theorem connect_accepts_named_deep_layers {K : Kernel} (s : LayoutToNetlist) :
  let named r := exists dl, r = DeepRegion dl ∧ is_Some (m_name_of_layer s !! dl_layer dl) in
  (forall l, (exists s', connect l s = Done tt s')
             <-> m_netlist_extracted s = false ∧ named l)
  ∧ (forall a b, (exists s', connect2 a b s = Done tt s')
                 <-> m_netlist_extracted s = false ∧ named a ∧ named b)
  ∧ (forall l gn, (exists id s', connect_global l gn s = Done id s')
                  <-> m_netlist_extracted s = false ∧ named l)
  ∧ (forall dl s',
       connect (DeepRegion dl) s = Done tt s' ->
       m_dlrefs s' = {[ dl ]} ∪ m_dlrefs s
       ∧ m_conn s' = conn_connect (m_conn s) (dl_layer dl))
  ∧ (forall dla dlb s',
       connect2 (DeepRegion dla) (DeepRegion dlb) s = Done tt s' ->
       m_dlrefs s' = {[ dlb ]} ∪ ({[ dla ]} ∪ m_dlrefs s)
       ∧ m_conn s' = conn_connect2 (m_conn s) (dl_layer dla) (dl_layer dlb))
  ∧ (forall dl gn id s',
       connect_global (DeepRegion dl) gn s = Done id s' ->
       m_dlrefs s' = {[ dl ]} ∪ m_dlrefs s
       ∧ (m_conn s', id) = conn_connect_global (m_conn s) (dl_layer dl) gn).
Proof.
  intros named. split_and!.
  - intros l. rewrite connect_cases. split.
    + intros [s' H]. destruct (m_netlist_extracted s); [done|]. split; [done|].
      destruct l as [|dl]; [done|]. exists dl. split; [done|].
      case_bool_decide; done.
    + intros (-> & dl & -> & Hn). rewrite bool_decide_eq_true_2 by done. eauto.
  - intros a b. rewrite connect2_cases. split.
    + intros [s' H]. destruct (m_netlist_extracted s); [done|]. split; [done|].
      destruct a as [|dla]; [done|]. destruct b as [|dlb]; [done|].
      case_bool_decide; [|done]. case_bool_decide; [|done].
      split; [by exists dla|by exists dlb].
    + intros (-> & (dla & -> & Ha) & (dlb & -> & Hb)).
      rewrite !bool_decide_eq_true_2 by done. eauto.
  - intros l gn. rewrite connect_global_cases. split.
    + intros (id & s' & H). destruct (m_netlist_extracted s); [done|]. split; [done|].
      destruct l as [|dl]; [done|]. exists dl. split; [done|].
      case_bool_decide; done.
    + intros (-> & dl & -> & Hn). rewrite bool_decide_eq_true_2 by done. eauto.
  - intros dl s'. rewrite connect_cases.
    destruct (m_netlist_extracted s); [done|]. case_bool_decide; [|done].
    by intros [= <-].
  - intros dla dlb s'. rewrite connect2_cases.
    destruct (m_netlist_extracted s); [done|]. case_bool_decide; [|done].
    case_bool_decide; [|done]. by intros [= <-].
  - intros dl gn id s'. rewrite connect_global_cases.
    destruct (m_netlist_extracted s); [done|]. case_bool_decide; [|done].
    intros [= <- <-]. simpl. split; [done|]. by destruct (conn_connect_global _ _ _).
Qed.

(** X6.  On a facade that is not marked extracted the connect calls report
    the first check that fails, and leave the facade as it is: for
    [connect (a, b)] a flat [a] is reported whatever [b] is, then a flat
    [b] even if [a] has no name, then the missing name of [a] even if [b]
    has none either, and last the missing name of [b]. *)
Theorem connect_reports_first_failed_check {K : Kernel} (s : LayoutToNetlist) :
  m_netlist_extracted s = false ->
  let unnamed dl := m_name_of_layer s !! dl_layer dl = None in
  connect FlatRegion s = Raise (Exception msg_intra_non_hier) s
  ∧ (forall dl, unnamed dl ->
       connect (DeepRegion dl) s = Raise (Exception msg_intra_unnamed) s)
  ∧ (forall b, connect2 FlatRegion b s = Raise (Exception msg_inter_non_hier_1) s)
  ∧ (forall dla,
       connect2 (DeepRegion dla) FlatRegion s = Raise (Exception msg_inter_non_hier_2) s)
  ∧ (forall dla dlb, unnamed dla ->
       connect2 (DeepRegion dla) (DeepRegion dlb) s
       = Raise (Exception msg_inter_unnamed_1) s)
  ∧ (forall dla dlb, ¬ unnamed dla -> unnamed dlb ->
       connect2 (DeepRegion dla) (DeepRegion dlb) s
       = Raise (Exception msg_inter_unnamed_2) s)
  ∧ (forall gn, connect_global FlatRegion gn s = Raise (Exception msg_global_non_hier) s)
  ∧ (forall dl gn, unnamed dl ->
       connect_global (DeepRegion dl) gn s = Raise (Exception msg_global_unnamed) s).
Proof.
  intros Hflag unnamed. unfold unnamed.
  split_and!; intros *; rewrite ?connect_cases, ?connect2_cases, ?connect_global_cases, Hflag;
    try done.
  - intros ->. by rewrite bool_decide_eq_false_2 by by intros [].
  - intros ->. by rewrite bool_decide_eq_false_2 by by intros [].
  - intros Ha ->. rewrite bool_decide_eq_true_2 by by apply not_eq_None_Some.
    by rewrite bool_decide_eq_false_2 by by intros [].
  - intros ->. by rewrite bool_decide_eq_false_2 by by intros [].
Qed.

Lemma connect_reports_first_failed_check_witness :
  let K := Example.K in
  connect2 FlatRegion FlatRegion Example.facade0
  = Raise (Exception msg_inter_non_hier_1) Example.facade0
  ∧ connect2 Example.m1 FlatRegion Example.facade0
    = Raise (Exception msg_inter_non_hier_2) Example.facade0.
Proof.
  intros K.
  destruct (connect_reports_first_failed_check Example.facade0 eq_refl)
    as (_ & _ & H1 & H2 & _).
  split; [apply H1|apply H2].
Defined.

(** X7.  [register_layer] and the three connect calls throw before they
    write: when one of them ends with an exception, every member of the
    facade is as it was before the call. *)
Theorem rejected_calls_change_nothing {K : Kernel} (netex : NetlistExtractor) (c : call)
    (s s' : LayoutToNetlist) (e : exn) :
  connects_layers c = true ∨ (exists region n, c = CallRegisterLayer region n) ->
  perform netex c s = Raise e s' ->
  s' = s.
Proof.
  intros [Hc|(region & n & ->)].
  - destruct c; try discriminate; simpl.
    + rewrite connect_cases. destruct (m_netlist_extracted s); [congruence|].
      destruct l; [congruence|]. case_bool_decide; [done|congruence].
    + rewrite connect2_cases. destruct (m_netlist_extracted s); [congruence|].
      destruct a; [congruence|]. destruct b; [congruence|].
      case_bool_decide; [|congruence]. case_bool_decide; [done|congruence].
    + unfold ignore, bind. rewrite connect_global_cases.
      destruct (m_netlist_extracted s); [congruence|].
      destruct l; [congruence|]. case_bool_decide; [done|congruence].
  - simpl. destruct (m_named_regions s !! n) as [d|] eqn:Hn.
    { unfold register_layer. unfold_monad. rewrite Hn. simpl. congruence. }
    destruct region as [|dl].
    { unfold register_layer. unfold_monad. rewrite Hn. simpl. congruence. }
    by rewrite register_layer_deep.
Qed.

Lemma rejected_calls_change_nothing_witness :
  let K := Example.K in
  exists e s',
    perform Example.netex0 (CallRegisterLayer FlatRegion "M1") Example.facade0 = Raise e s'
    ∧ s' = Example.facade0.
Proof.
  intros K. eexists _, _. split; [reflexivity|].
  apply (rejected_calls_change_nothing Example.netex0 (CallRegisterLayer FlatRegion "M1")
           Example.facade0 _ (Exception msg_not_deep_region)).
  - right. by exists FlatRegion, "M1"%string.
  - reflexivity.
Defined.

(** ** Making layers *)

(** X8.  The four layer makers ([make_layer (n)], [make_layer (index, n)],
    [make_text_layer], [make_polygon_layer]) return a new deep region.
    With an empty name they leave the registry alone.  With a name that is
    free they register the region under it, so that [layer_by_name] finds
    it, [name] returns the name, and, the facade not being marked
    extracted, [connect] accepts it at once.  With a name that is taken
    they throw the duplicate-name exception of [register_layer] and the
    registry stays as it was. *)
Theorem made_layers_are_registered {K : Kernel} (s : LayoutToNetlist) (i : nat) (n : string)
    (make : L2N Region) :
  make ∈ [make_layer n; make_layer_of i n; make_text_layer i n; make_polygon_layer i n] ->
  (n = EmptyString ->
   exists dl s', make s = Done (DeepRegion dl) s' ∧ same_registry s s')
  ∧ (n ≠ EmptyString -> m_named_regions s !! n = None ->
     exists dl s',
       make s = Done (DeepRegion dl) s'
       ∧ layer_by_name s' n = Some (DeepRegion dl)
       ∧ name (DeepRegion dl) s' = Done n s'
       ∧ is_persisted (DeepRegion dl) s' = Done true s'
       ∧ (m_netlist_extracted s = false ->
          exists s'', connect (DeepRegion dl) s' = Done tt s''))
  ∧ (n ≠ EmptyString -> is_Some (m_named_regions s !! n) ->
     exists s', make s = Raise (Exception (msg_name_used +:+ n)) s' ∧ same_registry s s').
Proof.
  intros Hmake.
  assert (exists layer flags, make = make_layer_with layer flags n) as (layer & flags & ->).
  { apply elem_of_cons in Hmake as [->|Hmake]; [by exists None, SfNothing|].
    apply elem_of_cons in Hmake as [->|Hmake]; [by exists (Some i), SfAll|].
    apply elem_of_cons in Hmake as [->|Hmake]; [by exists (Some i), SfTexts|].
    apply elem_of_cons in Hmake as [->|Hmake]; [by exists (Some i), SfPolygons|].
    by apply elem_of_nil in Hmake. }
  destruct (make_layer_with_registry layer flags n s) as (dl & s1 & Hr & _ & Hx & ->).
  split_and!.
  - intros ->. rewrite bool_decide_eq_true_2 by done. eauto.
  - intros Hne Hfree. rewrite bool_decide_eq_false_2 by done.
    assert (Hfree1 : m_named_regions s1 !! n = None) by (destruct Hr as [-> _]; done).
    rewrite register_layer_deep by done.
    eexists dl, _. split; [reflexivity|].
    assert (Hl : forall s0 : LayoutToNetlist,
              m_name_of_layer
                (with_name_of_layer (<[dl_layer dl := n]> (m_name_of_layer s1)) s0)
                !! dl_layer dl = Some n) by (intros; apply lookup_insert_eq).
    split_and!.
    + unfold layer_by_name. simpl. by rewrite lookup_insert_eq.
    + rewrite name_deep. unfold name_of_index. by rewrite Hl.
    + rewrite is_persisted_deep, Hl. by rewrite bool_decide_eq_true_2.
    + intros Hflag. rewrite connect_cases. simpl. rewrite Hx, Hflag.
      rewrite lookup_insert_eq. rewrite bool_decide_eq_true_2 by done. eauto.
  - intros Hne Hused. rewrite bool_decide_eq_false_2 by done.
    assert (Hused1 : is_Some (m_named_regions s1 !! n)) by (destruct Hr as [-> _]; done).
    unfold register_layer. unfold_monad. rewrite bool_decide_eq_true_2 by done. eauto.
Qed.

Lemma made_layers_are_registered_witness :
  let K := Example.K in
  exists dl s',
    make_polygon_layer 7 "POLY" Example.facade0 = Done (DeepRegion dl) s'
    ∧ layer_by_name s' "POLY" = Some (DeepRegion dl).
Proof.
  intros K.
  destruct (made_layers_are_registered Example.facade0 7 "POLY" (make_polygon_layer 7 "POLY"))
    as (_ & H & _).
  { apply list_elem_of_In. simpl. auto. }
  destruct H as (dl & s' & Hrun & Hby & _); [done|done|].
  by exists dl, s'.
Defined.

(** ** Extraction *)

(** X9.  [extract_netlist] hands the extractor the store, the
    connectivity, the netlist (a new, empty one if there was none) and the
    clusters, and takes over what the extractor made of them.  The netlist
    is marked extracted only if the extractor returns: when it throws, the
    exception is passed on and the facade stays in the building phase, so
    the extraction can be run again.  [extract_devices] does the same with
    its extractor and never marks the netlist extracted. *)
Theorem extraction_marks_only_on_success {K : Kernel} (netex : NetlistExtractor)
    (join : bool) (ex : NetlistDeviceExtractor) (layers : list (string * Region))
    (s : LayoutToNetlist) :
  m_netlist_extracted s = false ->
  let nl := default (mkNetlist [] []) (netlist_data s) in
  let r := netex (m_dss s) (m_conn s) nl (m_net_clusters s) join in
  let rd := ex (m_dss s) layers nl (m_net_clusters s) in
  (exists s',
     extract_netlist netex join s
     = match ex_error r with None => Done tt s' | Some e => Raise e s' end
     ∧ m_netlist_extracted s' = bool_decide (ex_error r = None)
     ∧ netlist_data s' = Some (ex_netlist r)
     ∧ m_net_clusters s' = ex_clusters r
     ∧ m_dss s' = ex_dss r
     ∧ same_registry s s' ∧ m_conn s' = m_conn s)
  ∧ (exists s',
       extract_devices ex layers s
       = match ex_error rd with None => Done tt s' | Some e => Raise e s' end
       ∧ m_netlist_extracted s' = false
       ∧ netlist_data s' = Some (ex_netlist rd)
       ∧ m_net_clusters s' = ex_clusters rd
       ∧ m_dss s' = ex_dss rd
       ∧ same_registry s s' ∧ m_conn s' = m_conn s).
Proof.
  intros Hflag nl r rd. split.
  - unfold extract_netlist, ensure_netlist, commit_extracted. unfold_monad.
    rewrite Hflag. subst r nl. unfold netlist_data.
    destruct (mp_netlist s) as [o|]; simpl; destruct (ex_error _); simpl;
      eexists; (split; [reflexivity|]); simpl; split_and!; done.
  - unfold extract_devices, ensure_netlist, commit_extracted. unfold_monad.
    rewrite Hflag. subst rd nl. unfold netlist_data.
    destruct (mp_netlist s) as [o|]; simpl; destruct (ex_error _); simpl;
      eexists; (split; [reflexivity|]); simpl; split_and!; done.
Qed.

Lemma extraction_marks_only_on_success_witness :
  let K := Example.K in
  let failing : NetlistExtractor :=
    fun dss _ nl hc _ => mkExtracted dss nl hc (Some (Exception "no top cell")) in
  exists s',
    extract_netlist failing true Example.facade0 = Raise (Exception "no top cell") s'
    ∧ m_netlist_extracted s' = false.
Proof.
  intros K failing.
  destruct (extraction_marks_only_on_success failing true Example.devex0 [] Example.facade0
              eq_refl) as [(s' & Hrun & Hflag & _) _].
  exists s'. split; [exact Hrun|exact Hflag].
Defined.

(** ** Recursive and non-recursive delivery side by side *)

Lemma flat_map_Forall_ext {A B} (f g : A -> list B) (l : list A) :
  Forall (fun x => f x = g x) l -> flat_map f l = flat_map g l.
Proof. induction 1 as [|x l Hx _ IH]; simpl; [done|]. by rewrite Hx, IH. Qed.

Lemma map_own_entries {K : Kernel} (ci : cell_index_type) (tr : ICplxTrans)
    (shapes : list PolygonRef) (below : nat) :
  map (fun e => (e_shape e, e_trans e)) (own_entries ci tr shapes below)
  = map (fun s => (s, tr)) shapes.
Proof. induction shapes as [|s shapes IH]; simpl; [done|]. by rewrite IH. Qed.

Lemma all_shapes_tree_shapes {K : Kernel} (t : ctree) : all_shapes t = tree_shapes t.
Proof.
  induction t as [ci tr shapes children IH] using ctree_forest_ind.
  unfold all_shapes in *. cbn [entries_of tree_shapes].
  rewrite map_app, map_own_entries. f_equal.
  induction IH as [|c children Hc _ IHc]; simpl; [done|].
  by rewrite map_app, Hc, IHc.
Qed.

Lemma sublist_map {A B} (f : A -> B) (l1 l2 : list A) :
  sublist l1 l2 -> sublist (map f l1) (map f l2).
Proof. induction 1; simpl; by constructor. Qed.

Lemma flattened_shapes_sublist {K : Kernel} (nl : option Netlist) (ci0 : cell_index_type)
    (t : ctree) :
  sublist (flattened_shapes nl ci0 t) (tree_shapes t).
Proof.
  induction t as [ci tr shapes children IH] using ctree_forest_ind.
  cbn [flattened_shapes tree_shapes].
  destruct (_ && _); [apply sublist_nil_l|].
  apply sublist_app; [done|].
  induction IH as [|c children Hc _ IHc]; simpl; [done|]. by apply sublist_app.
Qed.

Lemma shapes_of_net_region_recursive {K : Kernel} (self : LayoutToNetlist) (net : Net)
    (dl : DeepLayer) (ci : cell_index_type) (fuel : nat) (t : ctree) :
  net_circuit net = Some ci ->
  cluster_tree fuel (m_net_clusters self) (dl_layer dl) ci (net_cluster_id net) itrans_unit
  = Some t ->
  shapes_of_net_region fuel self net (DeepRegion dl) true
  = Done tt (map (shape_in_region itrans_unit) (tree_shapes t)).
Proof.
  intros Hci Ht. unfold shapes_of_net_region, shapes_of_net_to. unfold_monad. simpl.
  rewrite Hci. simpl. unfold deliver_shapes_of_net_recursive, rcs_begin. rewrite Ht. simpl.
  by rewrite deliver_recursive_loop_all, all_shapes_tree_shapes, deliver_list_region.
Qed.

Lemma shapes_of_net_region_nonrecursive {K : Kernel} (self : LayoutToNetlist) (net : Net)
    (dl : DeepLayer) (ci : cell_index_type) (fuel : nat) (t : ctree) :
  net_circuit net = Some ci ->
  cluster_tree fuel (m_net_clusters self) (dl_layer dl) ci (net_cluster_id net) itrans_unit
  = Some t ->
  shapes_of_net_region fuel self net (DeepRegion dl) false
  = Done tt (map (shape_in_region itrans_unit) (flattened_shapes (netlist_data self) ci t)).
Proof.
  intros Hci Ht. unfold shapes_of_net_region, shapes_of_net_to. unfold_monad. simpl.
  rewrite Hci. simpl.
  rewrite (deliver_shapes_of_net_nonrecursive_flattened _ _ _ _ _ _ _ _ _ Ht).
  by rewrite deliver_list_region.
Qed.

(** X10.  With [recursive = true], [shapes_of_net] delivers every shape of
    the net's cluster on the layer and of every cluster below it, each
    under the transformation accumulated along its connections, the cell's
    own shapes first and then the subtrees in the order of the connections.
    The netlist plays no part: a facade with the same clusters delivers the
    same shapes.  The fuel only has to cover the depth of the cluster
    hierarchy. *)
Theorem recursive_delivery_delivers_all {K : Kernel} (self : LayoutToNetlist) (net : Net)
    (dl : DeepLayer) (ci : cell_index_type) (rank : cell_index_type -> nat) (fuel : nat) :
  net_circuit net = Some ci ->
  clusters_ranked rank (m_net_clusters self) ->
  rank ci < fuel ->
  exists t,
    cluster_tree fuel (m_net_clusters self) (dl_layer dl) ci (net_cluster_id net) itrans_unit
    = Some t
    ∧ (forall to : Shapes,
         shapes_of_net fuel self net (DeepRegion dl) true to
         = Done tt (mkShapes (sh_in_layout to)
                      (sh_items to
                       ++ map (if sh_in_layout to then shape_in_layout itrans_unit
                               else shape_in_region itrans_unit)
                              (tree_shapes t))))
    ∧ shapes_of_net_region fuel self net (DeepRegion dl) true
      = Done tt (map (shape_in_region itrans_unit) (tree_shapes t))
    ∧ (forall self',
         m_net_clusters self' = m_net_clusters self ->
         shapes_of_net_region fuel self' net (DeepRegion dl) true
         = shapes_of_net_region fuel self net (DeepRegion dl) true).
Proof.
  intros Hci Hrank Hfuel.
  destruct (cluster_tree_total rank (m_net_clusters self) (dl_layer dl) Hrank fuel ci
              (net_cluster_id net) itrans_unit Hfuel) as (t & Ht & _).
  exists t. split_and!.
  - done.
  - intros to. unfold shapes_of_net, shapes_of_net_to. unfold_monad. simpl.
    rewrite Hci. simpl. unfold deliver_shapes_of_net_recursive, rcs_begin. rewrite Ht. simpl.
    by rewrite deliver_recursive_loop_all, all_shapes_tree_shapes, deliver_list_shapes.
  - by apply (shapes_of_net_region_recursive self net dl ci fuel t).
  - intros self' Hsame.
    rewrite (shapes_of_net_region_recursive self net dl ci fuel t) by done.
    apply (shapes_of_net_region_recursive self' net dl ci fuel t); [done|].
    by rewrite Hsame.
Qed.

Lemma recursive_delivery_delivers_all_witness :
  let K := Example.K in
  exists t,
    cluster_tree 3 ExampleHier.clusters1 1 0 5 Scaling.unit = Some t
    ∧ shapes_of_net_region 3 ExampleHier.facade1 ExampleHier.vdd Example.m1 true
      = Done tt (map (shape_in_region Scaling.unit) (tree_shapes t)).
Proof.
  intros K.
  destruct (recursive_delivery_delivers_all ExampleHier.facade1 ExampleHier.vdd
              (mkDeepLayer 0 1) 0 ExampleHier.rank1 3 eq_refl clusters1_ranked)
    as (t & Ht & _ & Hall & _).
  - simpl. lia.
  - by exists t.
Defined.

Example recursive_delivery_example :
  let K := Example.K in
  shapes_of_net_region 3 ExampleHier.facade1 ExampleHier.vdd Example.m1 true
  = Done tt [ShBox 100 Scaling.unit (Scaling.mul Scaling.unit Scaling.unit);
             ShPolygon 101 Scaling.unit
               (Scaling.mul Scaling.unit (Scaling.mul Scaling.unit ExampleHier.T1));
             ShPolygon 103 Scaling.unit
               (Scaling.mul Scaling.unit
                  (Scaling.mul (Scaling.mul Scaling.unit ExampleHier.T1) ExampleHier.T3));
             ShBox 102 Scaling.unit
               (Scaling.mul Scaling.unit (Scaling.mul Scaling.unit ExampleHier.T2))].
Proof. reflexivity. Qed.

Lemma flattened_shapes_all_purged {K : Kernel} (nl : option Netlist) (ci0 : cell_index_type)
    (t : ctree) :
  (forall ci', ci' ≠ ci0 -> cell_is_kept nl ci' = false) ->
  flattened_shapes nl ci0 t = tree_shapes t.
Proof.
  intros Hpurged.
  induction t as [ci tr shapes children IH] using ctree_forest_ind.
  cbn [flattened_shapes tree_shapes].
  assert (Hgo : negb (bool_decide (shapes = [])) && negb (ci =? ci0) && cell_is_kept nl ci
                = false).
  { destruct (decide (ci = ci0)) as [->|Hne].
    - by rewrite Nat.eqb_refl, andb_false_r.
    - rewrite (Hpurged ci Hne). apply andb_false_r. }
  rewrite Hgo. f_equal. by apply flat_map_Forall_ext.
Qed.

(** X11.  What non-recursive delivery yields is a part of what recursive
    delivery yields for the same net and layer, in the same order.  The two
    modes yield the same shapes for a cluster without connections, and
    when no cell other than the net's own is a circuit or a device abstract
    of the netlist (all cells below were purged). *)
Theorem nonrecursive_delivery_is_part_of_recursive {K : Kernel} (self : LayoutToNetlist)
    (net : Net) (dl : DeepLayer) (ci : cell_index_type) (rank : cell_index_type -> nat)
    (fuel : nat) :
  net_circuit net = Some ci ->
  clusters_ranked rank (m_net_clusters self) ->
  rank ci < fuel ->
  exists part all,
    shapes_of_net_region fuel self net (DeepRegion dl) false = Done tt part
    ∧ shapes_of_net_region fuel self net (DeepRegion dl) true = Done tt all
    ∧ sublist part all
    ∧ (connections_for_cluster (m_net_clusters self) ci (net_cluster_id net) = [] ->
       part = all)
    ∧ ((forall ci', ci' ≠ ci -> cell_is_kept (netlist_data self) ci' = false) ->
       part = all).
Proof.
  intros Hci Hrank Hfuel.
  destruct (cluster_tree_total rank (m_net_clusters self) (dl_layer dl) Hrank fuel ci
              (net_cluster_id net) itrans_unit Hfuel) as (t & Ht & _).
  eexists _, _. split_and!.
  - by apply (shapes_of_net_region_nonrecursive self net dl ci fuel t).
  - by apply (shapes_of_net_region_recursive self net dl ci fuel t).
  - apply sublist_map, flattened_shapes_sublist.
  - intros Hleaf. f_equal.
    destruct fuel as [|fuel]; [done|]. simpl in Ht. rewrite Hleaf in Ht. simpl in Ht.
    injection Ht as <-. cbn [flattened_shapes tree_shapes flat_map].
    by rewrite Nat.eqb_refl, andb_false_r.
  - intros Hpurged. f_equal. by apply flattened_shapes_all_purged.
Qed.

Lemma nonrecursive_delivery_is_part_of_recursive_witness :
  let K := Example.K in
  exists part all,
    shapes_of_net_region 3 ExampleHier.facade1 ExampleHier.vdd Example.m1 false = Done tt part
    ∧ shapes_of_net_region 3 ExampleHier.facade1 ExampleHier.vdd Example.m1 true = Done tt all
    ∧ sublist part all.
Proof.
  intros K.
  destruct (nonrecursive_delivery_is_part_of_recursive ExampleHier.facade1 ExampleHier.vdd
              (mkDeepLayer 0 1) 0 ExampleHier.rank1 3 eq_refl clusters1_ranked)
    as (part & all & H1 & H2 & H3 & _ & _).
  - simpl. lia.
  - by exists part, all.
Defined.

Lemma flattened_shapes_all_kept {K : Kernel} (rank : cell_index_type -> nat)
    (hc : hier_clusters) (layer : nat) (nl : option Netlist) (ci0 : cell_index_type) :
  clusters_ranked rank hc ->
  (forall ci', ci' ≠ ci0 -> cell_is_kept nl ci' = true) ->
  forall fuel ci cid tr t,
    cluster_tree fuel hc layer ci cid tr = Some t ->
    rank ci < rank ci0 ->
    flattened_shapes nl ci0 t = [].
Proof.
  intros Hrank Hkept. induction fuel as [|fuel IH]; intros ci cid tr t Ht Hlt; [done|].
  simpl in Ht. destruct (mapM _ _) as [children|] eqn:Hm; [|done]. simpl in Ht.
  injection Ht as <-. cbn [flattened_shapes].
  assert (Hne : ci ≠ ci0) by (intros ->; lia).
  rewrite Hkept by done. apply Nat.eqb_neq in Hne. rewrite Hne. cbn [negb andb].
  rewrite andb_true_r.
  destruct (cluster_shapes hc ci cid layer) as [|s shapes] eqn:Hs; [|done].
  rewrite bool_decide_eq_true_2 by done. cbn [negb andb map app].
  apply mapM_Some in Hm.
  assert (Hall : Forall (fun c => rank (inst_cell_index c) < rank ci0)
                   (connections_for_cluster hc ci cid)).
  { apply Forall_forall. intros c Hc. pose proof (Hrank ci cid c Hc). lia. }
  revert Hm Hall. generalize (connections_for_cluster hc ci cid). intros cs Hm.
  induction Hm as [|c t' cs ts Hc _ IHm]; intros Hall; [done|].
  apply Forall_cons in Hall as [Hc1 Hall].
  cbn [flat_map]. rewrite (IH _ _ _ _ Hc) by done. by rewrite IHm.
Qed.

(** X12.  On a facade without a netlist, or when every cell other than the
    net's own is still a circuit or a device abstract, non-recursive
    delivery yields exactly the shapes of the net's cluster in the net's own
    cell, untransformed: nothing from below is flattened into it.
    ([shapes_of_net] does not ask whether the netlist was extracted.) *)
Theorem nonrecursive_delivery_without_purged_cells {K : Kernel} (self : LayoutToNetlist)
    (net : Net) (dl : DeepLayer) (ci : cell_index_type) (rank : cell_index_type -> nat)
    (fuel : nat) :
  net_circuit net = Some ci ->
  clusters_ranked rank (m_net_clusters self) ->
  rank ci < fuel ->
  mp_netlist self = None
  ∨ (forall ci', ci' ≠ ci -> cell_is_kept (netlist_data self) ci' = true) ->
  shapes_of_net_region fuel self net (DeepRegion dl) false
  = Done tt (map (fun s => shape_in_region itrans_unit (s, itrans_unit))
               (cluster_shapes (m_net_clusters self) ci (net_cluster_id net) (dl_layer dl))).
Proof.
  intros Hci Hrank Hfuel Hkept.
  assert (Hk : forall ci', ci' ≠ ci -> cell_is_kept (netlist_data self) ci' = true).
  { destruct Hkept as [Hnone|Hk]; [|done]. unfold netlist_data. by rewrite Hnone. }
  destruct (cluster_tree_total rank (m_net_clusters self) (dl_layer dl) Hrank fuel ci
              (net_cluster_id net) itrans_unit Hfuel) as (t & Ht & _).
  rewrite (shapes_of_net_region_nonrecursive self net dl ci fuel t) by done. f_equal.
  destruct fuel as [|fuel]; [done|]. simpl in Ht.
  destruct (mapM _ _) as [children|] eqn:Hm; [|done]. simpl in Ht. injection Ht as <-.
  cbn [flattened_shapes]. rewrite Nat.eqb_refl. cbn [negb andb]. rewrite andb_false_r.
  cbn [andb].
  assert (Hnil : flat_map (flattened_shapes (netlist_data self) ci) children = []).
  { apply mapM_Some in Hm.
    assert (Hall : Forall (fun c => rank (inst_cell_index c) < rank ci)
                     (connections_for_cluster (m_net_clusters self) ci (net_cluster_id net))).
    { apply Forall_forall. intros c Hc. by eapply Hrank. }
    revert Hm Hall.
    generalize (connections_for_cluster (m_net_clusters self) ci (net_cluster_id net)).
    intros cs Hm.
    induction Hm as [|c t' cs ts Hc _ IHm]; intros Hall; [done|].
    apply Forall_cons in Hall as [Hc1 Hall]. cbn [flat_map].
    rewrite (flattened_shapes_all_kept rank _ _ _ ci Hrank Hk _ _ _ _ _ Hc) by done.
    by rewrite IHm. }
  rewrite Hnil, app_nil_r. by rewrite map_map.
Qed.

Lemma nonrecursive_delivery_without_purged_cells_witness :
  let K := Example.K in
  let unextracted := with_netlist_extracted false (with_netlist None ExampleHier.facade1) in
  shapes_of_net_region 3 unextracted ExampleHier.vdd Example.m1 false
  = Done tt [shape_in_region Scaling.unit (ExampleHier.box_ref 100, Scaling.unit)].
Proof.
  intros K unextracted.
  apply (nonrecursive_delivery_without_purged_cells unextracted ExampleHier.vdd
           (mkDeepLayer 0 1) 0 ExampleHier.rank1 3 eq_refl clusters1_ranked).
  - simpl. lia.
  - left. reflexivity.
Defined.

(** X13.  Delivery to [StopOnFirst] is a test for emptiness: in
    [deliver_shapes_of_net_nonrecursive] it changes nothing and returns
    false exactly when delivery of the same cluster and layer into a region
    would insert at least one shape. *)
Theorem stop_on_first_tests_for_shapes {K : Kernel} (rank : cell_index_type -> nat)
    (self : LayoutToNetlist) (fuel : nat) (ci : cell_index_type) (cid layer : nat)
    (tr : ICplxTrans) :
  clusters_ranked rank (m_net_clusters self) ->
  rank ci < fuel ->
  exists shapes : RegionTarget,
    deliver_shapes_of_net_nonrecursive fuel (netlist_data self) (m_net_clusters self)
      ci cid layer tr ([] : RegionTarget) = Some (shapes, true)
    ∧ deliver_shapes_of_net_nonrecursive fuel (netlist_data self) (m_net_clusters self)
        ci cid layer tr StopOnFirst_v = Some (StopOnFirst_v, bool_decide (shapes = [])).
Proof.
  intros Hrank Hfuel.
  rewrite !(deliver_nonrecursive_shapes rank) by done.
  rewrite deliver_list_region, deliver_list_stop_on_first.
  eexists. split; [reflexivity|]. do 2 f_equal.
  destruct (nonrecursive_shapes fuel self ci cid layer); done.
Qed.

Lemma stop_on_first_tests_for_shapes_witness :
  let K := Example.K in
  deliver_shapes_of_net_nonrecursive 3 (netlist_data ExampleHier.facade1)
    ExampleHier.clusters1 0 6 1 Scaling.unit StopOnFirst_v = Some (StopOnFirst_v, true).
Proof.
  intros K.
  destruct (stop_on_first_tests_for_shapes ExampleHier.rank1 ExampleHier.facade1 3 0 6 1
              Scaling.unit clusters1_ranked) as (shapes & Hregion & Hstop).
  - simpl. lia.
  - injection Hregion as <-. exact Hstop.
Defined.

(** ** Nets without a circuit and flat regions *)

(** X14.  [shapes_of_net] checks the region before the net: a flat region
    makes it throw the exception of [layer_of] whatever the net is, and for
    a deep region a net that belongs to no circuit fails the assertion
    [circuit != 0].  [build_net] on an extracted netlist fails the same
    assertion.  In all these cases the target is left as it was. *)
Theorem net_without_circuit_fails_assertion {K : Kernel} (self : LayoutToNetlist)
    (lmap : layer_map) (fuel : nat) (net : Net) (recursive : bool) :
  (forall to : Shapes,
     shapes_of_net fuel self net FlatRegion recursive to = Raise (Exception msg_non_hier) to)
  ∧ shapes_of_net_region fuel self net FlatRegion recursive
    = Raise (Exception msg_non_hier) []
  ∧ (net_circuit net = None ->
     (forall dl (to : Shapes),
        shapes_of_net fuel self net (DeepRegion dl) recursive to = Raise InternalException to)
     ∧ (forall dl,
          shapes_of_net_region fuel self net (DeepRegion dl) recursive
          = Raise InternalException [])
     ∧ (m_netlist_extracted self = true ->
        forall tc cp dp target,
          build_net self lmap fuel net tc cp dp target = Raise InternalException target)).
Proof.
  split_and!; try done.
  intros Hnone. split_and!.
  - intros dl to. unfold shapes_of_net, shapes_of_net_to. unfold_monad. simpl.
    by rewrite Hnone.
  - intros dl. unfold shapes_of_net_region, shapes_of_net_to. unfold_monad. simpl.
    by rewrite Hnone.
  - intros Hflag tc cp dp target. unfold build_net, with_cell_map, build_net_rec_net.
    unfold_monad. rewrite Hflag, Hnone. done.
Qed.

Lemma net_without_circuit_fails_assertion_witness :
  let K := Example.K in
  let stray := mkNet None 1 "N" [] in
  build_net ExampleHier.facade1 ExampleHier.lmap1 3 stray 0 None None Example.target0
  = Raise InternalException Example.target0.
Proof.
  intros K stray.
  destruct (net_without_circuit_fails_assertion ExampleHier.facade1 ExampleHier.lmap1 3
              stray false) as (_ & _ & H).
  destruct (H eq_refl) as (_ & _ & Hbuild).
  apply Hbuild. reflexivity.
Defined.

(** ** The flat rebuild *)

Lemma layers_delivered_cell {K : Kernel} (fuel : nat) (self : LayoutToNetlist)
    (ci : cell_index_type) (cid : nat) (tr : ICplxTrans) (ls : layer_map) :
  forall c,
    cell_name (layers_delivered fuel self ci cid tr ls c) = cell_name c
    ∧ cell_insts (layers_delivered fuel self ci cid tr ls c) = cell_insts c
    ∧ (forall k,
         shapes_at (layers_delivered fuel self ci cid tr ls c) k
         = shapes_at c k ++ mapped_shapes fuel self ls ci cid tr k).
Proof.
  unfold layers_delivered, mapped_shapes.
  induction ls as [|[k0 r] ls IH]; intros c.
  - simpl. split_and!; try done. intros k. by rewrite app_nil_r.
  - cbn [fold_left flat_map fst snd].
    destruct (IH (layer_delivered fuel self ci cid tr c (k0, r))) as (Hn & Hi & Hs).
    rewrite Hn, Hi. unfold layer_delivered at 2 4. cbn [fst snd].
    split_and!.
    + by destruct r as [[|dl]|].
    + by destruct r as [[|dl]|].
    + intros k. rewrite Hs. rewrite app_assoc. f_equal.
      unfold layer_delivered. cbn [fst snd].
      destruct r as [[|dl]|]; cbn [fst snd].
      * case_bool_decide; by rewrite app_nil_r.
      * rewrite shapes_at_set. destruct (decide (k0 = k)) as [->|Hne].
        -- by rewrite bool_decide_eq_true_2.
        -- rewrite bool_decide_eq_false_2 by done. by rewrite app_nil_r.
      * case_bool_decide; by rewrite app_nil_r.
Qed.

Lemma mapped_shapes_fuel {K : Kernel} (rank : cell_index_type -> nat)
    (self : LayoutToNetlist) (lmap : layer_map) (ci : cell_index_type) (cid : nat)
    (tr : ICplxTrans) (k : nat) (f1 f2 : nat) :
  clusters_ranked rank (m_net_clusters self) ->
  rank ci < f1 -> rank ci < f2 ->
  mapped_shapes f1 self lmap ci cid tr k = mapped_shapes f2 self lmap ci cid tr k.
Proof.
  intros Hrank H1 H2. unfold mapped_shapes.
  apply flat_map_Forall_ext, Forall_forall. intros [k0 r] _. cbn [fst snd].
  destruct (bool_decide _); [|done]. destruct r as [[|dl]|]; try done.
  by rewrite (nonrecursive_shapes_fuel rank self ci cid (dl_layer dl) f1 f2).
Qed.

Lemma flat_build_net_rec {K : Kernel} (rank : cell_index_type -> nat)
    (self : LayoutToNetlist) (lmap : layer_map) (fuel : nat) (ci : cell_index_type)
    (cid : nat) (tc : cell_index_type) (net : option Net) (tr : ICplxTrans)
    (st : BuildState) :
  clusters_ranked rank (m_net_clusters self) ->
  regions_deep lmap ->
  rank ci < fuel ->
  build_net_rec self lmap (S fuel) ci cid tc net None None None tr st
  = Done tt (alter_cell (layers_delivered fuel self ci cid tr lmap) tc st).
Proof.
  intros Hrank Hdeep Hfuel. cbn [build_net_rec]. unfold bind at 1. unfold ret at 1.
  unfold bind at 1. by rewrite (deliver_layers_spec rank).
Qed.

(** X15.  The flat rebuild: [build_net] without a circuit and without a
    device cell prefix returns, adds no cell and no instance to the target
    layout, and leaves every cell but the target cell as it is.  The target
    cell keeps its name and instances, and each of its layers is extended
    by the shapes non-recursive delivery yields for the regions mapped to
    it, under [ICplxTrans (dbu_source / dbu_target)]. *)
Theorem flat_build_net_only_delivers_shapes {K : Kernel} (rank : cell_index_type -> nat)
    (self : LayoutToNetlist) (lmap : layer_map) (fuel : nat) (net : Net)
    (ci : cell_index_type) (tc : cell_index_type) (target : Layout) :
  m_netlist_extracted self = true ->
  net_circuit net = Some ci ->
  clusters_ranked rank (m_net_clusters self) ->
  regions_deep lmap ->
  rank ci + 2 <= fuel ->
  let tr := itrans_of_mag (dbl_div (il_dbu (internal_layout self)) (lay_dbu target)) in
  exists target',
    build_net self lmap fuel net tc None None target = Done tt target'
    ∧ lay_dbu target' = lay_dbu target
    ∧ length (lay_cells target') = length (lay_cells target)
    ∧ (forall i, i ≠ tc -> lay_cells target' !! i = lay_cells target !! i)
    ∧ (forall c,
         lay_cells target !! tc = Some c ->
         exists c',
           lay_cells target' !! tc = Some c'
           ∧ cell_name c' = cell_name c
           ∧ cell_insts c' = cell_insts c
           ∧ forall k,
               shapes_at c' k
               = shapes_at c k ++ mapped_shapes fuel self lmap ci (net_cluster_id net) tr k).
Proof.
  intros Hflag Hci Hrank Hdeep Hfuel tr.
  destruct fuel as [|fuel]; [lia|].
  unfold build_net, with_cell_map, build_net_rec_net. unfold_monad.
  rewrite Hflag, Hci. cbn [negb bool_decide decide_rel].
  rewrite bool_decide_eq_true_2 by done. unfold ret.
  rewrite (flat_build_net_rec rank) by (done || lia).
  eexists. split; [reflexivity|]. cbn [alter_cell bs_target lay_cells lay_dbu].
  split_and!.
  - done.
  - by rewrite length_alter.
  - intros i Hne. by rewrite list_lookup_alter_ne.
  - intros c Hc. rewrite list_lookup_alter_eq, Hc. cbn [fmap option_fmap option_map].
    eexists. split; [reflexivity|].
    destruct (layers_delivered_cell fuel self ci (net_cluster_id net) tr lmap c)
      as (Hn & Hi & Hs).
    split_and!; try done. intros k. rewrite Hs. f_equal.
    apply (mapped_shapes_fuel rank); [done|lia|lia].
Qed.

Lemma flat_build_net_only_delivers_shapes_witness :
  let K := Example.K in
  exists target',
    build_net ExampleHier.facade1 ExampleHier.lmap1 4 ExampleHier.vdd 0 None None
      Example.target0 = Done tt target'
    ∧ length (lay_cells target') = 1.
Proof.
  intros K.
  destruct (flat_build_net_only_delivers_shapes ExampleHier.rank1 ExampleHier.facade1
              ExampleHier.lmap1 4 ExampleHier.vdd 0 0 Example.target0 eq_refl eq_refl
              clusters1_ranked lmap1_deep) as (target' & Hrun & _ & Hlen & _).
  - simpl. lia.
  - exists target'. split; [|exact Hlen]. exact Hrun.
Defined.

Lemma deliver_layers_flat_region {K : Kernel} (rank : cell_index_type -> nat)
    (self : LayoutToNetlist) (l1 l2 : layer_map) (k : nat) (fuel : nat)
    (ci : cell_index_type) (cid : nat) (tr : ICplxTrans) (tc : cell_index_type)
    (st : BuildState) :
  clusters_ranked rank (m_net_clusters self) ->
  rank ci < fuel ->
  regions_deep l1 ->
  deliver_layers self (l1 ++ (k, Some FlatRegion) :: l2) fuel ci cid tr tc st
  = Raise (Exception msg_non_hier)
      (alter_cell (layers_delivered fuel self ci cid tr l1) tc st).
Proof.
  intros Hrank Hfuel Hdeep.
  pose proof (deliver_layers_spec rank self l1 fuel ci cid tr tc st Hrank Hfuel Hdeep) as H1.
  unfold deliver_layers in *. rewrite for_each_app. unfold bind at 1. rewrite H1.
  reflexivity.
Qed.

(** X16.  A flat region in the layer map stops [build_net] in the middle:
    the layers are delivered in the order of the map, so the call throws
    the exception of [layer_of] with the target cell already holding the
    shapes of all layers before the flat one, exactly as [build_net] with
    only those layers and no cell prefixes leaves it. *)
Theorem flat_region_stops_delivery {K : Kernel} (rank : cell_index_type -> nat)
    (self : LayoutToNetlist) (l1 l2 : layer_map) (k : nat) (fuel : nat) (net : Net)
    (ci : cell_index_type) (tc : cell_index_type) (cp dp : option string) (target : Layout) :
  m_netlist_extracted self = true ->
  net_circuit net = Some ci ->
  clusters_ranked rank (m_net_clusters self) ->
  regions_deep l1 ->
  rank ci + 2 <= fuel ->
  exists target1,
    build_net self l1 fuel net tc None None target = Done tt target1
    ∧ build_net self (l1 ++ (k, Some FlatRegion) :: l2) fuel net tc cp dp target
      = Raise (Exception msg_non_hier) target1.
Proof.
  intros Hflag Hci Hrank Hdeep Hfuel.
  destruct fuel as [|fuel]; [lia|].
  unfold build_net, with_cell_map, build_net_rec_net. unfold_monad.
  rewrite Hflag, Hci. cbn [negb bool_decide decide_rel].
  rewrite bool_decide_eq_true_2 by done. unfold ret.
  rewrite (flat_build_net_rec rank) by (done || lia).
  eexists. split; [reflexivity|].
  cbn [build_net_rec]. unfold bind at 1. unfold ret at 1. unfold bind at 1.
  rewrite (deliver_layers_flat_region rank) by (done || lia). reflexivity.
Qed.

Lemma flat_region_stops_delivery_witness :
  let K := Example.K in
  exists target1,
    build_net ExampleHier.facade1 ExampleHier.lmap1 4 ExampleHier.vdd 0 None None
      Example.target0 = Done tt target1
    ∧ build_net ExampleHier.facade1 (ExampleHier.lmap1 ++ [(11, Some FlatRegion)]) 4
        ExampleHier.vdd 0 (Some "C$") None Example.target0
      = Raise (Exception msg_non_hier) target1.
Proof.
  intros K.
  apply (flat_region_stops_delivery ExampleHier.rank1 ExampleHier.facade1 ExampleHier.lmap1
           [] 11 4 ExampleHier.vdd 0 0 (Some "C$"%string) None Example.target0 eq_refl eq_refl
           clusters1_ranked lmap1_deep).
  simpl. lia.
Defined.

(** ** The rebuild of all nets *)

(** X17.  [build_all_nets] only works on circuits the cell mapping knows:
    when no circuit of the netlist has a mapping (an empty mapping, or a
    netlist without circuits) it returns at once, whatever the prefixes,
    and the target layout is as it was. *)
Theorem build_all_nets_skips_unmapped_circuits {K : Kernel} (self : LayoutToNetlist)
    (lmap : layer_map) (fuel : nat) (cmap : CellMapping) (ncp ccp dcp : option string)
    (target : Layout) (nl : Netlist) :
  m_netlist_extracted self = true ->
  netlist_data self = Some nl ->
  (forall c, c ∈ nl_circuits nl -> cmap !! c_cell_index c = None) ->
  build_all_nets self lmap fuel cmap ncp ccp dcp target = Done tt target.
Proof.
  intros Hflag Hnl Hnone.
  rewrite (build_all_nets_runs_calls self lmap fuel cmap ncp ccp dcp target nl) by done.
  assert (Hcalls : build_all_nets_calls nl cmap
                     (dbl_div (il_dbu (internal_layout self)) (lay_dbu target))
                     (lay_dbu target) ncp ccp = []).
  { unfold build_all_nets_calls.
    induction (nl_circuits nl) as [|c cs IH]; [done|]. cbn [flat_map].
    rewrite IH by (intros c' Hc'; apply Hnone; by apply list_elem_of_further).
    unfold circuit_calls. by rewrite Hnone by apply list_elem_of_here. }
  rewrite Hcalls. unfold with_cell_map. simpl. by destruct target.
Qed.

Lemma build_all_nets_skips_unmapped_circuits_witness :
  let K := Example.K in
  build_all_nets ExampleHier.facade1 ExampleHier.lmap1 0 ∅ (Some "N$") (Some "C$") None
    Example.target0 = Done tt Example.target0.
Proof.
  intros K.
  apply (build_all_nets_skips_unmapped_circuits ExampleHier.facade1 ExampleHier.lmap1 0 ∅
           (Some "N$"%string) (Some "C$"%string) None Example.target0 ExampleHier.netlist1
           eq_refl eq_refl).
  intros c _. apply lookup_empty.
Defined.

Lemma cell_grows_any {K : Kernel} (Ps : Shape -> Prop) (Pi : CellInstArray -> Prop)
    (c c' : Cell) :
  cell_grows Ps Pi c c' -> cell_grows (fun _ => True) (fun _ => True) c c'.
Proof.
  intros (Hn & (i & Hi & _) & Hs). split_and!; [done| |].
  - exists i. split; [done|]. by apply Forall_forall.
  - intros l. destruct (Hs l) as (s & Hl & _). exists s. split; [done|]. by apply Forall_forall.
Qed.

Lemma layout_grows_refl {K : Kernel} (T : cell_index_type -> Prop) (t : Layout) :
  layout_grows T t t.
Proof.
  split_and!; [done|done|]. intros i c Hc. exists c. split_and!; [done| |done].
  apply cell_grows_refl.
Qed.

Lemma layout_grows_trans {K : Kernel} (T : cell_index_type -> Prop) (t1 t2 t3 : Layout) :
  layout_grows T t1 t2 -> layout_grows T t2 t3 -> layout_grows T t1 t3.
Proof.
  intros (Hd1 & Hl1 & Hc1) (Hd2 & Hl2 & Hc2). split_and!; [congruence|lia|].
  intros i c Hc. destruct (Hc1 i c Hc) as (c' & Hc' & Hg1 & Hs1).
  destruct (Hc2 i c' Hc') as (c'' & Hc'' & Hg2 & Hs2).
  exists c''. split_and!; [done| |].
  - by eapply cell_grows_trans.
  - intros HT. rewrite Hs2, Hs1; done.
Qed.

Lemma rebuilt_layout_grows {K : Kernel} (T : cell_index_type -> Prop)
    (self : LayoutToNetlist) (ccp dcp : option string) (tc : cell_index_type)
    (X : ICplxTrans) (st st' : BuildState) :
  rebuilt self ccp dcp tc X st st' ->
  T tc ∨ length (lay_cells (bs_target st)) <= tc ->
  layout_grows T (bs_target st) (bs_target st').
Proof.
  intros Hrel HT. split_and!; [apply Hrel|apply Hrel|].
  intros i c Hc. destruct (rb_old _ _ _ _ _ _ _ Hrel i c Hc) as (c' & Hc' & Hif).
  exists c'. split; [done|]. destruct (decide (i = tc)) as [->|Hne].
  - split; [by eapply cell_grows_any|]. intros Hnot. destruct HT as [HT|Hge]; [done|].
    apply lookup_lt_Some in Hc. lia.
  - subst c'. split; [apply cell_grows_refl|done].
Qed.

Lemma with_net_cell_grows {K : Kernel} (T : cell_index_type -> Prop) (nm : string)
    (tc : cell_index_type) (st : BuildState) :
  T tc ->
  layout_grows T (bs_target st) (bs_target (with_net_cell nm tc st)).
Proof.
  intros HT. unfold with_net_cell, layout_grows. simpl.
  split_and!; [done| |].
  - rewrite length_alter, length_app. lia.
  - intros i c Hc. destruct (decide (i = tc)) as [->|Hne].
    + rewrite list_lookup_alter_eq, (lookup_app_l_Some _ _ _ _ Hc). simpl.
      eexists. split; [reflexivity|]. split; [by apply cell_add_inst_grows|done].
    + rewrite list_lookup_alter_ne by done. rewrite (lookup_app_l_Some _ _ _ _ Hc).
      exists c. split_and!; [done|apply cell_grows_refl|done].
Qed.

Lemma run_build_call_grows {K : Kernel} (rank : cell_index_type -> nat)
    (T : cell_index_type -> Prop) (self : LayoutToNetlist) (lmap : layer_map) (fuel : nat)
    (ccp dcp : option string) (bc : build_call) (ci : cell_index_type) (st : BuildState) :
  clusters_ranked rank (m_net_clusters self) ->
  regions_deep lmap ->
  is_Some (mp_netlist self) ->
  net_circuit (bc_net bc) = Some ci ->
  rank ci + 2 <= fuel ->
  bc_target bc < length (lay_cells (bs_target st)) ->
  T (bc_target bc) ->
  exists st',
    run_build_call self lmap fuel ccp dcp bc st = Done tt st'
    ∧ layout_grows T (bs_target st) (bs_target st').
Proof.
  intros Hrank Hdeep Hnl Hci Hfuel Htc HT.
  unfold run_build_call, build_net_rec_net. unfold_monad. rewrite Hci.
  rewrite bool_decide_eq_true_2 by done. unfold ret.
  destruct (bc_net_cell_name_prefix bc) as [prefix|].
  - rewrite (build_net_rec_net_cell rank) by done.
    destruct (_ || _); [|exists st; split; [done|apply layout_grows_refl]].
    set (st1 := with_net_cell _ (bc_target bc) st).
    destruct (build_net_rec_rebuilds rank self lmap Hrank Hdeep Hnl fuel ci
                (net_cluster_id (bc_net bc)) (length (lay_cells (bs_target st)))
                (Some (bc_net bc)) ccp dcp (bc_tr bc) st1 Hfuel) as (st' & Hst' & Hrel).
    { subst st1. unfold with_net_cell. simpl. rewrite length_alter, length_app. simpl. lia. }
    exists st'. split; [done|].
    destruct (with_net_cell_grows T (prefix +:+ net_expanded_name (bc_net bc))
                (bc_target bc) st HT) as (Hd1 & Hl1 & Hc1).
    fold st1 in Hd1, Hl1, Hc1.
    split_and!.
    + rewrite <- Hd1. apply Hrel.
    + etrans; [exact Hl1|apply Hrel].
    + intros i c Hc. destruct (Hc1 i c Hc) as (c1 & Hc1' & Hg1 & Hs1).
      destruct (rb_old _ _ _ _ _ _ _ Hrel i c1 Hc1') as (c' & Hc' & Hif).
      apply lookup_lt_Some in Hc. rewrite decide_False in Hif by lia. subst c'.
      by exists c1.
  - destruct (build_net_rec_rebuilds rank self lmap Hrank Hdeep Hnl fuel ci
                (net_cluster_id (bc_net bc)) (bc_target bc) (Some (bc_net bc)) ccp dcp
                (bc_tr bc) st Hfuel Htc) as (st' & Hst' & Hrel).
    exists st'. split; [done|]. apply (rebuilt_layout_grows T _ _ _ _ _ _ _ Hrel). by left.
Qed.

Lemma run_build_calls_grow {K : Kernel} (rank : cell_index_type -> nat)
    (T : cell_index_type -> Prop) (self : LayoutToNetlist) (lmap : layer_map) (fuel : nat)
    (ccp dcp : option string) (n0 : nat) :
  clusters_ranked rank (m_net_clusters self) ->
  regions_deep lmap ->
  is_Some (mp_netlist self) ->
  forall calls st,
    Forall (fun bc => (exists ci, net_circuit (bc_net bc) = Some ci ∧ rank ci + 2 <= fuel)
                      ∧ bc_target bc < n0 ∧ T (bc_target bc)) calls ->
    n0 <= length (lay_cells (bs_target st)) ->
    exists st',
      for_each calls (run_build_call self lmap fuel ccp dcp) st = Done tt st'
      ∧ layout_grows T (bs_target st) (bs_target st').
Proof.
  intros Hrank Hdeep Hnl.
  induction calls as [|bc calls IH]; intros st Hall Hn0.
  - exists st. split; [done|apply layout_grows_refl].
  - apply Forall_cons in Hall as [((ci & Hci & Hfuel) & Htc & HT) Hall].
    destruct (run_build_call_grows rank T self lmap fuel ccp dcp bc ci st Hrank Hdeep Hnl
                Hci Hfuel ltac:(lia) HT) as (st1 & Hst1 & Hg1).
    destruct (IH st1 Hall) as (st' & Hst' & Hg2).
    { destruct Hg1 as (_ & Hlen & _). lia. }
    exists st'. cbn [for_each]. unfold bind. rewrite Hst1. split; [done|].
    by eapply layout_grows_trans.
Qed.

(** X18.  [build_all_nets] returns and only adds to the target layout,
    provided every net it hands to [build_net_rec] belongs to a circuit,
    every target cell of the cell mapping exists in the target layout, the
    regions of the layer map are deep and the fuel covers the depth of the
    cluster hierarchy.  The database unit stays, no cell is removed or
    renamed, the cells there before only gain shapes and instances, and a
    cell that is not the target of a mapped circuit is left exactly as it
    was. *)
Theorem build_all_nets_only_adds {K : Kernel} (rank : cell_index_type -> nat)
    (self : LayoutToNetlist) (lmap : layer_map) (fuel : nat) (cmap : CellMapping)
    (ncp ccp dcp : option string) (target : Layout) (nl : Netlist) :
  m_netlist_extracted self = true ->
  netlist_data self = Some nl ->
  clusters_ranked rank (m_net_clusters self) ->
  regions_deep lmap ->
  (forall bc,
     bc ∈ build_all_nets_calls nl cmap
            (dbl_div (il_dbu (internal_layout self)) (lay_dbu target)) (lay_dbu target) ncp ccp ->
     exists ci, net_circuit (bc_net bc) = Some ci ∧ rank ci + 2 <= fuel) ->
  (forall i, mapped_target nl cmap i -> i < length (lay_cells target)) ->
  exists target',
    build_all_nets self lmap fuel cmap ncp ccp dcp target = Done tt target'
    ∧ layout_grows (mapped_target nl cmap) target target'.
Proof.
  intros Hflag Hnl Hrank Hdeep Hnets Htargets.
  rewrite (build_all_nets_runs_calls self lmap fuel cmap ncp ccp dcp target nl) by done.
  destruct (run_build_calls_grow rank (mapped_target nl cmap) self lmap fuel ccp dcp
              (length (lay_cells target)) Hrank Hdeep) with
    (calls := build_all_nets_calls nl cmap
                (dbl_div (il_dbu (internal_layout self)) (lay_dbu target)) (lay_dbu target)
                ncp ccp)
    (st := mkBuildState target ∅) as (st' & Hst' & Hgrow).
  - unfold netlist_data in Hnl. destruct (mp_netlist self); [eauto|done].
  - apply Forall_forall. intros bc Hbc. split; [by apply Hnets|].
    assert (HT : mapped_target nl cmap (bc_target bc)).
    { apply build_all_nets_calls_spec in Hbc as (c & target_ci & Hc & Hmap & Hcase).
      exists c. split; [done|].
      destruct Hcase as [(n & _ & _ & ->)|(_ & sc & p & n & _ & _ & _ & _ & ->)]; done. }
    split; [by apply Htargets|done].
  - done.
  - exists (bs_target st'). unfold with_cell_map. rewrite Hst'. done.
Qed.

Lemma build_all_nets_only_adds_witness :
  let K := Example.K in
  exists target',
    build_all_nets ExampleHier.facade1 ExampleHier.lmap1 4 ExampleHier.cellmap1
      (Some "N$") (Some "C$") (Some "D$") Example.target0 = Done tt target'
    ∧ layout_grows (mapped_target ExampleHier.netlist1 ExampleHier.cellmap1)
        Example.target0 target'.
Proof.
  intros K.
  apply (build_all_nets_only_adds ExampleHier.rank1 ExampleHier.facade1 ExampleHier.lmap1 4
           ExampleHier.cellmap1 (Some "N$"%string) (Some "C$"%string) (Some "D$"%string)
           Example.target0 ExampleHier.netlist1 eq_refl eq_refl clusters1_ranked lmap1_deep).
  - intros bc Hbc. apply list_elem_of_In in Hbc. cbn in Hbc.
    destruct Hbc as [<-|[<-|[<-|[]]]]; eexists; (split; [reflexivity|simpl; lia]).
  - intros i (c & Hc & Hmap). apply list_elem_of_In in Hc.
    destruct Hc as [<-|[<-|[]]]; cbn in Hmap; unfold ExampleHier.cellmap1 in Hmap.
    + apply lookup_singleton_Some in Hmap as [_ <-]. simpl. lia.
    + by apply lookup_singleton_Some in Hmap as [? _].
Defined.

(** ** Probing: what a hit is *)

Lemma descends_cell_at {K : Kernel} (self : LayoutToNetlist) (tc : TestCluster)
    (cell : cell_index_type) (trans : ICplxTrans) (down : list InstElement)
    (cell' : cell_index_type) (trans' : ICplxTrans) :
  descends self tc cell trans down cell' trans' -> cell' = cell_at cell down.
Proof.
  induction 1 as [|cell trans e path cell' trans' He _ IH]; [done|].
  unfold cell_at in *. cbn [map]. rewrite last_cons_default. done.
Qed.

Lemma find_interacting_Some {K : Kernel} (self : LayoutToNetlist) (tc : TestCluster)
    (trans : ICplxTrans) (lcc : list local_cluster) (lc : local_cluster) :
  find_interacting self tc trans lcc = Some lc ->
  lc ∈ lcc ∧ lc_interacts lc tc trans (m_conn self) = true.
Proof.
  unfold find_interacting. intros H. apply find_some in H as [Hin Hi].
  split; [by apply list_elem_of_In|done].
Qed.

Lemma search_net_sound {K : Kernel} (self : LayoutToNetlist) (tc : TestCluster)
    (fuel : nat) (trans : ICplxTrans) (cell : cell_index_type) (path0 : list InstElement)
    (cid : nat) (path : list InstElement) :
  search_net fuel self trans cell tc path0 = Some (cid, path) ->
  (cid = 0 -> path = path0)
  ∧ (0 < cid ->
     exists down cell' trans' lc,
       path = path0 ++ rev down
       ∧ descends self tc cell trans down cell' trans'
       ∧ cell' = cell_at cell down
       ∧ lc ∈ clusters_touching (m_net_clusters self) cell'
                (box_transformed trans' (tc_box tc))
       ∧ lc_interacts lc tc trans' (m_conn self) = true
       ∧ lc_id lc = cid).
Proof.
  revert trans cell path0 cid path.
  induction fuel as [|fuel IH]; intros trans cell path0 cid path Hs; [done|].
  cbn [search_net] in Hs.
  destruct (find_interacting self tc trans _) as [lc|] eqn:Hfind.
  { injection Hs as <- <-. split; [done|]. intros Hpos.
    apply find_interacting_Some in Hfind as [Hin Hi].
    exists [], cell, trans, lc. rewrite app_nil_r.
    split_and!; try done. constructor. }
  assert (Hsub : forall e,
            e ∈ touching_elements self cell (box_transformed trans (tc_box tc)) ->
            e ∈ touching_elements self cell (box_transformed trans (tc_box tc))) by done.
  revert Hs Hsub.
  generalize (touching_elements self cell (box_transformed trans (tc_box tc))) at 1 2.
  intros es. revert path0.
  induction es as [|e es IHes]; intros path0 Hs Hsub.
  { injection Hs as <- <-. split; [done|lia]. }
  cbn [search_instances] in Hs.
  destruct (search_net fuel self _ (ie_cell_index e) tc path0) as [[c1 p1]|] eqn:Hsub1;
    [|done].
  destruct (IH _ _ _ _ _ Hsub1) as [Hzero Hhit].
  case_bool_decide as Hc1.
  - injection Hs as <- <-. split; [lia|]. intros _.
    destruct (Hhit Hc1) as (down & cell' & trans' & lc & -> & Hdown & Hcell & Hin & Hi & Hid).
    exists (e :: down), cell', trans', lc.
    assert (He : e ∈ touching_elements self cell (box_transformed trans (tc_box tc)))
      by apply Hsub, list_elem_of_here.
    split_and!; try done.
    + cbn [rev]. by rewrite app_assoc.
    + by constructor.
    + apply (descends_cell_at self tc cell trans (e :: down) cell' trans'). by constructor.
  - rewrite Hzero in Hs by lia.
    apply IHes; [done|]. intros e' He'. apply Hsub. by apply list_elem_of_further.
Qed.


Lemma search_net_total {K : Kernel} (rank : cell_index_type -> nat) (self : LayoutToNetlist)
    (tc : TestCluster) :
  layout_ranked rank (internal_layout self) ->
  forall fuel cell trans path,
    rank cell < fuel ->
    is_Some (search_net fuel self trans cell tc path).
Proof.
  intros Hrank. induction fuel as [|fuel IH]; intros cell trans path Hfuel; [lia|].
  cbn [search_net]. destruct (find_interacting self tc trans _); [done|].
  assert (Hall : forall e,
            e ∈ touching_elements self cell (box_transformed trans (tc_box tc)) ->
            forall t path', is_Some (search_net fuel self t (ie_cell_index e) tc path')).
  { intros e He t path'. apply IH.
    pose proof (touching_elements_rank rank self cell _ e Hrank He). lia. }
  revert Hall. generalize (touching_elements self cell (box_transformed trans (tc_box tc))).
  intros es. revert path. induction es as [|e es IHes]; intros path Hall; [done|].
  cbn [search_instances].
  destruct (Hall e (list_elem_of_here _ _)
              (itrans_mul (itrans_inverted (ie_complex_trans e)) trans) path)
    as [[c1 p1] ->].
  case_bool_decide; [done|]. apply IHes. intros e' He'. apply Hall.
  by apply list_elem_of_further.
Qed.

(** X19.  [search_net] returns, given fuel beyond the depth of the instance
    hierarchy, and a hit is real.  When the cluster id it returns is above
    0, the instances it appended to the path, read backwards, lead from the
    cell it was called for down through touching instance array members to
    a cell that holds a cluster with that id, which touches the transformed
    test box and interacts with the test cluster under the accumulated
    inverse transformation.  When it returns 0, the path is returned as it
    was passed in. *)
Theorem search_net_hit_is_real {K : Kernel} (rank : cell_index_type -> nat)
    (self : LayoutToNetlist) (tc : TestCluster) (fuel : nat) (trans : ICplxTrans)
    (cell : cell_index_type) (path0 : list InstElement) :
  layout_ranked rank (internal_layout self) ->
  rank cell < fuel ->
  exists cid path,
    search_net fuel self trans cell tc path0 = Some (cid, path)
    ∧ (cid = 0 -> path = path0)
    ∧ (0 < cid ->
       exists down cell' trans' lc,
         path = path0 ++ rev down
         ∧ descends self tc cell trans down cell' trans'
         ∧ cell' = cell_at cell down
         ∧ lc ∈ clusters_touching (m_net_clusters self) cell'
                  (box_transformed trans' (tc_box tc))
         ∧ lc_interacts lc tc trans' (m_conn self) = true
         ∧ lc_id lc = cid).
Proof.
  intros Hrank Hfuel.
  destruct (search_net_total rank self tc Hrank fuel cell trans path0 Hfuel)
    as [[cid path] Hs].
  exists cid, path. split; [done|]. by apply (search_net_sound self tc fuel trans cell path0).
Qed.

Lemma layout1_ranked :
  layout_ranked (K := Example.K) ExampleHier.rank1 (internal_layout ExampleHier.facade1).
Proof.
  intros ci box i Hi. simpl in Hi.
  destruct ci as [|[|ci]]; simpl in Hi.
  - apply elem_of_cons in Hi as [->|Hi]; [simpl; lia|].
    apply elem_of_cons in Hi as [->|Hi]; [simpl; lia|]. by apply elem_of_nil in Hi.
  - apply elem_of_cons in Hi as [->|Hi]; [simpl; lia|]. by apply elem_of_nil in Hi.
  - by apply elem_of_nil in Hi.
Qed.

Lemma search_net_hit_is_real_witness :
  let K := Example.K in
  let tc := mkTestCluster (probe_box ExampleHier.probe_point) 1 in
  exists cid path,
    search_net 3 ExampleHier.facade1 Scaling.unit 0 tc [] = Some (cid, path)
    ∧ (cid = 0 -> path = []).
Proof.
  intros K tc.
  destruct (search_net_hit_is_real ExampleHier.rank1 ExampleHier.facade1 tc 3 Scaling.unit 0 []
              layout1_ranked) as (cid & path & Hs & Hzero & _).
  - simpl. lia.
  - by exists cid, path.
Defined.

Example search_net_example :
  let K := Example.K in
  search_net 3 ExampleHier.facade1 Scaling.unit 0
    (mkTestCluster (probe_box ExampleHier.probe_point) 1) []
  = Some (1, [ExampleHier.child_inst]).
Proof. reflexivity. Qed.

(** X20.  [probe_net] returns or throws, given fuel beyond the depth of the
    instance hierarchy, and it only reads: in either case the facade is
    afterwards as it was before.  The exceptions it can end with are the
    state error, the failed assertions on the netlist pointer and on the
    pin, and the exception of [layer_of].  The overload for a micron-unit
    point behaves alike. *)
Theorem probe_net_leaves_facade_unchanged {K : Kernel} (rank : cell_index_type -> nat)
    (fuel : nat) (r : Region) (s : LayoutToNetlist) :
  layout_ranked rank (internal_layout s) ->
  rank (internal_top_cell s) < fuel ->
  let ends m :=
    (exists n : option Net, m = Done n s)
    ∨ (exists e, m = Raise e s
                 ∧ e ∈ [Exception msg_not_extracted; InternalException;
                        Exception msg_non_hier]) in
  (forall p, ends (probe_net fuel r p s))
  ∧ (forall p, ends (probe_net_dpoint fuel r p s)).
Proof.
  intros Hrank Hfuel ends.
  assert (H : forall p, ends (probe_net fuel r p s)).
  { intros p. unfold ends.
    destruct (m_netlist_extracted s) eqn:Hflag.
    2:{ right. rewrite probe_net_rejected by done. eexists. split; [reflexivity|].
        apply list_elem_of_here. }
    destruct (mp_netlist s) as [o|] eqn:Ho.
    2:{ right. exists InternalException. split.
        - unfold probe_net. unfold bind at 1. unfold get at 1. rewrite Hflag. cbn [negb].
          unfold bind at 1. unfold tl_assert. by rewrite Ho.
        - apply list_elem_of_further, list_elem_of_here. }
    rewrite (probe_net_extracted s fuel r p o) by done.
    destruct r as [|dl].
    { right. eexists. split; [reflexivity|].
      do 2 apply list_elem_of_further. apply list_elem_of_here. }
    assert (Hm : exists out,
              probe_net_checked fuel s (obj_data o) (dl_layer dl) p s = out
              ∧ ((exists n, out = Done n s) ∨ out = Raise InternalException s)).
    { unfold probe_net_checked. unfold bind at 1.
      destruct (search_net_total rank s (mkTestCluster (probe_box p) (dl_layer dl)) Hrank
                  fuel (internal_top_cell s) itrans_unit [] Hfuel) as [[cid path] ->].
      simpl.
      case_bool_decide; [|eexists; split; [reflexivity|left; by eexists]].
      destruct (last _ ≫= _) as [c|]; [|eexists; split; [reflexivity|left; by eexists]].
      destruct (net_by_cluster_id c cid) as [n|];
        [|eexists; split; [reflexivity|left; by eexists]].
      unfold bind.
      destruct (follow_up_sound (S := LayoutToNetlist) (obj_data o)
                  (il_dbu (internal_layout s)) (internal_top_cell s) (length (rev path))
                  (rev path) c n s (le_n _)) as [(res & -> & _)| ->];
        eexists; (split; [reflexivity|]); [left; by eexists|by right]. }
    destruct Hm as (out & -> & [[n ->]| ->]); [left; by eexists|].
    right. eexists. split; [reflexivity|].
    apply list_elem_of_further, list_elem_of_here. }
  split; [done|]. intros p. unfold probe_net_dpoint. unfold bind, get. apply H.
Qed.

Lemma probe_net_leaves_facade_unchanged_witness :
  let K := Example.K in
  exists n, probe_net 3 Example.m1 ExampleHier.probe_point ExampleHier.facade1
            = Done n ExampleHier.facade1.
Proof.
  intros K.
  destruct (probe_net_leaves_facade_unchanged ExampleHier.rank1 3 Example.m1
              ExampleHier.facade1 layout1_ranked) as [H _].
  - simpl. lia.
  - destruct (H ExampleHier.probe_point) as [Hdone|(e & Hraise & _)]; [exact Hdone|].
    discriminate Hraise.
Defined.

(** X21.  While the netlist is marked extracted but there is none, which
    is the state [set_netlist_extracted] leaves a facade without netlist
    in, [probe_net] fails the assertion on the netlist pointer for every
    region and point, before the region is looked at. *)
Theorem probe_net_asserts_the_netlist {K : Kernel} (netex : NetlistExtractor)
    (s : LayoutToNetlist) (fuel : nat) (r : Region) (p : Point) :
  mp_netlist s = None ->
  let s' := after netex CallSetNetlistExtracted s in
  m_netlist_extracted s' = true
  ∧ mp_netlist s' = None
  ∧ probe_net fuel r p s' = Raise InternalException s'.
Proof.
  intros Hnone s'. subst s'. unfold after. simpl. split_and!; try done.
  unfold probe_net. unfold bind at 1. unfold get at 1. simpl.
  unfold bind at 1. unfold tl_assert. simpl. by rewrite Hnone.
Qed.

Lemma probe_net_asserts_the_netlist_witness :
  let K := Example.K in
  let s' := after Example.netex0 CallSetNetlistExtracted Example.facade0 in
  probe_net 1 FlatRegion ExampleProbe.origin s' = Raise InternalException s'.
Proof.
  intros K s'.
  apply (probe_net_asserts_the_netlist Example.netex0 Example.facade0 1 FlatRegion
           ExampleProbe.origin eq_refl).
Defined.

(** X22.  When the search finds a cluster but the cell it lies in has no
    circuit in the netlist, or that circuit has no net with the cluster's
    id, [probe_net] returns the null net and does not throw. *)
Theorem probe_net_null_when_optimized_away {K : Kernel} (s : LayoutToNetlist) (fuel : nat)
    (dl : DeepLayer) (p : Point) (o : NetlistObj) (cluster_id : nat)
    (rev_path : list InstElement) :
  m_netlist_extracted s = true ->
  mp_netlist s = Some o ->
  search_net fuel s itrans_unit (internal_top_cell s)
    (mkTestCluster (probe_box p) (dl_layer dl)) [] = Some (cluster_id, rev_path) ->
  0 < cluster_id ->
  let leaf := cell_at (internal_top_cell s) (rev rev_path) in
  circuit_by_cell_index (obj_data o) leaf = None
  ∨ (exists c, circuit_by_cell_index (obj_data o) leaf = Some c
               ∧ net_by_cluster_id c cluster_id = None) ->
  probe_net fuel (DeepRegion dl) p s = Done None s.
Proof.
  intros Hflag Ho Hsearch Hcid leaf Hgone.
  rewrite (probe_net_extracted s fuel _ p o) by done.
  unfold probe_net_checked. unfold bind at 1. rewrite Hsearch. simpl.
  rewrite bool_decide_eq_true_2 by done.
  rewrite last_cons_default. fold (cell_at (internal_top_cell s) (rev rev_path)).
  fold leaf. simpl.
  destruct Hgone as [->|(c & -> & ->)]; done.
Qed.

Lemma probe_net_null_when_optimized_away_witness :
  let K := Example.K in
  let gone := with_netlist (Some (mkNetlistObj 0 (mkNetlist [ExampleHier.top_circuit] [3])))
                ExampleHier.facade1 in
  probe_net 3 Example.m1 ExampleHier.probe_point gone = Done None gone.
Proof.
  intros K gone.
  apply (probe_net_null_when_optimized_away gone 3 (mkDeepLayer 0 1) ExampleHier.probe_point
           (mkNetlistObj 0 (mkNetlist [ExampleHier.top_circuit] [3])) 1
           [ExampleHier.child_inst] eq_refl eq_refl eq_refl).
  - lia.
  - left. reflexivity.
Defined.

(** X23.  A hit in the top cell needs no climb: when a cluster of the top
    cell touching the test box interacts with it, [search_net] stops at the
    first such cluster, and [probe_net] returns the net of the top cell's
    circuit with that cluster id, whether the net has pins or not. *)
Theorem probe_net_hit_in_top_cell {K : Kernel} (s : LayoutToNetlist) (fuel : nat)
    (dl : DeepLayer) (p : Point) (o : NetlistObj) (lc : local_cluster) (c : Circuit)
    (n : Net) :
  m_netlist_extracted s = true ->
  mp_netlist s = Some o ->
  0 < fuel ->
  find_interacting s (mkTestCluster (probe_box p) (dl_layer dl)) itrans_unit
    (clusters_touching (m_net_clusters s) (internal_top_cell s)
       (box_transformed itrans_unit (probe_box p))) = Some lc ->
  0 < lc_id lc ->
  circuit_by_cell_index (obj_data o) (internal_top_cell s) = Some c ->
  net_by_cluster_id c (lc_id lc) = Some n ->
  probe_net fuel (DeepRegion dl) p s = Done (Some n) s.
Proof.
  intros Hflag Ho Hfuel Hfind Hid Hc Hn.
  rewrite (probe_net_extracted s fuel _ p o) by done.
  unfold probe_net_checked. unfold bind at 1.
  destruct fuel as [|fuel]; [lia|]. cbn [search_net tc_box].
  rewrite Hfind. simpl. rewrite bool_decide_eq_true_2 by done. simpl.
  by rewrite Hc, Hn.
Qed.

Lemma probe_net_hit_in_top_cell_witness :
  let K := Example.K in
  let lc := mkLocalCluster 5 (fun _ _ _ => true) in
  let clusters := mkHierClusters
                    (connections_for_cluster ExampleHier.clusters1)
                    (cluster_shapes ExampleHier.clusters1)
                    (fun ci _ => match ci with 0 => [lc] | _ => [] end) in
  let s := with_net_clusters clusters ExampleHier.facade1 in
  probe_net 1 Example.m1 ExampleHier.probe_point s = Done (Some ExampleHier.vdd) s.
Proof.
  intros K lc clusters s.
  apply (probe_net_hit_in_top_cell s 1 (mkDeepLayer 0 1) ExampleHier.probe_point
           (mkNetlistObj 0 ExampleHier.netlist1) lc ExampleHier.top_circuit ExampleHier.vdd
           eq_refl eq_refl).
  - lia.
  - reflexivity.
  - simpl. lia.
  - reflexivity.
  - reflexivity.
Defined.

(** ** Cell mappings and children without a prefix *)

(** X24.  [cell_mapping_into] asks the store for the mapping with a set of
    cells to leave out.  The set is empty when device cells are wanted or
    when there is no netlist; otherwise it holds exactly the cells of the
    netlist's device abstracts, the cells [build_net_rec] gives the device
    cell prefix. *)
Theorem cell_mapping_leaves_out_device_cells {K : Kernel}
    (cell_mapping_to_original :
       DeepShapeStore -> nat -> Layout -> cell_index_type -> gset cell_index_type
       -> Layout * CellMapping)
    (self : LayoutToNetlist) (layout : Layout) (cell : cell_index_type) :
  cell_mapping_into cell_mapping_to_original self layout cell true
  = cell_mapping_to_original (m_dss self) 0 layout cell ∅
  ∧ (mp_netlist self = None ->
     cell_mapping_into cell_mapping_to_original self layout cell false
     = cell_mapping_to_original (m_dss self) 0 layout cell ∅)
  ∧ (forall nl,
       netlist_data self = Some nl ->
       exists excluded,
         cell_mapping_into cell_mapping_to_original self layout cell false
         = cell_mapping_to_original (m_dss self) 0 layout cell excluded
         ∧ forall ci, ci ∈ excluded <-> device_abstract_by_cell_index nl ci = true).
Proof.
  unfold cell_mapping_into, device_cells. split_and!.
  - done.
  - intros Hnone. unfold netlist_data. by rewrite Hnone.
  - intros nl ->. exists (list_to_set (nl_device_abstracts nl)). split; [done|]. intros ci.
    rewrite elem_of_list_to_set. unfold device_abstract_by_cell_index.
    rewrite existsb_exists. split.
    + intros Hin. exists ci. split; [by apply list_elem_of_In|apply Nat.eqb_refl].
    + intros (x & Hin & Heq). apply Nat.eqb_eq in Heq as ->. by apply list_elem_of_In.
Qed.

Lemma place_children_without_prefix {K : Kernel} (self : LayoutToNetlist)
    (recurse : cell_index_type -> nat -> cell_index_type -> ICplxTrans -> Build unit)
    (tc : cell_index_type) (cp dp : option string) (tr : ICplxTrans) (nl : Netlist) :
  netlist_data self = Some nl ->
  forall cs st,
    Forall (no_prefix_for nl cp dp) cs ->
    (forall k v, bs_cmap st !! k = Some v -> v = None) ->
    exists m',
      for_each cs (place_child self recurse tc cp dp tr) st
      = Done tt (mkBuildState (bs_target st) m')
      ∧ (forall k v, m' !! k = Some v -> v = None).
Proof.
  intros Hnl. induction cs as [|c cs IH]; intros st Hall Hmemo.
  - exists (bs_cmap st). split; [by destruct st|done].
  - apply Forall_cons in Hall as [Hc Hall]. cbn [for_each]. unfold bind at 1.
    assert (Hstep : exists m1,
              place_child self recurse tc cp dp tr c st
              = Done tt (mkBuildState (bs_target st) m1)
              ∧ (forall k v, m1 !! k = Some v -> v = None)).
    { unfold place_child. unfold bind at 1. unfold get at 1.
      destruct (bs_cmap st !! (inst_cell_index c, cl_id c)) as [v|] eqn:Hk.
      - rewrite (Hmemo _ _ Hk). unfold bind, ret. exists (bs_cmap st).
        split; [by destruct st|done].
      - rewrite Hnl. unfold no_prefix_for in Hc. unfold bind, ret, modify.
        rewrite Hc. unfold cmap_insert. eexists. split; [reflexivity|].
        intros k v. destruct (decide (k = (inst_cell_index c, cl_id c))) as [->|Hne].
        + rewrite lookup_insert_eq. by intros [= <-].
        + rewrite lookup_insert_ne by done. apply Hmemo. }
    destruct Hstep as (m1 & -> & Hm1).
    destruct (IH (mkBuildState (bs_target st) m1) Hall Hm1) as (m' & Hrun & Hm').
    exists m'. by rewrite Hrun.
Qed.

(** X25.  Children without a prefix are left out.  When every connection
    of the net's cluster leads into a cell for which no name prefix was
    given (a device abstract without a device cell prefix, any other cell
    without a circuit cell prefix), [build_net] makes no cell and no
    instance for them and does not descend into them: the target layout is
    the one of the flat rebuild, with neither prefix. *)
Theorem children_without_prefix_are_left_out {K : Kernel} (rank : cell_index_type -> nat)
    (self : LayoutToNetlist) (lmap : layer_map) (fuel : nat) (net : Net)
    (ci : cell_index_type) (tc : cell_index_type) (cp dp : option string) (target : Layout)
    (nl : Netlist) :
  m_netlist_extracted self = true ->
  netlist_data self = Some nl ->
  net_circuit net = Some ci ->
  clusters_ranked rank (m_net_clusters self) ->
  regions_deep lmap ->
  rank ci + 2 <= fuel ->
  (forall c,
     c ∈ connections_for_cluster (m_net_clusters self) ci (net_cluster_id net) ->
     no_prefix_for nl cp dp c) ->
  exists target',
    build_net self lmap fuel net tc None None target = Done tt target'
    ∧ build_net self lmap fuel net tc cp dp target = Done tt target'.
Proof.
  intros Hflag Hnl Hci Hrank Hdeep Hfuel Hnone.
  destruct fuel as [|fuel]; [lia|].
  unfold build_net, with_cell_map, build_net_rec_net. unfold_monad.
  rewrite Hflag, Hci. cbn [negb bool_decide decide_rel].
  rewrite bool_decide_eq_true_2 by done. unfold ret.
  rewrite (flat_build_net_rec rank) by (done || lia).
  eexists. split; [reflexivity|].
  cbn [build_net_rec]. unfold bind at 1. unfold ret at 1. unfold bind at 1.
  rewrite (deliver_layers_spec rank) by (done || lia).
  destruct (negb (bool_decide (is_Some cp)) && negb (bool_decide (is_Some dp))); [done|].
  match goal with
  | |- context [for_each ?cs (place_child self ?rec tc cp dp ?tr) ?st] =>
      destruct (place_children_without_prefix self rec tc cp dp tr nl Hnl cs st)
        as (m' & -> & _)
  end.
  - by apply Forall_forall.
  - intros k v. simpl. by rewrite lookup_empty.
  - done.
Qed.

Lemma children_without_prefix_are_left_out_witness :
  let K := Example.K in
  exists target',
    build_net ExampleHier.facade1 ExampleHier.lmap1 4 ExampleHier.gnd 0 None None
      Example.target0 = Done tt target'
    ∧ build_net ExampleHier.facade1 ExampleHier.lmap1 4 ExampleHier.gnd 0 None (Some "D$")
        Example.target0 = Done tt target'.
Proof.
  intros K.
  apply (children_without_prefix_are_left_out ExampleHier.rank1 ExampleHier.facade1
           ExampleHier.lmap1 4 ExampleHier.gnd 0 0 None (Some "D$"%string) Example.target0
           ExampleHier.netlist1 eq_refl eq_refl eq_refl clusters1_ranked lmap1_deep).
  - simpl. lia.
  - intros c Hc. apply list_elem_of_In in Hc. destruct Hc as [<-|[]]. reflexivity.
Defined.

(** ** The target cell after a rebuild *)

Lemma placement_of_weaken {K : Kernel}
    (m m' : gmap (cell_index_type * nat) (option cell_index_type)) (tr : ICplxTrans)
    (c : ClusterInstance) :
  m ⊆ m' -> is_Some (m !! (inst_cell_index c, cl_id c)) ->
  placement_of m' tr c = placement_of m tr c.
Proof.
  intros Hsub [v Hv]. unfold placement_of.
  by rewrite (lookup_weaken _ _ _ _ Hv Hsub), Hv.
Qed.

Lemma placement_of_without_prefix {K : Kernel} (nl : Netlist)
    (m : gmap (cell_index_type * nat) (option cell_index_type)) (tr : ICplxTrans)
    (cs : list ClusterInstance) :
  memo_follows_prefixes nl None None m ->
  omap (placement_of m tr) cs = [].
Proof.
  intros Hm. induction cs as [|c cs IH]; [done|]. cbn [omap list_omap].
  unfold placement_of at 1.
  destruct (m !! (inst_cell_index c, cl_id c)) as [[idx|]|] eqn:Hk; try done.
  apply Hm in Hk. unfold child_prefix in Hk.
  destruct (device_abstract_by_cell_index nl _); destruct Hk as [Hk _];
    by destruct (Hk ltac:(eauto)).
Qed.

Lemma place_child_places {K : Kernel} (self : LayoutToNetlist) (nl : Netlist)
    (ccp dcp : option string)
    (recurse : cell_index_type -> nat -> cell_index_type -> ICplxTrans -> Build unit)
    (tc : cell_index_type) (tr : ICplxTrans) (c : ClusterInstance) (st : BuildState)
    (c_tc : Cell) :
  netlist_data self = Some nl ->
  (forall tci st1,
     tci < length (lay_cells (bs_target st1)) ->
     memo_follows_prefixes nl ccp dcp (bs_cmap st1) ->
     exists st2,
       recurse (inst_cell_index c) (cl_id c) tci (tr_mag tr) st1 = Done tt st2
       ∧ rebuilt self ccp dcp tci (tr_mag tr) st1 st2
       ∧ memo_follows_prefixes nl ccp dcp (bs_cmap st2)) ->
  lay_cells (bs_target st) !! tc = Some c_tc ->
  memo_follows_prefixes nl ccp dcp (bs_cmap st) ->
  exists st',
    place_child self recurse tc ccp dcp tr c st = Done tt st'
    ∧ bs_cmap st ⊆ bs_cmap st'
    ∧ memo_follows_prefixes nl ccp dcp (bs_cmap st')
    ∧ is_Some (bs_cmap st' !! (inst_cell_index c, cl_id c))
    ∧ lay_cells (bs_target st') !! tc
      = Some (mkCell (cell_name c_tc) (cell_shapes c_tc)
                (cell_insts c_tc ++ option_list (placement_of (bs_cmap st') tr c))).
Proof.
  intros Hnl Hrec Htc Hmemo. unfold place_child.
  unfold bind at 1. unfold get at 1.
  destruct (bs_cmap st !! (inst_cell_index c, cl_id c)) as [[idx|]|] eqn:Hkey.
  - (* memoized with a target cell: only the instance is placed *)
    unfold bind, ret, insert_inst, modify. eexists. split; [reflexivity|].
    cbn [alter_cell bs_cmap bs_target lay_cells].
    split_and!; try done; try (by rewrite Hkey).
    rewrite list_lookup_alter_eq, Htc. unfold placement_of. rewrite Hkey. done.
  - (* memoized without a target cell *)
    unfold bind, ret. exists st. split_and!; try done; try (by rewrite Hkey).
    rewrite Htc. unfold placement_of. rewrite Hkey. cbn [option_list].
    rewrite app_nil_r. by destruct c_tc.
  - rewrite Hnl. unfold bind at 1. unfold bind at 1. unfold ret at 1.
    fold (child_prefix nl ccp dcp (inst_cell_index c)).
    destruct (child_prefix nl ccp dcp (inst_cell_index c)) as [np|] eqn:Hnp.
    + (* a new target cell, filled by the recursive call and then placed *)
      set (nm := np +:+ il_cell_name (internal_layout self) (inst_cell_index c)).
      set (n0 := length (lay_cells (bs_target st))).
      set (st1 := cmap_insert (inst_cell_index c, cl_id c) (Some n0)
                    (mkBuildState
                       (mkLayout (lay_cells (bs_target st) ++ [mkCell nm ∅ []])
                                 (lay_dbu (bs_target st)))
                       (bs_cmap st))).
      assert (Hsub1 : bs_cmap st ⊆ bs_cmap st1).
      { subst st1. simpl. by apply insert_subseteq. }
      assert (Hmemo1 : memo_follows_prefixes nl ccp dcp (bs_cmap st1)).
      { subst st1. simpl. intros key v.
        destruct (decide (key = (inst_cell_index c, cl_id c))) as [->|Hne].
        - rewrite lookup_insert_eq. intros [= <-]. simpl. rewrite Hnp. split; eauto.
        - rewrite lookup_insert_ne by done. apply Hmemo. }
      destruct (Hrec n0 st1) as (st2 & Hst2 & Hrel2 & Hmemo2); [|done|].
      { subst st1 n0. simpl. rewrite length_app. simpl. lia. }
      assert (Hsub2 : bs_cmap st1 ⊆ bs_cmap st2) by apply Hrel2.
      assert (Hkey2 : bs_cmap st2 !! (inst_cell_index c, cl_id c) = Some (Some n0)).
      { eapply lookup_weaken; [|exact Hsub2]. subst st1. simpl. apply lookup_insert_eq. }
      assert (Htc2 : lay_cells (bs_target st2) !! tc = Some c_tc).
      { assert (Htc1 : lay_cells (bs_target st1) !! tc = Some c_tc).
        { subst st1. simpl. by apply lookup_app_l_Some. }
        destruct (rb_old _ _ _ _ _ _ _ Hrel2 tc c_tc Htc1) as (c' & Hc' & Hif).
        apply lookup_lt_Some in Htc. rewrite decide_False in Hif by (subst n0; lia).
        by subst c'. }
      eexists. split.
      { unfold add_cell, insert_inst, bind, get, put, modify, ret. simpl.
        fold nm. fold n0. fold st1. unfold tr_mag in Hst2. rewrite Hst2. reflexivity. }
      cbn [alter_cell bs_cmap bs_target lay_cells]. split_and!.
      * by etrans.
      * done.
      * by rewrite Hkey2.
      * rewrite list_lookup_alter_eq, Htc2. unfold placement_of. rewrite Hkey2. done.
    + (* no name prefix: the marker *)
      unfold bind, modify, ret. eexists. split; [reflexivity|].
      cbn [cmap_insert bs_cmap bs_target]. split_and!.
      * by apply insert_subseteq.
      * intros key v. destruct (decide (key = (inst_cell_index c, cl_id c))) as [->|Hne].
        -- rewrite lookup_insert_eq. intros [= <-]. simpl. rewrite Hnp.
           split; intros []; done.
        -- rewrite lookup_insert_ne by done. apply Hmemo.
      * rewrite lookup_insert_eq. eauto.
      * rewrite Htc. unfold placement_of. rewrite lookup_insert_eq. cbn [option_list].
        rewrite app_nil_r. by destruct c_tc.
Qed.


Lemma place_children_place {K : Kernel} (self : LayoutToNetlist) (nl : Netlist)
    (ccp dcp : option string)
    (recurse : cell_index_type -> nat -> cell_index_type -> ICplxTrans -> Build unit)
    (tc : cell_index_type) (tr : ICplxTrans) :
  netlist_data self = Some nl ->
  forall cs st c_tc,
    Forall (fun c =>
              forall tci st1,
                tci < length (lay_cells (bs_target st1)) ->
                memo_follows_prefixes nl ccp dcp (bs_cmap st1) ->
                exists st2,
                  recurse (inst_cell_index c) (cl_id c) tci (tr_mag tr) st1 = Done tt st2
                  ∧ rebuilt self ccp dcp tci (tr_mag tr) st1 st2
                  ∧ memo_follows_prefixes nl ccp dcp (bs_cmap st2)) cs ->
    lay_cells (bs_target st) !! tc = Some c_tc ->
    memo_follows_prefixes nl ccp dcp (bs_cmap st) ->
    exists st',
      for_each cs (place_child self recurse tc ccp dcp tr) st = Done tt st'
      ∧ bs_cmap st ⊆ bs_cmap st'
      ∧ memo_follows_prefixes nl ccp dcp (bs_cmap st')
      ∧ Forall (fun c => is_Some (bs_cmap st' !! (inst_cell_index c, cl_id c))) cs
      ∧ lay_cells (bs_target st') !! tc
        = Some (mkCell (cell_name c_tc) (cell_shapes c_tc)
                  (cell_insts c_tc ++ omap (placement_of (bs_cmap st') tr) cs)).
Proof.
  intros Hnl. induction cs as [|c cs IH]; intros st c_tc Hrec Htc Hmemo.
  - exists st. cbn [for_each omap list_omap]. split_and!; try done.
    rewrite Htc, app_nil_r. by destruct c_tc.
  - apply Forall_cons in Hrec as [Hc Hcs].
    destruct (place_child_places self nl ccp dcp recurse tc tr c st c_tc Hnl Hc Htc Hmemo)
      as (st1 & Hst1 & Hsub1 & Hmemo1 & Hkey1 & Htc1).
    destruct (IH st1 _ Hcs Htc1 Hmemo1) as (st2 & Hst2 & Hsub2 & Hmemo2 & Hkeys2 & Htc2).
    exists st2. split_and!.
    + cbn [for_each]. unfold bind. by rewrite Hst1.
    + by etrans.
    + done.
    + apply Forall_cons. split; [|done].
      destruct Hkey1 as [v Hv]. exists v. by eapply lookup_weaken.
    + rewrite Htc2. cbn [cell_name cell_shapes cell_insts omap list_omap].
      rewrite (placement_of_weaken _ _ tr c Hsub2 Hkey1).
      by destruct (placement_of (bs_cmap st1) tr c); cbn [option_list]; rewrite <- app_assoc.
Qed.

(** The part of [build_net_rec] after the net cell, with the target cell
    spelled out: its name stays, every layer gets the mapped shapes, and the
    connections of the cluster are placed in their order. *)
Lemma build_net_rec_places {K : Kernel} (rank : cell_index_type -> nat)
    (self : LayoutToNetlist) (lmap : layer_map) (nl : Netlist) :
  clusters_ranked rank (m_net_clusters self) ->
  regions_deep lmap ->
  netlist_data self = Some nl ->
  forall fuel ci cid tc net ccp dcp tr st c_tc,
    rank ci + 2 <= fuel ->
    lay_cells (bs_target st) !! tc = Some c_tc ->
    memo_follows_prefixes nl ccp dcp (bs_cmap st) ->
    exists st',
      build_net_rec self lmap fuel ci cid tc net None ccp dcp tr st = Done tt st'
      ∧ rebuilt self ccp dcp tc tr st st'
      ∧ memo_follows_prefixes nl ccp dcp (bs_cmap st')
      ∧ (is_Some ccp ∨ is_Some dcp ->
         Forall (fun c => is_Some (bs_cmap st' !! (inst_cell_index c, cl_id c)))
           (connections_for_cluster (m_net_clusters self) ci cid))
      ∧ exists c',
          lay_cells (bs_target st') !! tc = Some c'
          ∧ cell_name c' = cell_name c_tc
          ∧ (forall k,
               shapes_at c' k = shapes_at c_tc k ++ mapped_shapes fuel self lmap ci cid tr k)
          ∧ cell_insts c'
            = cell_insts c_tc
              ++ omap (placement_of (bs_cmap st') tr)
                   (connections_for_cluster (m_net_clusters self) ci cid).
Proof.
  intros Hrank Hdeep Hnl.
  assert (Hnl' : is_Some (mp_netlist self)).
  { unfold netlist_data in Hnl. destruct (mp_netlist self); [eauto|done]. }
  induction fuel as [|fuel IH]; intros ci cid tc net ccp dcp tr st c_tc Hfuel Htc Hmemo; [lia|].
  destruct (build_net_rec_rebuilds rank self lmap Hrank Hdeep Hnl' (S fuel) ci cid tc net
              ccp dcp tr st Hfuel (lookup_lt_Some _ _ _ Htc)) as (st0 & Hrun0 & Hrel0).
  rewrite Hrun0. exists st0. split; [done|]. split; [done|]. revert Hrun0.
  cbn [build_net_rec]. unfold bind at 1. unfold ret at 1.
  unfold bind at 1. rewrite (deliver_layers_spec rank) by (done || lia).
  set (st1 := alter_cell _ tc st).
  destruct (layers_delivered_cell fuel self ci cid tr lmap c_tc) as (Hn & Hi & Hs).
  assert (Htc1 : lay_cells (bs_target st1) !! tc
                 = Some (layers_delivered fuel self ci cid tr lmap c_tc)).
  { subst st1. cbn [alter_cell bs_target lay_cells]. by rewrite list_lookup_alter_eq, Htc. }
  assert (Hshapes : forall k,
            shapes_at (layers_delivered fuel self ci cid tr lmap c_tc) k
            = shapes_at c_tc k ++ mapped_shapes (S fuel) self lmap ci cid tr k).
  { intros k. rewrite Hs. f_equal. apply (mapped_shapes_fuel rank); [done|lia|lia]. }
  destruct (negb (bool_decide (is_Some ccp)) && negb (bool_decide (is_Some dcp))) eqn:Hpre.
  - (* neither prefix: the connections are not looked at *)
    intros [= <-]. apply andb_true_iff in Hpre as [Hc Hd].
    apply negb_true_iff, bool_decide_eq_false in Hc.
    apply negb_true_iff, bool_decide_eq_false in Hd.
    split; [done|]. split; [intros [?|?]; done|].
    eexists. split; [exact Htc1|]. split_and!; try done.
    rewrite Hi. destruct ccp; [by destruct Hc|]. destruct dcp; [by destruct Hd|].
    subst st1. cbn [alter_cell bs_cmap].
    by rewrite (placement_of_without_prefix nl), app_nil_r.
  - destruct (place_children_place self nl ccp dcp
                (fun subci subcid target_ci tr_mag =>
                   build_net_rec self lmap fuel subci subcid target_ci None None ccp dcp tr_mag)
                tc tr Hnl (connections_for_cluster (m_net_clusters self) ci cid) st1
                (layers_delivered fuel self ci cid tr lmap c_tc))
      as (st' & Hrun & Hsub & Hmemo' & Hkeys & Htc'); [|done|done|].
    { apply Forall_forall. intros c Hc tci st2 Htci Hmemo2.
      destruct (lookup_lt_is_Some_2 _ _ Htci) as [c2 Hc2].
      destruct (IH (inst_cell_index c) (cl_id c) tci None ccp dcp (tr_mag tr) st2 c2)
        as (st3 & Hst3 & Hrel3 & Hmemo3 & _); [|done|done|].
      { pose proof (Hrank ci cid c Hc). lia. }
      exists st3. done. }
    rewrite Hrun. intros [= <-]. split; [done|]. split; [done|].
    eexists. split; [exact Htc'|]. cbn [cell_name cell_insts]. split_and!; try done.
    by rewrite Hi.
Qed.


(** X27.  What [build_net] makes of the target cell.  With an extracted
    netlist, deep regions and a net of a circuit, [build_net] returns; the
    target cell keeps its name, each of its layers is extended by the mapped
    shapes of the net, and its instances are extended, in the order of the
    connections of the net's cluster, by one instance per connection whose
    cell has a name prefix (the device cell prefix for a device abstract,
    the circuit cell prefix otherwise) and by none for the others.  The
    instance of such a connection leads to a cell added to the target
    layout and named by the prefix followed by the name of the source cell;
    connections to the same child cluster share the cell, and different
    child clusters get different cells. *)
Theorem build_net_places_children_in_order {K : Kernel} (rank : cell_index_type -> nat)
    (self : LayoutToNetlist) (lmap : layer_map) (fuel : nat) (net : Net)
    (ci : cell_index_type) (tc : cell_index_type) (ccp dcp : option string) (target : Layout)
    (nl : Netlist) (c_tc : Cell) :
  m_netlist_extracted self = true ->
  netlist_data self = Some nl ->
  net_circuit net = Some ci ->
  clusters_ranked rank (m_net_clusters self) ->
  regions_deep lmap ->
  rank ci + 2 <= fuel ->
  lay_cells target !! tc = Some c_tc ->
  let tr := itrans_of_mag (dbl_div (il_dbu (internal_layout self)) (lay_dbu target)) in
  let conns := connections_for_cluster (m_net_clusters self) ci (net_cluster_id net) in
  exists target' cmap c',
    build_net self lmap fuel net tc ccp dcp target = Done tt target'
    ∧ lay_cells target' !! tc = Some c'
    ∧ cell_name c' = cell_name c_tc
    ∧ (forall k,
         shapes_at c' k
         = shapes_at c_tc k ++ mapped_shapes fuel self lmap ci (net_cluster_id net) tr k)
    ∧ cell_insts c' = cell_insts c_tc ++ omap (placement_of cmap tr) conns
    ∧ (forall c,
         c ∈ conns ->
         match child_prefix nl ccp dcp (inst_cell_index c) with
         | Some np =>
             exists idx cc,
               cmap !! (inst_cell_index c, cl_id c) = Some (Some idx)
               ∧ length (lay_cells target) <= idx
               ∧ lay_cells target' !! idx = Some cc
               ∧ cell_name cc = np +:+ il_cell_name (internal_layout self) (inst_cell_index c)
         | None => placement_of cmap tr c = None
         end)
    ∧ (forall key1 key2 idx,
         cmap !! key1 = Some (Some idx) -> cmap !! key2 = Some (Some idx) -> key1 = key2).
Proof.
  intros Hflag Hnl Hci Hrank Hdeep Hfuel Htc tr conns.
  destruct (build_net_rec_places rank self lmap nl Hrank Hdeep Hnl fuel ci (net_cluster_id net)
              tc (Some net) ccp dcp tr (mkBuildState target ∅) c_tc Hfuel Htc)
    as (st' & Hrun & Hrel & Hmemo & Hkeys & c' & Hc' & Hname & Hshapes & Hinsts).
  { intros key v. simpl. by rewrite lookup_empty. }
  exists (bs_target st'), (bs_cmap st'), c'. split_and!; try done.
  - unfold build_net, with_cell_map, build_net_rec_net. unfold_monad.
    rewrite Hflag, Hci. cbn [negb bool_decide decide_rel].
    rewrite bool_decide_eq_true_2 by done. unfold ret.
    fold tr. by rewrite Hrun.
  - intros c Hc.
    destruct (child_prefix nl ccp dcp (inst_cell_index c)) as [np|] eqn:Hnp.
    + assert (Hany : is_Some ccp ∨ is_Some dcp).
      { unfold child_prefix in Hnp.
        destruct (device_abstract_by_cell_index nl (inst_cell_index c)); rewrite Hnp; eauto. }
      pose proof (Hkeys Hany) as Hall. rewrite Forall_forall in Hall.
      destruct (Hall c Hc) as [v Hv].
      destruct (Hmemo _ _ Hv) as [_ Hsome]. simpl in Hsome. rewrite Hnp in Hsome.
      destruct (Hsome ltac:(eauto)) as [idx ->].
      destruct (rb_memo_new _ _ _ _ _ _ _ Hrel _ _ Hv) as [Hold|[_ Hidx]].
      { simpl in Hold. by rewrite lookup_empty in Hold. }
      destruct (rb_memo_cell _ _ _ _ _ _ _ Hrel idx Hidx)
        as (key & cc & Hkold & Hknew & Hcc & nl' & np' & Hnl'' & Hpre & Hnm).
      assert (key = (inst_cell_index c, cl_id c)) as ->.
      { eapply (rb_memo_inj _ _ _ _ _ _ _ Hrel); try done; simpl; apply lookup_empty. }
      simpl in Hpre, Hnm. rewrite Hnl in Hnl''. injection Hnl'' as <-.
      fold (child_prefix nl ccp dcp (inst_cell_index c)) in Hpre.
      rewrite Hnp in Hpre. injection Hpre as <-.
      exists idx, cc. split_and!; try done. simpl in Hidx. lia.
    + unfold placement_of.
      destruct (bs_cmap st' !! (inst_cell_index c, cl_id c)) as [[idx|]|] eqn:Hv; try done.
      destruct (Hmemo _ _ Hv) as [Hsome _]. simpl in Hsome. rewrite Hnp in Hsome.
      by destruct (Hsome ltac:(eauto)).
  - intros key1 key2 idx H1 H2.
    eapply (rb_memo_inj _ _ _ _ _ _ _ Hrel); try done; simpl; apply lookup_empty.
Qed.

Lemma build_net_places_children_in_order_witness :
  let K := Example.K in
  exists target' cmap c',
    build_net ExampleHier.facade1 ExampleHier.lmap1 4 ExampleHier.vdd 0 (Some "C$") None
      Example.target0 = Done tt target'
    ∧ lay_cells target' !! 0 = Some c'
    ∧ cell_name c' = "TOP"
    ∧ cell_insts c'
      = omap (placement_of cmap
                (itrans_of_mag
                   (dbl_div (il_dbu (internal_layout ExampleHier.facade1))
                      (lay_dbu Example.target0))))
          (connections_for_cluster ExampleHier.clusters1 0 5).
Proof.
  intros K.
  destruct (build_net_places_children_in_order ExampleHier.rank1 ExampleHier.facade1
              ExampleHier.lmap1 4 ExampleHier.vdd 0 0 (Some "C$"%string) None Example.target0
              ExampleHier.netlist1 (mkCell "TOP" ∅ []) eq_refl eq_refl eq_refl
              clusters1_ranked lmap1_deep)
    as (target' & cmap & c' & Hrun & Hc' & Hname & _ & Hinsts & _).
  - simpl. lia.
  - reflexivity.
  - exists target', cmap, c'. split_and!; [exact Hrun|exact Hc'|exact Hname|exact Hinsts].
Defined.
